(** * ndn-cxx application Face: a shallow embedding of [Face::Impl]
    (ndn-cxx/impl/face-impl.hpp) and of the registration reply and the
    broadcast links of [DummyClientFace] (ndn-cxx/util/dummy-client-face.cpp).

    The three record tables, the transport and the management controller are
    held in one state record; every member function of [Face::Impl] is a
    computation in a state-and-exception monad over it.  Calls that leave the
    class - to the transport and to user callbacks - are logged in a trace,
    each with the tables as they stand when the call is made.

    User callbacks are opaque.  What a callback asks of the face goes through
    the public [Face] API, which posts the work to the io_context (the unit
    tests PutMultipleData and PutMultipleNack put a packet from inside a
    filter callback and find it unsent until the clock advances), so no member
    function modelled here is re-entered while another one runs, and a
    callback is taken to return normally. *)

From Stdlib Require Import List ZArith NArith Bool Ascii String Strings.Byte Lia.
Import ListNotations.

Local Open Scope N_scope.

(** ** Packets *)

Definition Block := list byte.

Definition block_size (wire : Block) : Z := Z.of_nat (List.length wire).

(** Modelled from the spec: the constant [MAX_NDN_PACKET_SIZE] of the TLV
    encoding headers, "8800 bytes, a protocol constant". *)
Definition MAX_NDN_PACKET_SIZE : Z := 8800.

Definition Component := string.
Definition Name := list Component.

Fixpoint name_eqb (a b : Name) : bool :=
  match a, b with
  | [], [] => true
  | x :: a', y :: b' => String.eqb x y && name_eqb a' b'
  | _, _ => false
  end.

Fixpoint isPrefixOf (prefix name : Name) : bool :=
  match prefix, name with
  | [], _ => true
  | x :: p', y :: n' => String.eqb x y && isPrefixOf p' n'
  | _ :: _, [] => false
  end.

(** Modelled from the spec: the packet classes, "Interest ... carries a Name,
    a Nonce, an InterestLifetime, and optional tags (NextHopFaceId,
    CongestionMark)", "Data. Name, content, signature, optional tags
    (CachePolicy, CongestionMark)", "Nack. Wraps an Interest and a reason
    code"; application parameters and the IncomingFaceId tag are the fields
    that dummy-client-face.cpp reads. *)
Record Interest := mkInterest {
  i_name : Name;
  i_canBePrefix : bool;
  i_nonce : N;
  i_lifetime : option N;
  i_applicationParameters : Block;
  i_incomingFaceIdTag : option N;
  i_nextHopFaceIdTag : option N;
  i_congestionMarkTag : option N
}.

Inductive CachePolicyType := NO_CACHE.

Record Data := mkData {
  d_name : Name;
  d_content : Block;
  d_cachePolicyTag : option CachePolicyType;
  d_congestionMarkTag : option N
}.

(** Modelled from the spec: the Nack reason codes of lp/nack-header.hpp,
    "ordered by severity: Congestion < Duplicate < NoRoute, where smaller =
    less severe". *)
Inductive NackReason := CONGESTION | DUPLICATE | NO_ROUTE.

Definition severity (r : NackReason) : N :=
  match r with
  | CONGESTION => 0
  | DUPLICATE => 1
  | NO_ROUTE => 2
  end.

Definition isLessSevere (x y : NackReason) : bool := severity x <? severity y.

Record NackHeader := mkNackHeader { h_reason : NackReason }.

Record Nack := mkNack {
  n_interest : Interest;
  n_header : NackHeader;
  n_congestionMarkTag : option N
}.

Definition getReason (nack : Nack) : NackReason := h_reason (n_header nack).

(** ** NDNLP packets *)

(** Modelled from the spec: the NDNLP container of lp/packet.hpp, a "link-
    adaptation protocol that may prepend header fields (Fragment, Nack,
    CongestionMark, CachePolicy, NextHopFaceId, IncomingFaceId) to a bare
    network packet". *)
Inductive LpField :=
| FragmentField (fragment : Block)
| NackField (header : NackHeader)
| NextHopFaceIdField (faceId : N)
| IncomingFaceIdField (faceId : N)
| CongestionMarkField (mark : N)
| CachePolicyField (policy : CachePolicyType).

Definition LpPacket := list LpField.

Definition lp_empty (p : LpPacket) : bool :=
  match p with [] => true | _ :: _ => false end.

Definition lp_add (f : LpField) (p : LpPacket) : LpPacket := p ++ [f].

(** Modelled from the spec: [addFieldFromTag] of impl/lp-field-tag.hpp, "send
    paths copy tags from the packet into NDNLP header fields ... any tag absent
    on the packet is omitted from NDNLP". *)
Definition addFieldFromTag {V : Type} (field : V -> LpField) (tag : option V)
    (p : LpPacket) : LpPacket :=
  match tag with
  | Some v => lp_add (field v) p
  | None => p
  end.

(** ** Management commands *)

Inductive RouteOrigin := ROUTE_ORIGIN_APP | ROUTE_ORIGIN_PREFIXANN | ROUTE_ORIGIN_OTHER (code : N).

(** Modelled from the spec: the enumerator [ROUTE_FLAG_CHILD_INHERIT] of the
    NFD management headers, "the CHILD_INHERIT flag"; flags are a bit set in a
    64-bit integer and this is its lowest bit. *)
Definition ROUTE_FLAG_CHILD_INHERIT : N := 1.

Record ControlParameters := mkControlParameters {
  cp_name : option Name;
  cp_faceId : option N;
  cp_origin : option RouteOrigin;
  cp_cost : option N;
  cp_flags : option N;
  cp_expirationPeriod : option N
}.

Definition emptyControlParameters : ControlParameters :=
  mkControlParameters None None None None None None.

Definition setName (n : Name) (p : ControlParameters) : ControlParameters :=
  mkControlParameters (Some n) (cp_faceId p) (cp_origin p) (cp_cost p) (cp_flags p)
    (cp_expirationPeriod p).

Definition setFaceId (v : N) (p : ControlParameters) : ControlParameters :=
  mkControlParameters (cp_name p) (Some v) (cp_origin p) (cp_cost p) (cp_flags p)
    (cp_expirationPeriod p).

Definition setOrigin (v : RouteOrigin) (p : ControlParameters) : ControlParameters :=
  mkControlParameters (cp_name p) (cp_faceId p) (Some v) (cp_cost p) (cp_flags p)
    (cp_expirationPeriod p).

Definition setCost (v : N) (p : ControlParameters) : ControlParameters :=
  mkControlParameters (cp_name p) (cp_faceId p) (cp_origin p) (Some v) (cp_flags p)
    (cp_expirationPeriod p).

Definition setFlags (v : N) (p : ControlParameters) : ControlParameters :=
  mkControlParameters (cp_name p) (cp_faceId p) (cp_origin p) (cp_cost p) (Some v)
    (cp_expirationPeriod p).

Definition setExpirationPeriod (v : N) (p : ControlParameters) : ControlParameters :=
  mkControlParameters (cp_name p) (cp_faceId p) (cp_origin p) (cp_cost p) (cp_flags p)
    (Some v).

Definition hasFaceId (p : ControlParameters) : bool :=
  match cp_faceId p with Some _ => true | None => false end.

Definition hasOrigin (p : ControlParameters) : bool :=
  match cp_origin p with Some _ => true | None => false end.

Definition hasCost (p : ControlParameters) : bool :=
  match cp_cost p with Some _ => true | None => false end.

Record ControlResponse := mkControlResponse {
  resp_code : N;
  resp_text : string;
  resp_body : option ControlParameters
}.

Record ValidityPeriod := mkValidityPeriod { notBefore : N; notAfter : N }.

Record PrefixAnnouncement := mkPrefixAnnouncement {
  pa_announcedName : Name;
  pa_expiration : N;
  pa_validityPeriod : option ValidityPeriod
}.

Record CommandOptions := mkCommandOptions {
  opt_timeout : N;
  opt_prefix : Name;
  opt_signingIdentity : Name
}.

(** ** External collaborators

    The TLV codec, the matching predicates of Interest and InterestFilter and
    the transport are outside the files embedded here; the development is
    parametric in them. *)

Class Codec := {
  interest_wireEncode : Interest -> Block;
  data_wireEncode : Data -> Block;
  lp_wireEncode : LpPacket -> Block;
  (** [interest.matchesData(data)] *)
  matchesData : Interest -> Data -> bool;
  (** [self.matchesInterest(other)] *)
  matchesInterest : Interest -> Interest -> bool;
  (** [InterestFilter::doesMatch(name)]: prefix and optional regex *)
  filter_doesMatch_name : Name -> option string -> Name -> bool;
  (** [ControlParameters(component.blockFromValue())]; [None] when the
      decoder throws *)
  decodeControlParameters : Component -> option ControlParameters;
  (** [PrefixAnnouncement(Data(parameters.blockFromValue()))]; [None] when
      the decoder throws *)
  decodePrefixAnnouncement : Block -> option PrefixAnnouncement
}.

Inductive TransportState := CLOSED | CONNECTING | RUNNING | PAUSED.

Definition TransportState_eqb (a b : TransportState) : bool :=
  match a, b with
  | CLOSED, CLOSED | CONNECTING, CONNECTING | RUNNING, RUNNING | PAUSED, PAUSED => true
  | _, _ => false
  end.

Class Transport := {
  transport_connect : TransportState -> TransportState;
  transport_resume : TransportState -> TransportState;
  transport_pause : TransportState -> TransportState
}.

(** ** Records and record containers *)

Definition RecordId := N.
Definition Callback := N.

Inductive PendingInterestOrigin := APP | FORWARDER.

Definition isApp (o : PendingInterestOrigin) : bool :=
  match o with APP => true | FORWARDER => false end.

(** Modelled from the spec: the record class of impl/pending-interest.hpp,
    "id; interest; origin; callbacks (afterSatisfied, afterNacked,
    afterTimeout) - any may be absent; timeout event handle; nack-accumulator
    (least-severe Nack seen so far ...)", with the number of destinations the
    Interest has been dispatched to and the number of those that have Nacked. *)
Record PendingInterest := mkPendingInterest {
  pi_interest : Interest;
  pi_origin : PendingInterestOrigin;
  pi_dataCallback : option Callback;
  pi_nackCallback : option Callback;
  pi_timeoutCallback : option Callback;
  pi_timeoutArmed : bool;
  pi_nForwarded : N;
  pi_nNacked : N;
  pi_leastSevereNack : option Nack
}.

(** Modelled from the spec: [PendingInterestTable.put], "Origin = APP. Arms a
    timer equal to interest.lifetime". *)
Definition newAppPendingInterest (interest : Interest)
    (afterSatisfied afterNacked afterTimeout : option Callback) : PendingInterest :=
  mkPendingInterest interest APP afterSatisfied afterNacked afterTimeout true 0 0 None.

(** Modelled from the spec: [PendingInterestTable.insert], "Origin =
    FORWARDER. No timer, no user callbacks". *)
Definition newForwarderPendingInterest (interest : Interest) : PendingInterest :=
  mkPendingInterest interest FORWARDER None None None false 0 0 None.

(** Modelled from the spec: [PendingInterest::recordForwarding], "records
    that the pending-interest entry has been forwarded to one more
    destination". *)
Definition recordForwarding (e : PendingInterest) : PendingInterest :=
  mkPendingInterest (pi_interest e) (pi_origin e) (pi_dataCallback e) (pi_nackCallback e)
    (pi_timeoutCallback e) (pi_timeoutArmed e) (pi_nForwarded e + 1) (pi_nNacked e)
    (pi_leastSevereNack e).

Definition lessSevereOf (nack : Nack) (least : option Nack) : Nack :=
  match least with
  | None => nack
  | Some l => if isLessSevere (getReason nack) (getReason l) then nack else l
  end.

(** Modelled from the spec: [PendingInterest::recordNack], "Record nack into
    entry's accumulator. The accumulator ... keeps the least-severe reason so
    far. If not yet every dispatched destination has Nacked, the entry is kept
    and produces no output"; the accumulated Nack is returned once all
    destinations have Nacked. *)
Definition recordNack (e : PendingInterest) (nack : Nack) : option Nack * PendingInterest :=
  let least := lessSevereOf nack (pi_leastSevereNack e) in
  let nNacked := pi_nNacked e + 1 in
  let e' := mkPendingInterest (pi_interest e) (pi_origin e) (pi_dataCallback e)
              (pi_nackCallback e) (pi_timeoutCallback e) (pi_timeoutArmed e)
              (pi_nForwarded e) nNacked (Some least) in
  (if nNacked <? pi_nForwarded e then None else Some least, e').

(** Modelled from the spec: "InterestFilterRecord. id; filter (Name-prefix
    plus optional regex plus allowLoopback flag); onInterest callback"; the id
    is the key under which the record is held. *)
Record InterestFilter := mkInterestFilter {
  f_prefix : Name;
  f_regex : option string;
  f_allowLoopback : bool
}.

Record InterestFilterRecord := mkInterestFilterRecord {
  ifr_filter : InterestFilter;
  ifr_interestCallback : option Callback
}.

(** Modelled from the spec: [InterestFilterRecord::doesMatch] of
    impl/interest-filter-record.hpp, "(filter.prefix isPrefixOf interest.name)
    AND, if a regex is configured, the remainder matches the regex. If the
    producing Interest's origin is APP (loopback) and the filter disables
    loopback, the filter does not match". *)
Definition doesMatch `{Codec} (filter : InterestFilterRecord) (entry : PendingInterest) : bool :=
  (negb (isApp (pi_origin entry)) || f_allowLoopback (ifr_filter filter))
  && filter_doesMatch_name (f_prefix (ifr_filter filter)) (f_regex (ifr_filter filter))
       (i_name (pi_interest entry)).

(** Modelled from the spec: "RegisteredPrefix. id; prefix; command options
    ...; optional filterId pairing it with an InterestFilterRecord"; no filter
    is id 0, as face-impl.hpp has it. *)
Record RegisteredPrefix := mkRegisteredPrefix {
  rp_prefix : Name;
  rp_commandOptions : CommandOptions;
  rp_filterId : RecordId
}.

(** Modelled from the spec: [RecordContainer<T>] of
    impl/record-container.hpp, "a mapping from RecordId to T with ... ordered
    insertion (iteration yields insertion order)"; ids are "monotonically
    allocated non-zero" integers. *)
Record RecordContainer (T : Type) := mkRecordContainer {
  rc_records : list (RecordId * T);
  rc_lastId : RecordId
}.
Arguments mkRecordContainer {T} _ _.
Arguments rc_records {T} _.
Arguments rc_lastId {T} _.

Section RecordContainerOps.
Context {T : Type}.

Definition hasId (id : RecordId) (r : RecordId * T) : bool := fst r =? id.

(** Modelled from the spec: the member functions [get], [put], [allocateId],
    [insert], [erase] and [clear] of the container; "insert/put return a
    stable reference valid until the entry is removed", which is the id here. *)
Definition rc_new : RecordContainer T := mkRecordContainer [] 0.

Definition records_get (id : RecordId) (rs : list (RecordId * T)) : option T :=
  option_map snd (find (hasId id) rs).

Definition rc_get (id : RecordId) (c : RecordContainer T) : option T :=
  records_get id (rc_records c).

Definition rc_empty (c : RecordContainer T) : bool :=
  match rc_records c with [] => true | _ :: _ => false end.

Definition records_erase (id : RecordId) (rs : list (RecordId * T)) : list (RecordId * T) :=
  filter (fun r => negb (hasId id r)) rs.

(** The container is a mapping: putting under an id replaces what was there. *)
Definition rc_put (id : RecordId) (r : T) (c : RecordContainer T) : RecordContainer T :=
  mkRecordContainer (records_erase id (rc_records c) ++ [(id, r)]) (rc_lastId c).

Definition rc_allocateId (c : RecordContainer T) : RecordId * RecordContainer T :=
  (rc_lastId c + 1, mkRecordContainer (rc_records c) (rc_lastId c + 1)).

Definition rc_insert (r : T) (c : RecordContainer T) : RecordId * RecordContainer T :=
  let (id, c') := rc_allocateId c in (id, rc_put id r c').

Definition rc_erase (id : RecordId) (c : RecordContainer T) : RecordContainer T :=
  mkRecordContainer (records_erase id (rc_records c)) (rc_lastId c).

Definition rc_clear (c : RecordContainer T) : RecordContainer T :=
  mkRecordContainer [] (rc_lastId c).

(** A record reached through a reference is updated in place. *)
Definition rc_update (id : RecordId) (f : T -> T) (c : RecordContainer T) : RecordContainer T :=
  mkRecordContainer
    (map (fun r => if hasId id r then (fst r, f (snd r)) else r) (rc_records c))
    (rc_lastId c).

(** Modelled from the spec: the [onEmpty] signal, "an onEmpty notification
    fires exactly when the last entry is removed". *)
Definition firesOnEmpty (before after : list (RecordId * T)) : bool :=
  match before, after with
  | _ :: _, [] => true
  | _, _ => false
  end.
End RecordContainerOps.

Section RemoveIf.
Context {T A V E : Type}.
Variable mkView : list (RecordId * T) -> V.
Variable visit : T -> A -> bool * T * A * list E.

(** Modelled from the spec: [RecordContainer::removeIf], "Visits each entry.
    Predicate returns true => remove after visit."  The visitor may update the
    record it is handed, carries the variables its lambda captures by
    reference in [a], and lists the calls it makes; [mkView] gives the tables
    as they stand while the record is being visited. *)
Fixpoint removeIf_go (visited rest : list (RecordId * T)) (a : A)
  : list (RecordId * T) * A * list (E * V) :=
  match rest with
  | [] => (visited, a, [])
  | (id, r) :: rest' =>
      let '(wantErase, r', a', calls) := visit r a in
      let now := mkView (visited ++ (id, r') :: rest') in
      let '(final, a'', later) :=
        removeIf_go (if wantErase then visited else visited ++ [(id, r')]) rest' a' in
      (final, a'', map (fun c => (c, now)) calls ++ later)
  end.
End RemoveIf.

(** ** The state of [Face::Impl] *)

Inductive CommandVerb := RibRegisterCommand | RibUnregisterCommand | RibAnnounceCommand.

Inductive CommandArgument :=
| WithParameters (params : ControlParameters)
| WithAnnouncement (announcement : PrefixAnnouncement).

(** The lambdas handed to [Controller::start], with the values they capture. *)
Inductive SuccessHandler :=
| AfterRegistered (id : RecordId) (prefix : Name) (options : CommandOptions)
    (filter : option InterestFilter) (onInterest : option Callback)
    (onSuccess : option Callback)
| AfterUnregistered (id : RecordId) (onSuccess : option Callback).

Inductive FailureHandler :=
| RegisterFailed (prefix : Name) (onFailure : option Callback)
| UnregisterFailed (onFailure : option Callback).

(** Modelled from the spec: the Controller contract, "start<Command>(params,
    onOk(response), onFail(errorResponse), options)"; a started command waits
    for the forwarder's response. *)
Record StartedCommand := mkStartedCommand {
  cmd_verb : CommandVerb;
  cmd_argument : CommandArgument;
  cmd_onSuccess : SuccessHandler;
  cmd_onFailure : FailureHandler;
  cmd_options : CommandOptions
}.

(** The lambdas posted to the io_context. *)
Inductive Handler :=
| CheckIdle
| ErasePendingInterest (id : RecordId)
| UnsetInterestFilter (id : RecordId)
| UnregisterPrefix (id : RecordId) (onSuccess onFailure : option Callback).

(** Calls that leave [Face::Impl]: to the transport and to user callbacks. *)
Inductive Effect :=
| TransportConnect
| TransportResume
| TransportPause
| TransportSend (wire : Block)
| InvokeDataCallback (entry : PendingInterest) (data : Data)
| InvokeNackCallback (entry : PendingInterest) (nack : Nack)
| InvokeInterestCallback (id : RecordId) (filter : InterestFilterRecord) (interest : Interest)
| CallRegisterSuccess (onSuccess : Callback) (prefix : Name)
| CallRegisterFailure (onFailure : Callback) (prefix : Name) (text : string)
| CallUnregisterSuccess (onSuccess : Callback)
| CallUnregisterFailure (onFailure : Callback) (text : string).

Record View := mkView {
  v_pendingInterests : list (RecordId * PendingInterest);
  v_interestFilters : list (RecordId * InterestFilterRecord);
  v_registeredPrefixes : list (RecordId * RegisteredPrefix)
}.

Abbreviation Event := (Effect * View)%type.

Record Impl := mkImpl {
  m_transport : TransportState;
  m_pendingInterestTable : RecordContainer PendingInterest;
  m_interestFilterTable : RecordContainer InterestFilterRecord;
  m_registeredPrefixTable : RecordContainer RegisteredPrefix;
  m_nfdController : list StartedCommand;
  m_workGuard : bool;
  m_processEventsTimeoutEvent : bool;
  m_ioContext : list Handler;
  trace : list Event
}.

Definition newImpl : Impl :=
  mkImpl CLOSED rc_new rc_new rc_new [] false false [] [].

Definition set_transport (t : TransportState) (s : Impl) : Impl :=
  mkImpl t (m_pendingInterestTable s) (m_interestFilterTable s) (m_registeredPrefixTable s)
    (m_nfdController s) (m_workGuard s) (m_processEventsTimeoutEvent s) (m_ioContext s)
    (trace s).

Definition set_pendingInterestTable (t : RecordContainer PendingInterest) (s : Impl) : Impl :=
  mkImpl (m_transport s) t (m_interestFilterTable s) (m_registeredPrefixTable s)
    (m_nfdController s) (m_workGuard s) (m_processEventsTimeoutEvent s) (m_ioContext s)
    (trace s).

Definition set_interestFilterTable (t : RecordContainer InterestFilterRecord) (s : Impl) : Impl :=
  mkImpl (m_transport s) (m_pendingInterestTable s) t (m_registeredPrefixTable s)
    (m_nfdController s) (m_workGuard s) (m_processEventsTimeoutEvent s) (m_ioContext s)
    (trace s).

Definition set_registeredPrefixTable (t : RecordContainer RegisteredPrefix) (s : Impl) : Impl :=
  mkImpl (m_transport s) (m_pendingInterestTable s) (m_interestFilterTable s) t
    (m_nfdController s) (m_workGuard s) (m_processEventsTimeoutEvent s) (m_ioContext s)
    (trace s).

Definition set_nfdController (c : list StartedCommand) (s : Impl) : Impl :=
  mkImpl (m_transport s) (m_pendingInterestTable s) (m_interestFilterTable s)
    (m_registeredPrefixTable s) c (m_workGuard s) (m_processEventsTimeoutEvent s)
    (m_ioContext s) (trace s).

Definition set_workGuard (g : bool) (s : Impl) : Impl :=
  mkImpl (m_transport s) (m_pendingInterestTable s) (m_interestFilterTable s)
    (m_registeredPrefixTable s) (m_nfdController s) g (m_processEventsTimeoutEvent s)
    (m_ioContext s) (trace s).

Definition set_processEventsTimeoutEvent (e : bool) (s : Impl) : Impl :=
  mkImpl (m_transport s) (m_pendingInterestTable s) (m_interestFilterTable s)
    (m_registeredPrefixTable s) (m_nfdController s) (m_workGuard s) e (m_ioContext s)
    (trace s).

Definition set_ioContext (q : list Handler) (s : Impl) : Impl :=
  mkImpl (m_transport s) (m_pendingInterestTable s) (m_interestFilterTable s)
    (m_registeredPrefixTable s) (m_nfdController s) (m_workGuard s)
    (m_processEventsTimeoutEvent s) q (trace s).

Definition set_trace (t : list Event) (s : Impl) : Impl :=
  mkImpl (m_transport s) (m_pendingInterestTable s) (m_interestFilterTable s)
    (m_registeredPrefixTable s) (m_nfdController s) (m_workGuard s)
    (m_processEventsTimeoutEvent s) (m_ioContext s) t.

Definition view (s : Impl) : View :=
  mkView (rc_records (m_pendingInterestTable s)) (rc_records (m_interestFilterTable s))
    (rc_records (m_registeredPrefixTable s)).

(** ** The monad of member functions: state, and C++ exceptions that leave the
    state as it is when they are thrown *)

Inductive Exn :=
| OversizedPacketError (pktType : ascii) (name : Name) (size : Z)
| BadFunctionCall.

Inductive Outcome (A : Type) :=
| Returned (a : A)
| Thrown (e : Exn).
Arguments Returned {A} a.
Arguments Thrown {A} e.

Definition M (A : Type) : Type := Impl -> Outcome A * Impl.

Definition ret {A : Type} (a : A) : M A := fun s => (Returned a, s).

Definition bind {A B : Type} (m : M A) (k : A -> M B) : M B :=
  fun s =>
    match m s with
    | (Returned a, s') => k a s'
    | (Thrown e, s') => (Thrown e, s')
    end.

Definition throw {A : Type} (e : Exn) : M A := fun s => (Thrown e, s).

Definition gets {A : Type} (f : Impl -> A) : M A := fun s => (Returned (f s), s).

Definition modify (f : Impl -> Impl) : M unit := fun s => (Returned tt, f s).

Declare Scope face_scope.
Delimit Scope face_scope with face.
Notation "x <- c1 ;; c2" := (bind c1 (fun x => c2))
  (at level 61, c1 at next level, right associativity) : face_scope.
Notation "c1 ;; c2" := (bind c1 (fun _ => c2))
  (at level 61, right associativity) : face_scope.
Local Open Scope face_scope.

Definition emit (eff : Effect) : M unit :=
  modify (fun s => set_trace (trace s ++ [(eff, view s)]) s).

Definition post (h : Handler) : M unit :=
  modify (fun s => set_ioContext (m_ioContext s ++ [h]) s).

Definition when (b : bool) (m : M unit) : M unit := if b then m else ret tt.

(** The handler connected to [onEmpty] of the pending-interest table and of
    the registered-prefix table by the constructor. *)
Definition onEmptyPitOrNoRegisteredPrefixes : M unit := post CheckIdle.

Section FaceImpl.
Context {codec : Codec} {transport : Transport}.

(** *** Table operations that raise [onEmpty] *)

Definition pendingInterestTable_erase (id : RecordId) : M unit :=
  before <- gets (fun s => rc_records (m_pendingInterestTable s)) ;;
  modify (fun s => set_pendingInterestTable (rc_erase id (m_pendingInterestTable s)) s) ;;
  after <- gets (fun s => rc_records (m_pendingInterestTable s)) ;;
  when (firesOnEmpty before after) onEmptyPitOrNoRegisteredPrefixes.

Definition pendingInterestTable_clear : M unit :=
  before <- gets (fun s => rc_records (m_pendingInterestTable s)) ;;
  modify (fun s => set_pendingInterestTable (rc_clear (m_pendingInterestTable s)) s) ;;
  when (firesOnEmpty before []) onEmptyPitOrNoRegisteredPrefixes.

Definition pendingInterestTable_removeIf {A : Type}
    (visit : PendingInterest -> A -> bool * PendingInterest * A * list Effect) (a : A)
  : M A :=
  fun s =>
    let before := rc_records (m_pendingInterestTable s) in
    let mkV := fun rs => mkView rs (rc_records (m_interestFilterTable s))
                           (rc_records (m_registeredPrefixTable s)) in
    let '(after, a', events) := removeIf_go mkV visit [] before a in
    let s' := set_trace (trace s ++ events)
                (set_pendingInterestTable
                   (mkRecordContainer after (rc_lastId (m_pendingInterestTable s))) s) in
    (when (firesOnEmpty before after) onEmptyPitOrNoRegisteredPrefixes ;; ret a') s'.

Definition registeredPrefixTable_erase (id : RecordId) : M unit :=
  before <- gets (fun s => rc_records (m_registeredPrefixTable s)) ;;
  modify (fun s => set_registeredPrefixTable (rc_erase id (m_registeredPrefixTable s)) s) ;;
  after <- gets (fun s => rc_records (m_registeredPrefixTable s)) ;;
  when (firesOnEmpty before after) onEmptyPitOrNoRegisteredPrefixes.

Definition registeredPrefixTable_clear : M unit :=
  before <- gets (fun s => rc_records (m_registeredPrefixTable s)) ;;
  modify (fun s => set_registeredPrefixTable (rc_clear (m_registeredPrefixTable s)) s) ;;
  when (firesOnEmpty before []) onEmptyPitOrNoRegisteredPrefixes.

(** *** IO routine *)

Definition transportSend (wire : Block) : M unit := emit (TransportSend wire).

Definition ensureConnected (wantResume : bool) : M unit :=
  state <- gets m_transport ;;
  when (TransportState_eqb state CLOSED)
    (emit TransportConnect ;;
     modify (fun s => set_transport (transport_connect (m_transport s)) s)) ;;
  when wantResume
    (emit TransportResume ;;
     modify (fun s => set_transport (transport_resume (m_transport s)) s)).

Definition shutdown : M unit :=
  modify (set_workGuard false) ;;
  pendingInterestTable_clear ;;
  registeredPrefixTable_clear.

Definition finalWire (lpPacket : LpPacket) (wire : Block) : Block :=
  if negb (lp_empty lpPacket)
  then lp_wireEncode (lp_add (FragmentField wire) lpPacket)
  else wire.

Definition finishEncoding (lpPacket : LpPacket) (wire : Block) (pktType : ascii)
    (name : Name) : M Block :=
  let wire := finalWire lpPacket wire in
  if (block_size wire >? MAX_NDN_PACKET_SIZE)%Z
  then throw (OversizedPacketError pktType name (block_size wire))
  else ret wire.

(** Modelled from the spec: [RecordContainer::forEach], which "iterates
    filters in insertion order". *)
Fixpoint forEach {T : Type} (rs : list (RecordId * T)) (f : RecordId -> T -> M unit)
  : M unit :=
  match rs with
  | [] => ret tt
  | (id, r) :: rs' => f id r ;; forEach rs' f
  end.

(** [entry] is a reference to a record of the pending-interest table, given
    here by the record's id. *)
Definition dispatchVisit (entry : RecordId) (interest : Interest)
    (fid : RecordId) (filter : InterestFilterRecord) : M unit :=
  e <- gets (fun s => rc_get entry (m_pendingInterestTable s)) ;;
  match e with
  | None => ret tt
  | Some e =>
      if negb (doesMatch filter e) then ret tt
      else
        modify (fun s => set_pendingInterestTable
                           (rc_update entry recordForwarding (m_pendingInterestTable s)) s) ;;
        emit (InvokeInterestCallback fid filter interest)
  end.

Definition dispatchInterest (entry : RecordId) (interest : Interest) : M unit :=
  filters <- gets (fun s => rc_records (m_interestFilterTable s)) ;;
  forEach filters (dispatchVisit entry interest).

Definition unsetInterestFilter (id : RecordId) : M unit :=
  record <- gets (fun s => rc_get id (m_interestFilterTable s)) ;;
  match record with
  | Some _ =>
      modify (fun s => set_interestFilterTable (rc_erase id (m_interestFilterTable s)) s)
  | None => ret tt
  end.

(** *** Consumer *)

Definition interestLpPacket (interest : Interest) : LpPacket :=
  addFieldFromTag CongestionMarkField (i_congestionMarkTag interest)
    (addFieldFromTag NextHopFaceIdField (i_nextHopFaceIdTag interest) []).

Definition expressInterest (id : RecordId) (interest : Interest)
    (afterSatisfied afterNacked afterTimeout : option Callback) : M unit :=
  ensureConnected true ;;
  modify (fun s => set_pendingInterestTable
            (rc_put id (newAppPendingInterest interest afterSatisfied afterNacked afterTimeout)
               (m_pendingInterestTable s)) s) ;;
  let lpPacket := interestLpPacket interest in
  modify (fun s => set_pendingInterestTable
            (rc_update id recordForwarding (m_pendingInterestTable s)) s) ;;
  wire <- finishEncoding lpPacket (interest_wireEncode interest) "I" (i_name interest) ;;
  transportSend wire ;;
  dispatchInterest id interest.

Definition asyncRemovePendingInterest (id : RecordId) : M unit :=
  post (ErasePendingInterest id).

Definition removeAllPendingInterests : M unit := pendingInterestTable_clear.

(** The lambda of [satisfyPendingInterests]; [flags] is
    [(hasAppMatch, hasForwarderMatch)]. *)
Definition satisfyVisit (data : Data) (entry : PendingInterest) (flags : bool * bool)
  : bool * PendingInterest * (bool * bool) * list Effect :=
  if negb (matchesData (pi_interest entry) data) then (false, entry, flags, [])
  else if isApp (pi_origin entry)
       then (true, entry, (true, snd flags), [InvokeDataCallback entry data])
       else (true, entry, (fst flags, true), []).

Definition satisfyPendingInterests (data : Data) : M bool :=
  flags <- pendingInterestTable_removeIf (satisfyVisit data) (false, false) ;;
  let '(hasAppMatch, hasForwarderMatch) := flags in
  ret (hasForwarderMatch || negb hasAppMatch).

(** The lambda of [nackPendingInterests]; [outNack] is captured by
    reference. *)
Definition nackVisit (nack : Nack) (entry : PendingInterest) (outNack : option Nack)
  : bool * PendingInterest * option Nack * list Effect :=
  if negb (matchesInterest (n_interest nack) (pi_interest entry))
  then (false, entry, outNack, [])
  else
    let '(outNack1, entry') := recordNack entry nack in
    match outNack1 with
    | None => (false, entry', outNack, [])
    | Some n1 =>
        if isApp (pi_origin entry')
        then (true, entry', outNack, [InvokeNackCallback entry' n1])
        else (true, entry', Some n1, [])
    end.

Definition nackPendingInterests (nack : Nack) : M (option Nack) :=
  pendingInterestTable_removeIf (nackVisit nack) None.

(** *** Producer *)

Definition setInterestFilter (id : RecordId) (filter : InterestFilter)
    (onInterest : option Callback) : M unit :=
  modify (fun s => set_interestFilterTable
            (rc_put id (mkInterestFilterRecord filter onInterest) (m_interestFilterTable s))
            s).

Definition asyncUnsetInterestFilter (id : RecordId) : M unit :=
  post (UnsetInterestFilter id).

Definition processIncomingInterest (interest : Interest) : M unit :=
  id <- (fun s =>
           let (id, t) := rc_insert (newForwarderPendingInterest interest)
                            (m_pendingInterestTable s) in
           (Returned id, set_pendingInterestTable t s)) ;;
  dispatchInterest id interest.

Definition dataLpPacket (data : Data) : LpPacket :=
  addFieldFromTag CongestionMarkField (d_congestionMarkTag data)
    (addFieldFromTag CachePolicyField (d_cachePolicyTag data) []).

Definition putData (data : Data) : M unit :=
  shouldSendToForwarder <- satisfyPendingInterests data ;;
  if negb shouldSendToForwarder then ret tt
  else
    ensureConnected true ;;
    let lpPacket := dataLpPacket data in
    wire <- finishEncoding lpPacket (data_wireEncode data) "D" (d_name data) ;;
    transportSend wire.

Definition nackLpPacket (outNack : Nack) : LpPacket :=
  addFieldFromTag CongestionMarkField (n_congestionMarkTag outNack)
    (lp_add (NackField (n_header outNack)) []).

Definition putNack (nack : Nack) : M unit :=
  outNack <- nackPendingInterests nack ;;
  match outNack with
  | None => ret tt
  | Some outNack =>
      ensureConnected true ;;
      let lpPacket := nackLpPacket outNack in
      let interest := n_interest outNack in
      wire <- finishEncoding lpPacket (interest_wireEncode interest) "N" (i_name interest) ;;
      transportSend wire
  end.

(** *** Prefix registration *)

Definition controllerStart (verb : CommandVerb) (argument : CommandArgument)
    (onSuccess : SuccessHandler) (onFailure : FailureHandler) (options : CommandOptions)
  : M unit :=
  modify (fun s => set_nfdController
            (m_nfdController s ++ [mkStartedCommand verb argument onSuccess onFailure options])
            s).

Definition registeredPrefixTable_allocateId : M RecordId :=
  fun s =>
    let (id, t) := rc_allocateId (m_registeredPrefixTable s) in
    (Returned id, set_registeredPrefixTable t s).

Definition registerPrefix (prefix : Name) (onSuccess onFailure : option Callback)
    (flags : N) (options : CommandOptions) (filter : option InterestFilter)
    (onInterest : option Callback) : M RecordId :=
  id <- registeredPrefixTable_allocateId ;;
  controllerStart RibRegisterCommand
    (WithParameters (setFlags flags (setName prefix emptyControlParameters)))
    (AfterRegistered id prefix options filter onInterest onSuccess)
    (RegisterFailed prefix onFailure)
    options ;;
  ret id.

Definition asyncUnregisterPrefix (id : RecordId) (onSuccess onFailure : option Callback)
  : M unit :=
  post (UnregisterPrefix id onSuccess onFailure).

Definition announcePrefix (prefix : Name) (expiration : N)
    (validityPeriod : option ValidityPeriod) (onSuccess onFailure : option Callback)
    (options : CommandOptions) (filter : option InterestFilter)
    (onInterest : option Callback) : M RecordId :=
  id <- registeredPrefixTable_allocateId ;;
  let prefixAnnouncement := mkPrefixAnnouncement prefix expiration validityPeriod in
  controllerStart RibAnnounceCommand
    (WithAnnouncement prefixAnnouncement)
    (AfterRegistered id prefix options filter onInterest onSuccess)
    (RegisterFailed prefix onFailure)
    options ;;
  ret id.

Definition unregisterPrefix (id : RecordId) (onSuccess onFailure : option Callback)
  : M unit :=
  record <- gets (fun s => rc_get id (m_registeredPrefixTable s)) ;;
  match record with
  | None =>
      match onFailure with
      | Some f => emit (CallUnregisterFailure f "Unrecognized RegisteredPrefixHandle")
      | None => ret tt
      end
  | Some record =>
      when (negb (rp_filterId record =? 0)) (unsetInterestFilter (rp_filterId record)) ;;
      controllerStart RibUnregisterCommand
        (WithParameters (setName (rp_prefix record) emptyControlParameters))
        (AfterUnregistered id onSuccess)
        (UnregisterFailed onFailure)
        (rp_commandOptions record)
  end.

(** The success lambdas, run by the controller with the forwarder's
    response. *)
Definition runSuccessHandler (h : SuccessHandler) (response : ControlParameters)
  : M unit :=
  match h with
  | AfterRegistered id prefix options filter onInterest onSuccess =>
      filterId <- match filter with
                  | Some f =>
                      fun s =>
                        let (fid, t) := rc_insert (mkInterestFilterRecord f onInterest)
                                          (m_interestFilterTable s) in
                        (Returned fid, set_interestFilterTable t s)
                  | None => ret 0
                  end ;;
      modify (fun s => set_registeredPrefixTable
                (rc_put id (mkRegisteredPrefix prefix options filterId)
                   (m_registeredPrefixTable s)) s) ;;
      match onSuccess with
      | Some f => emit (CallRegisterSuccess f prefix)
      | None => ret tt
      end
  | AfterUnregistered id onSuccess =>
      registeredPrefixTable_erase id ;;
      match onSuccess with
      | Some f => emit (CallUnregisterSuccess f)
      | None => ret tt
      end
  end.

(** The failure lambdas.  The one of [registerPrefix] calls [onFailure]
    without testing it; calling an empty [std::function] throws. *)
Definition runFailureHandler (h : FailureHandler) (resp : ControlResponse) : M unit :=
  match h with
  | RegisterFailed prefix onFailure =>
      match onFailure with
      | Some f => emit (CallRegisterFailure f prefix (resp_text resp))
      | None => throw BadFunctionCall
      end
  | UnregisterFailed onFailure =>
      match onFailure with
      | Some f => emit (CallUnregisterFailure f (resp_text resp))
      | None => ret tt
      end
  end.

(** *** Posted handlers *)

Definition runHandler (h : Handler) : M unit :=
  match h with
  | CheckIdle =>
      idle <- gets (fun s => rc_empty (m_pendingInterestTable s)
                             && rc_empty (m_registeredPrefixTable s)) ;;
      when idle
        (emit TransportPause ;;
         modify (fun s => set_transport (transport_pause (m_transport s)) s) ;;
         guard <- gets m_workGuard ;;
         when (negb guard) (modify (set_processEventsTimeoutEvent false)))
  | ErasePendingInterest id => pendingInterestTable_erase id
  | UnsetInterestFilter id => unsetInterestFilter id
  | UnregisterPrefix id onSuccess onFailure => unregisterPrefix id onSuccess onFailure
  end.

Definition poll : M unit :=
  queue <- gets m_ioContext ;;
  match queue with
  | [] => ret tt
  | h :: queue' => modify (set_ioContext queue') ;; runHandler h
  end.
End FaceImpl.

(** ** The registration reply of [DummyClientFace] *)

Definition localhostRibPrefix : Name := ["localhost"; "nfd"; "rib"]%string.
Definition registerVerb : Component := "register"%string.
Definition announceVerb : Component := "announce"%string.

Definition component_at (name : Name) (i : nat) : Component := nth i name EmptyString.

Record RegistrationReply := mkRegistrationReply {
  reply_name : Name;
  reply_response : ControlResponse
}.

Inductive ReplyOutcome :=
| NoReply
| DecodeError
| Reply (data : RegistrationReply).

Section RegistrationReply.
Context {codec : Codec}.

Definition announceParameters (prefixAnnouncement : PrefixAnnouncement)
  : ControlParameters :=
  setExpirationPeriod (pa_expiration prefixAnnouncement)
    (setFlags ROUTE_FLAG_CHILD_INHERIT
       (setCost 2048
          (setOrigin ROUTE_ORIGIN_PREFIXANN
             (setFaceId 555
                (setName (pa_announcedName prefixAnnouncement) emptyControlParameters))))).

Definition commandParameters (faceId : N) (name : Name) (params : ControlParameters)
  : ControlParameters :=
  let params := if negb (hasFaceId params) then setFaceId faceId params else params in
  let params := if negb (hasOrigin params) then setOrigin ROUTE_ORIGIN_APP params
                else params in
  if negb (hasCost params) && String.eqb (component_at name 3) registerVerb
  then setCost 0 params
  else params.

(** The handler that [enableRegistrationReply faceId] connects to
    [onSendInterest]; the reply is the Data it posts for reception. *)
Definition enableRegistrationReply (faceId : N) (interest : Interest) : ReplyOutcome :=
  let name := i_name interest in
  if (List.length name <=? 4)%nat || negb (isPrefixOf localhostRibPrefix name) then NoReply
  else
    let params :=
      if String.eqb (component_at name 3) announceVerb
      then option_map announceParameters
             (decodePrefixAnnouncement (i_applicationParameters interest))
      else option_map (commandParameters faceId name)
             (decodeControlParameters (component_at name 4)) in
    match params with
    | None => DecodeError
    | Some params =>
        Reply (mkRegistrationReply name (mkControlResponse 200 EmptyString (Some params)))
    end.
End RegistrationReply.

(** ** A concrete codec and transport, for the worked examples *)

Definition encodeName (name : Name) : Block :=
  flat_map (fun c => "/"%byte :: list_byte_of_string c) name.

Definition encodeField (f : LpField) : Block :=
  match f with
  | FragmentField fragment => "P"%byte :: fragment
  | NackField header =>
      match h_reason header with
      | CONGESTION => ["N"; "2"]%byte
      | DUPLICATE => ["N"; "d"]%byte
      | NO_ROUTE => ["N"; "x"]%byte
      end
  | NextHopFaceIdField _ => ["H"]%byte
  | IncomingFaceIdField _ => ["F"]%byte
  | CongestionMarkField _ => ["C"]%byte
  | CachePolicyField _ => ["Y"]%byte
  end.

Definition exampleCodec : Codec := {|
  interest_wireEncode := fun i =>
    x05 :: encodeName (i_name i) ++ i_applicationParameters i;
  data_wireEncode := fun d => x06 :: encodeName (d_name d) ++ d_content d;
  lp_wireEncode := fun p => x64 :: flat_map encodeField p;
  matchesData := fun i d =>
    if i_canBePrefix i then isPrefixOf (i_name i) (d_name d)
    else name_eqb (i_name i) (d_name d);
  matchesInterest := fun a b =>
    name_eqb (i_name a) (i_name b) && Bool.eqb (i_canBePrefix a) (i_canBePrefix b);
  filter_doesMatch_name := fun prefix regex name =>
    isPrefixOf prefix name && match regex with None => true | Some _ => false end;
  decodeControlParameters := fun c => Some (setName [c] emptyControlParameters);
  decodePrefixAnnouncement := fun b =>
    Some (mkPrefixAnnouncement [string_of_list_byte b] 1000 None)
|}.

Definition exampleTransport : Transport := {|
  transport_connect := fun _ => RUNNING;
  transport_resume := fun _ => RUNNING;
  transport_pause := fun _ => PAUSED
|}.

Definition makeInterest (name : Name) (canBePrefix : bool) (nonce : N) : Interest :=
  mkInterest name canBePrefix nonce None [] None None None.

Definition makeData (name : Name) : Data := mkData name [] None None.

Definition makeNack (interest : Interest) (reason : NackReason) : Nack :=
  mkNack interest (mkNackHeader reason) None.

(** A Data packet and an Interest whose encodings exceed the size limit. *)
Definition oversizedData : Data :=
  mkData ["big"%string] (repeat x00 (N.to_nat 8801)) None None.

Definition oversizedInterest : Interest :=
  mkInterest ["big"%string] true 1 None (repeat x00 (N.to_nat 8801)) None None None.

Definition rootFilter : InterestFilter := mkInterestFilter [] None true.

(** Two filters on "/"; the forwarder's Interest /A goes to both and the first
    answers with a Congestion Nack; the second filter is then unset and the
    forwarder sends /A again, which goes to the one filter left. *)
Definition twoForwarderEntries : Impl :=
  let interest1 := makeInterest ["A"%string] false 1 in
  let interest2 := makeInterest ["A"%string] false 2 in
  let s1 := snd (setInterestFilter 1 rootFilter (Some 11) newImpl) in
  let s2 := snd (setInterestFilter 2 rootFilter (Some 12) s1) in
  let s3 := snd (processIncomingInterest (codec := exampleCodec) interest1 s2) in
  let s4 := snd (putNack (codec := exampleCodec) (transport := exampleTransport)
                   (makeNack interest1 CONGESTION) s3) in
  let s5 := snd (unsetInterestFilter 2 s4) in
  snd (processIncomingInterest (codec := exampleCodec) interest2 s5).

(** The forwarder's Interest /A is pending, with no filter set. *)
Definition oneForwarderEntry : Impl :=
  snd (processIncomingInterest (codec := exampleCodec) (makeInterest ["A"%string] true 1)
         newImpl).

(** A loopback filter and a no-loopback filter on "/". *)
Definition twoFilters : Impl :=
  snd (setInterestFilter 2 (mkInterestFilter [] None false) (Some 12)
         (snd (setInterestFilter 1 rootFilter (Some 11) newImpl))).

(** The application's Interest /A is pending, looped back to the first of
    [twoFilters]. *)
Definition loopbackPending : Impl :=
  snd (expressInterest (codec := exampleCodec) (transport := exampleTransport) 1
         (makeInterest ["A"%string] true 1) (Some 21) None None twoFilters).

Definition interestA : Interest := makeInterest ["A"%string] true 1.
Definition dataAB : Data := makeData ["A"; "B"]%string.
Definition dataAC : Data := makeData ["A"; "C"]%string.

(** An announce command as the dummy face sees it. *)
Definition announceInterest : Interest :=
  mkInterest ["localhost"; "nfd"; "rib"; "announce"; "params"]%string true 1 None
    ["/"; "A"]%byte (Some 7) None None.

(** The state reached from [s] by a call that returns or throws. *)
Definition after {A : Type} (m : M A) (s : Impl) : Impl := snd (m s).

Definition outcome {A : Type} (m : M A) (s : Impl) : Outcome A := fst (m s).

(** The events a call adds to the trace of [s]. *)
Definition newEvents {A : Type} (m : M A) (s : Impl) : list Event :=
  skipn (List.length (trace s)) (trace (after m s)).

(** The frames handed to the transport, oldest first. *)
Definition framesOf (effects : list Effect) : list Block :=
  flat_map (fun eff => match eff with TransportSend wire => [wire] | _ => [] end) effects.

Definition sentFrames (events : list Event) : list Block := framesOf (map fst events).

Definition isUserCallback (eff : Effect) : bool :=
  match eff with
  | TransportConnect | TransportResume | TransportPause | TransportSend _ => false
  | _ => true
  end.

Definition matchesEntry `{Codec} (data : Data) (r : RecordId * PendingInterest) : bool :=
  matchesData (pi_interest (snd r)) data.

Definition hasAppMatch `{Codec} (data : Data) (rs : list (RecordId * PendingInterest)) : bool :=
  existsb (fun r => matchesEntry data r && isApp (pi_origin (snd r))) rs.

Definition hasForwarderMatch `{Codec} (data : Data) (rs : list (RecordId * PendingInterest))
  : bool :=
  existsb (fun r => matchesEntry data r && negb (isApp (pi_origin (snd r)))) rs.

(** ** What a call on the pending-interest table is expected to yield *)

Section Expected.
Context {codec : Codec}.

(** The data callbacks of the APP entries that [data] satisfies, in table
    order. *)
Definition dataCallbacks (data : Data) (rs : list (RecordId * PendingInterest))
  : list Effect :=
  map (fun r => InvokeDataCallback (snd r) data)
    (filter (fun r => matchesEntry data r && isApp (pi_origin (snd r))) rs).

Definition nackMatchesEntry (nack : Nack) (r : RecordId * PendingInterest) : bool :=
  matchesInterest (n_interest nack) (pi_interest (snd r)).

(** The Nack an entry gives out when [nack] completes its accumulator. *)
Definition completion (nack : Nack) (r : RecordId * PendingInterest) : option Nack :=
  if nackMatchesEntry nack r then fst (recordNack (snd r) nack) else None.

(** The accumulated Nacks of the FORWARDER entries that [nack] completes, in
    table order. *)
Definition forwarderNacks (nack : Nack) (rs : list (RecordId * PendingInterest))
  : list Nack :=
  flat_map (fun r => match completion nack r with
                     | Some n => if isApp (pi_origin (snd r)) then [] else [n]
                     | None => []
                     end) rs.

(** The nack callbacks of the APP entries that [nack] completes. *)
Definition nackCallbacks (nack : Nack) (rs : list (RecordId * PendingInterest))
  : list Effect :=
  flat_map (fun r => match completion nack r with
                     | Some n =>
                         if isApp (pi_origin (snd r))
                         then [InvokeNackCallback (snd (recordNack (snd r) nack)) n]
                         else []
                     | None => []
                     end) rs.

(** The table after [nack]: completed entries are gone, the other matching
    entries have recorded it. *)
Definition nackedRecords (nack : Nack) (rs : list (RecordId * PendingInterest))
  : list (RecordId * PendingInterest) :=
  flat_map (fun r => if nackMatchesEntry nack r
                     then match fst (recordNack (snd r) nack) with
                          | Some _ => []
                          | None => [(fst r, snd (recordNack (snd r) nack))]
                          end
                     else [r]) rs.

(** The frames that the send paths hand to the transport. *)
Definition interestFrame (interest : Interest) : Block :=
  finalWire (interestLpPacket interest) (interest_wireEncode interest).

Definition dataFrame (data : Data) : Block :=
  finalWire (dataLpPacket data) (data_wireEncode data).

Definition nackFrame (outNack : Nack) : Block :=
  finalWire (nackLpPacket outNack) (interest_wireEncode (n_interest outNack)).

(** The loopback calls of an Interest whose pending entry is [e]. *)
Definition loopbackCallbacks (e : PendingInterest) (interest : Interest)
    (filters : list (RecordId * InterestFilterRecord)) : list Effect :=
  map (fun r => InvokeInterestCallback (fst r) (snd r) interest)
    (filter (fun r => doesMatch (snd r) e) filters).
End Expected.

Definition isTransportControl (eff : Effect) : bool :=
  match eff with
  | TransportConnect | TransportResume => true
  | _ => false
  end.

(** [s'] is [s] with [events] added to the trace and, possibly, another
    transport state, pending-interest table and io_context queue. *)
Definition extends (s s' : Impl) (events : list Event) : Prop :=
  trace s' = trace s ++ events /\
  m_interestFilterTable s' = m_interestFilterTable s /\
  m_registeredPrefixTable s' = m_registeredPrefixTable s /\
  m_nfdController s' = m_nfdController s.

(** The number of destinations an entry has been forwarded to, as a callback
    finds it. *)
Definition forwardedIn (id : RecordId) (v : View) : option N :=
  option_map pi_nForwarded (records_get id (v_pendingInterests v)).

(** ** Further expected outcomes *)

(** The calls that [ensureConnected(true)] makes on a transport in state
    [state]. *)
Definition connectEffects (state : TransportState) : list Effect :=
  (if TransportState_eqb state CLOSED then [TransportConnect] else []) ++ [TransportResume].

(** An entry after [k] more calls of [recordForwarding]. *)
Definition addForwarded (k : N) (e : PendingInterest) : PendingInterest :=
  mkPendingInterest (pi_interest e) (pi_origin e) (pi_dataCallback e) (pi_nackCallback e)
    (pi_timeoutCallback e) (pi_timeoutArmed e) (pi_nForwarded e + k) (pi_nNacked e)
    (pi_leastSevereNack e).

(** In a list of calls, every frame handed to the transport comes after a
    resume, and after a connect when the transport was closed. *)
Definition resumedBeforeSend (state : TransportState) (effects : list Effect) : Prop :=
  forall (before : list Effect) (wire : Block) (rest : list Effect),
    effects = before ++ TransportSend wire :: rest ->
    In TransportResume before /\ (state = CLOSED -> In TransportConnect before).

(** The filters whose prefix and regex accept the name of [interest]. *)
Definition nameMatching `{Codec} (interest : Interest)
    (filters : list (RecordId * InterestFilterRecord))
  : list (RecordId * InterestFilterRecord) :=
  filter (fun r => filter_doesMatch_name (f_prefix (ifr_filter (snd r)))
                     (f_regex (ifr_filter (snd r))) (i_name interest))
    filters.

(** ** Broadcast links of [DummyClientFace]

    Faces and links are objects reached through pointers: [w_bcastLink] is the
    member [m_bcastLink] of each face ([None] is [nullptr]), [w_faces] the
    vector [BroadcastLink::faces] of each link, and [w_nextLink] the address
    that the next [make_shared<BroadcastLink>()] gives. *)

Definition FacePtr := N.
Definition LinkPtr := N.

Record LinkWorld := mkLinkWorld {
  w_bcastLink : FacePtr -> option LinkPtr;
  w_faces : LinkPtr -> list FacePtr;
  w_nextLink : LinkPtr
}.

Definition noLinks : LinkWorld := mkLinkWorld (fun _ => None) (fun _ => []) 0.

Definition setBcastLink (face : FacePtr) (link : option LinkPtr)
    (m : FacePtr -> option LinkPtr) : FacePtr -> option LinkPtr :=
  fun f => if f =? face then link else m f.

Definition setFaces (link : LinkPtr) (faces : list FacePtr)
    (m : LinkPtr -> list FacePtr) : LinkPtr -> list FacePtr :=
  fun l => if l =? link then faces else m l.

Inductive LinkOutcome :=
| LinkReturned (w : LinkWorld)
| AlreadyLinkedError
| AssertionFailure
| NullDereference.

Definition linkTo (this other : FacePtr) (w : LinkWorld) : LinkOutcome :=
  match w_bcastLink w this, w_bcastLink w other with
  | Some l1, Some l2 =>
      if negb (l1 =? l2) then AlreadyLinkedError else LinkReturned w
  | None, Some l2 =>
      LinkReturned
        (mkLinkWorld (setBcastLink this (Some l2) (w_bcastLink w))
           (setFaces l2 (w_faces w l2 ++ [this]) (w_faces w)) (w_nextLink w))
  | Some l1, None =>
      LinkReturned
        (mkLinkWorld (setBcastLink other (Some l1) (w_bcastLink w))
           (setFaces l1 (w_faces w l1 ++ [other]) (w_faces w)) (w_nextLink w))
  | None, None =>
      let l := w_nextLink w in
      LinkReturned
        (mkLinkWorld (setBcastLink this (Some l) (setBcastLink other (Some l) (w_bcastLink w)))
           (setFaces l [this; other] (w_faces w)) (w_nextLink w + 1))
  end.

(** [std::find] followed by [erase]; [None] when [find] returns [end()]. *)
Fixpoint eraseFirst (face : FacePtr) (faces : list FacePtr) : option (list FacePtr) :=
  match faces with
  | [] => None
  | f :: faces' =>
      if f =? face then Some faces'
      else option_map (cons f) (eraseFirst face faces')
  end.

Definition unlink (this : FacePtr) (w : LinkWorld) : LinkOutcome :=
  match w_bcastLink w this with
  | None => LinkReturned w
  | Some l =>
      match eraseFirst this (w_faces w l) with
      | None => AssertionFailure
      | Some [last] =>
          (* faces[0]->m_bcastLink = nullptr, then m_bcastLink->faces.clear():
             the second statement reads the member again, which the first has
             just reset when the face left in the vector is this one *)
          let bcastLink := setBcastLink last None (w_bcastLink w) in
          match bcastLink this with
          | None => NullDereference
          | Some l' =>
              LinkReturned
                (mkLinkWorld (setBcastLink this None bcastLink)
                   (setFaces l' [] (setFaces l [last] (w_faces w))) (w_nextLink w))
          end
      | Some faces =>
          LinkReturned
            (mkLinkWorld (setBcastLink this None (w_bcastLink w))
               (setFaces l faces (w_faces w)) (w_nextLink w))
      end
  end.

(** The faces whose [receive] the handlers of [enableBroadcastLink] call for a
    packet sent by [this]. *)
Definition broadcastReceivers (this : FacePtr) (w : LinkWorld) : list FacePtr :=
  match w_bcastLink w this with
  | None => []
  | Some l => filter (fun other => negb (other =? this)) (w_faces w l)
  end.

(** Every face is in the vector of the link it points to and in no other, no
    vector holds a face twice, and no vector holds a single face. *)
Definition linksWellFormed (w : LinkWorld) : Prop :=
  (forall f l, w_bcastLink w f = Some l -> In f (w_faces w l) /\ l < w_nextLink w) /\
  (forall l f, In f (w_faces w l) -> w_bcastLink w f = Some l) /\
  (forall l, NoDup (w_faces w l)) /\
  (forall l, List.length (w_faces w l) <> 1%nat).

(** ** Further states for the worked examples *)

Definition defaultOptions : CommandOptions :=
  mkCommandOptions 10000 ["localhost"; "nfd"]%string [].

(** The prefix /A is registered under id 1, with a filter on "/". *)
Definition oneRegisteredPrefix : Impl :=
  snd (runSuccessHandler
         (AfterRegistered 1 ["A"%string] defaultOptions (Some rootFilter) (Some 11) None)
         emptyControlParameters newImpl).

(** A register command as the dummy face sees it. *)
Definition registerInterest : Interest :=
  mkInterest ["localhost"; "nfd"; "rib"; "register"; "params"]%string true 1 None []
    None None None.

(** The faces 1 and 2 on one link. *)
Definition linkedPair : LinkWorld :=
  match linkTo 1 2 noLinks with
  | LinkReturned w => w
  | _ => noLinks
  end.

(** * Properties *)

Ltac unfold_monad :=
  unfold outcome, after, newEvents, bind, ret, gets, modify, when, throw, emit, post,
    onEmptyPitOrNoRegisteredPrefixes in *.

Lemma skipn_length_app : forall (A : Type) (l l' : list A),
  skipn (List.length l) (l ++ l') = l'.
Proof.
  intros A l l'. induction l as [| x l IH]; simpl; auto.
Qed.

Lemma newEvents_intro : forall (A : Type) (m : M A) (s : Impl) (events : list Event),
  trace (after m s) = trace s ++ events -> newEvents m s = events.
Proof.
  intros A m s events H. unfold newEvents. rewrite H. apply skipn_length_app.
Qed.

Lemma newEvents_same_trace : forall (A : Type) (m : M A) (s : Impl),
  trace (after m s) = trace s -> newEvents m s = [].
Proof.
  intros A m s H. apply newEvents_intro. rewrite app_nil_r. exact H.
Qed.

(** ** Shutdown *)

(** C10: shutdown clears the pending-interest table and the registered-prefix
    table and leaves the interest-filter table as it was, so every interest
    filter set before shutdown is still present afterwards. *)
Theorem shutdown_keeps_interest_filters :
  forall s : Impl,
    outcome shutdown s = Returned tt /\
    rc_records (m_pendingInterestTable (after shutdown s)) = [] /\
    rc_records (m_registeredPrefixTable (after shutdown s)) = [] /\
    m_interestFilterTable (after shutdown s) = m_interestFilterTable s.
Proof.
  intros [tr [pit pitId] filters [prefixes prefixesId] ctl guard timeoutEvent queue events].
  unfold shutdown, pendingInterestTable_clear, registeredPrefixTable_clear.
  unfold_monad. simpl.
  destruct pit; destruct prefixes; simpl; auto.
Qed.

(** ** Prefix registration *)

(** C6: for an id that is not in the registered-prefix table, unregisterPrefix
    returns without throwing, calls onFailure (when one is given) with the
    text "Unrecognized RegisteredPrefixHandle"%string and makes no other call, starts
    no command on the controller, and leaves the three tables unchanged. *)
Theorem unregisterPrefix_unrecognized_handle :
  forall (s : Impl) (id : RecordId) (onSuccess onFailure : option Callback),
    rc_get id (m_registeredPrefixTable s) = None ->
    outcome (unregisterPrefix id onSuccess onFailure) s = Returned tt /\
    newEvents (unregisterPrefix id onSuccess onFailure) s =
      match onFailure with
      | Some f => [(CallUnregisterFailure f "Unrecognized RegisteredPrefixHandle"%string, view s)]
      | None => []
      end /\
    m_nfdController (after (unregisterPrefix id onSuccess onFailure) s) = m_nfdController s /\
    m_pendingInterestTable (after (unregisterPrefix id onSuccess onFailure) s)
      = m_pendingInterestTable s /\
    m_interestFilterTable (after (unregisterPrefix id onSuccess onFailure) s)
      = m_interestFilterTable s /\
    m_registeredPrefixTable (after (unregisterPrefix id onSuccess onFailure) s)
      = m_registeredPrefixTable s.
Proof.
  intros s id onSuccess onFailure Habsent.
  assert (Hrun : unregisterPrefix id onSuccess onFailure s =
                 match onFailure with
                 | Some f =>
                     emit (CallUnregisterFailure f "Unrecognized RegisteredPrefixHandle"%string) s
                 | None => (Returned tt, s)
                 end).
  { unfold unregisterPrefix, bind, gets. rewrite Habsent. destruct onFailure; reflexivity. }
  destruct onFailure as [f |].
  - repeat split; try (unfold outcome, after; rewrite Hrun; reflexivity).
    apply newEvents_intro. unfold after. rewrite Hrun. reflexivity.
  - repeat split; try (unfold outcome, after; rewrite Hrun; reflexivity).
    apply newEvents_same_trace. unfold after. rewrite Hrun. reflexivity.
Qed.

Lemma unregisterPrefix_unrecognized_handle_witness :
  outcome (unregisterPrefix 7 (Some 1) (Some 2)) newImpl = Returned tt /\
  newEvents (unregisterPrefix 7 (Some 1) (Some 2)) newImpl =
    [(CallUnregisterFailure 2 "Unrecognized RegisteredPrefixHandle"%string, view newImpl)].
Proof.
  destruct (unregisterPrefix_unrecognized_handle newImpl 7 (Some 1) (Some 2))
    as [Hout [Hev _]].
  - reflexivity.
  - split; [exact Hout | exact Hev].
Defined.

Lemma records_get_put : forall (T : Type) (id : RecordId) (r : T) (rs : list (RecordId * T)),
  records_get id (records_erase id rs ++ [(id, r)]) = Some r.
Proof.
  intros T id r rs. unfold records_get.
  induction rs as [| [k v] rs IH]; simpl.
  - unfold hasId. simpl. rewrite N.eqb_refl. reflexivity.
  - assert (Hkv : hasId id (k, v) = (k =? id)) by reflexivity.
    rewrite Hkv. destruct (k =? id) eqn:Hk; simpl.
    + exact IH.
    + rewrite Hkv. exact IH.
Qed.

Lemma rc_get_put : forall (T : Type) (id : RecordId) (r : T) (c : RecordContainer T),
  rc_get id (rc_put id r c) = Some r.
Proof.
  intros T id r c. unfold rc_get, rc_put. simpl. apply records_get_put.
Qed.

(** C7: registerPrefix allocates the record id and returns it at once, with
    the RibRegister command started and not yet answered, and inserts nothing:
    the id is the successor of the last id of the registered-prefix table,
    the table's counter is advanced to it, and the next registration gets
    the id after it.  When the command fails, no table changes; onFailure is
    called without a test, with the prefix and the text of the response, so an
    empty onFailure makes the failure handler throw bad_function_call and no
    callback runs.  When the command succeeds, the RegisteredPrefix record
    with that id, the prefix, the options and the id of the filter record
    (inserted when a filter was given, 0 otherwise) is in the table, and
    onSuccess, when given, is called with the prefix and finds the record
    there. *)
Theorem registerPrefix_allocates_then_completes :
  forall (s : Impl) (prefix : Name) (onSuccess onFailure : option Callback) (flags : N)
         (options : CommandOptions) (filter : option InterestFilter)
         (onInterest : option Callback),
    let call := registerPrefix prefix onSuccess onFailure flags options filter onInterest in
    let id := rc_lastId (m_registeredPrefixTable s) + 1 in
    let cmd := mkStartedCommand RibRegisterCommand
                 (WithParameters (setFlags flags (setName prefix emptyControlParameters)))
                 (AfterRegistered id prefix options filter onInterest onSuccess)
                 (RegisterFailed prefix onFailure) options in
    (outcome call s = Returned id /\
     m_nfdController (after call s) = m_nfdController s ++ [cmd] /\
     view (after call s) = view s /\
     newEvents call s = []) /\
    (rc_lastId (m_registeredPrefixTable s) < id /\
     rc_lastId (m_registeredPrefixTable (after call s)) = id /\
     forall (prefix' : Name) (onSuccess' onFailure' : option Callback) (flags' : N)
            (options' : CommandOptions) (filter' : option InterestFilter)
            (onInterest' : option Callback),
       outcome (registerPrefix prefix' onSuccess' onFailure' flags' options' filter'
                  onInterest') (after call s) = Returned (id + 1)) /\
    (forall (s2 : Impl) (resp : ControlResponse),
       let fail := runFailureHandler (cmd_onFailure cmd) resp in
       view (after fail s2) = view s2 /\
       match onFailure with
       | Some f =>
           outcome fail s2 = Returned tt /\
           newEvents fail s2 = [(CallRegisterFailure f prefix (resp_text resp), view s2)]
       | None => outcome fail s2 = Thrown BadFunctionCall /\ newEvents fail s2 = []
       end) /\
    (forall (s2 : Impl) (response : ControlParameters),
       let succeed := runSuccessHandler (cmd_onSuccess cmd) response in
       let filterId := match filter with
                       | Some _ => rc_lastId (m_interestFilterTable s2) + 1
                       | None => 0
                       end in
       let record := mkRegisteredPrefix prefix options filterId in
       outcome succeed s2 = Returned tt /\
       rc_get id (m_registeredPrefixTable (after succeed s2)) = Some record /\
       match filter with
       | Some f =>
           rc_get filterId (m_interestFilterTable (after succeed s2))
             = Some (mkInterestFilterRecord f onInterest)
       | None => m_interestFilterTable (after succeed s2) = m_interestFilterTable s2
       end /\
       newEvents succeed s2 =
         match onSuccess with
         | Some f => [(CallRegisterSuccess f prefix, view (after succeed s2))]
         | None => []
         end /\
       records_get id (v_registeredPrefixes (view (after succeed s2))) = Some record).
Proof.
  intros s prefix onSuccess onFailure flags options filter onInterest call id cmd.
  split; [| split; [| split]].
  - subst call. unfold registerPrefix, registeredPrefixTable_allocateId, controllerStart.
    unfold_monad. simpl. repeat split. apply skipn_all.
  - subst call id.
    unfold registerPrefix, registeredPrefixTable_allocateId, controllerStart.
    unfold_monad. simpl.
    split; [lia |]. split; reflexivity.
  - intros s2 resp fail. subst fail. simpl.
    destruct onFailure as [f |]; unfold_monad; simpl.
    + repeat split. rewrite skipn_length_app. reflexivity.
    + repeat split. rewrite skipn_all. reflexivity.
  - intros s2 response succeed filterId record. subst succeed. simpl.
    assert (Hrec : forall t : RecordContainer RegisteredPrefix,
               records_get id (rc_records (rc_put id record t)) = Some record)
      by (intros t; apply rc_get_put).
    destruct filter as [f |]; destruct onSuccess as [g |]; unfold_monad; simpl;
      repeat split;
      try apply rc_get_put; try apply Hrec;
      try (rewrite skipn_length_app; reflexivity);
      try (rewrite skipn_all; reflexivity);
      try (unfold rc_get; simpl; apply records_get_put).
Qed.

(** ** Registration reply of the dummy face *)

(** C9: on the announce path the reply's ControlParameters carry the
    announced name, the placeholder face id 555 (whatever the faceId argument
    and the Interest's IncomingFaceId tag are), origin PREFIXANN, cost 2048,
    the CHILD_INHERIT flag and the announcement's expiration period. *)
Theorem announce_reply_has_placeholder_faceId :
  forall (codec : Codec) (faceId : N) (interest : Interest)
         (prefixAnnouncement : PrefixAnnouncement),
    (4 < List.length (i_name interest))%nat ->
    isPrefixOf localhostRibPrefix (i_name interest) = true ->
    component_at (i_name interest) 3 = announceVerb ->
    decodePrefixAnnouncement (i_applicationParameters interest) = Some prefixAnnouncement ->
    enableRegistrationReply faceId interest =
      Reply (mkRegistrationReply (i_name interest)
               (mkControlResponse 200 EmptyString
                  (Some (mkControlParameters
                           (Some (pa_announcedName prefixAnnouncement))
                           (Some 555)
                           (Some ROUTE_ORIGIN_PREFIXANN)
                           (Some 2048)
                           (Some ROUTE_FLAG_CHILD_INHERIT)
                           (Some (pa_expiration prefixAnnouncement)))))).
Proof.
  intros codec faceId interest pa Hsize Hprefix Hverb Hdecode.
  unfold enableRegistrationReply.
  apply Nat.leb_gt in Hsize. rewrite Hsize, Hprefix, Hverb. simpl.
  rewrite Hdecode. reflexivity.
Qed.

Lemma announce_reply_has_placeholder_faceId_witness :
  enableRegistrationReply (codec := exampleCodec) 1 announceInterest =
    Reply (mkRegistrationReply (i_name announceInterest)
             (mkControlResponse 200 EmptyString
                (Some (mkControlParameters (Some ["/A"%string]) (Some 555)
                         (Some ROUTE_ORIGIN_PREFIXANN) (Some 2048)
                         (Some ROUTE_FLAG_CHILD_INHERIT) (Some 1000))))).
Proof.
  apply (announce_reply_has_placeholder_faceId exampleCodec 1 announceInterest
           (mkPrefixAnnouncement ["/A"%string] 1000 None)).
  - simpl. lia.
  - reflexivity.
  - reflexivity.
  - reflexivity.
Defined.

(** ** Send paths *)

Lemma bind_returned : forall (A B : Type) (m : M A) (k : A -> M B) (s s' : Impl) (a : A),
  m s = (Returned a, s') -> bind m k s = k a s'.
Proof.
  intros A B m k s s' a H. unfold bind. rewrite H. reflexivity.
Qed.

Lemma framesOf_app : forall l l' : list Effect, framesOf (l ++ l') = framesOf l ++ framesOf l'.
Proof.
  intros l l'. unfold framesOf. apply flat_map_app.
Qed.

Section SendPaths.
Context {codec : Codec} {transport : Transport}.

(** *** removeIf with the visitor of satisfyPendingInterests *)

Lemma removeIf_satisfy :
  forall (mkV : list (RecordId * PendingInterest) -> View) (data : Data)
         (rest visited : list (RecordId * PendingInterest)) (flags : bool * bool),
    let r := removeIf_go mkV (satisfyVisit data) visited rest flags in
    fst (fst r) = visited ++ filter (fun x => negb (matchesEntry data x)) rest /\
    snd (fst r) = (fst flags || hasAppMatch data rest,
                   snd flags || hasForwarderMatch data rest) /\
    map fst (snd r) = dataCallbacks data rest.
Proof.
  intros mkV data rest.
  induction rest as [| [id e] rest IH]; intros visited flags r; subst r.
  - simpl. rewrite app_nil_r, !orb_false_r. destruct flags; auto.
  - cbn [removeIf_go].
    destruct (satisfyVisit data e flags) as [[[wantErase e'] flags'] calls] eqn:Hv.
    unfold satisfyVisit in Hv.
    unfold dataCallbacks, hasAppMatch, hasForwarderMatch. cbn [filter existsb snd].
    change (matchesEntry data (id, e)) with (matchesData (pi_interest e) data).
    destruct (matchesData (pi_interest e) data) eqn:Hm;
      [destruct (isApp (pi_origin e)) eqn:Ho |];
      simpl in Hv; inversion Hv; subst; clear Hv;
      match goal with
      | |- context [removeIf_go ?v ?f ?vis ?rst ?fl] =>
          specialize (IH vis fl); destruct (removeIf_go v f vis rst fl) as [[final a] later]
      end;
      simpl in *; destruct IH as [H1 [H2 H3]]; subst; repeat split;
      try reflexivity;
      try (rewrite orb_true_r; reflexivity);
      try (rewrite <- app_assoc; reflexivity);
      try exact H3;
      try (unfold dataCallbacks in H3; rewrite H3; reflexivity).
Qed.

(** *** The steps of the send paths *)

Lemma extends_refl : forall s : Impl, extends s s [].
Proof.
  intros s. unfold extends. rewrite app_nil_r. auto.
Qed.

Lemma extends_trans : forall (s1 s2 s3 : Impl) (e1 e2 : list Event),
  extends s1 s2 e1 -> extends s2 s3 e2 -> extends s1 s3 (e1 ++ e2).
Proof.
  unfold extends. intros s1 s2 s3 e1 e2 [Ht1 [Hf1 [Hp1 Hc1]]] [Ht2 [Hf2 [Hp2 Hc2]]].
  rewrite Ht2, Ht1, Hf2, Hf1, Hp2, Hp1, Hc2, Hc1, app_assoc. auto.
Qed.

Lemma extends_newEvents : forall (A : Type) (m : M A) (s : Impl) (events : list Event),
  extends s (after m s) events -> newEvents m s = events.
Proof.
  intros A m s events [Ht _]. apply newEvents_intro. exact Ht.
Qed.

Lemma removeIf_run :
  forall (A : Type)
         (visit : PendingInterest -> A -> bool * PendingInterest * A * list Effect)
         (a : A) (s : Impl),
    let r := removeIf_go
               (fun rs => mkView rs (rc_records (m_interestFilterTable s))
                            (rc_records (m_registeredPrefixTable s)))
               visit [] (rc_records (m_pendingInterestTable s)) a in
    exists s' : Impl,
      pendingInterestTable_removeIf visit a s = (Returned (snd (fst r)), s') /\
      extends s s' (snd r) /\
      m_pendingInterestTable s'
        = mkRecordContainer (fst (fst r)) (rc_lastId (m_pendingInterestTable s)).
Proof.
  intros A visit a s r. subst r. unfold pendingInterestTable_removeIf.
  destruct (removeIf_go _ visit [] (rc_records (m_pendingInterestTable s)) a)
    as [[final a'] events].
  unfold_monad. unfold extends.
  destruct (firesOnEmpty (rc_records (m_pendingInterestTable s)) final);
    eexists; simpl; repeat split.
Qed.

Lemma ensureConnected_run : forall s : Impl,
  exists (s' : Impl) (events : list Event),
    ensureConnected true s = (Returned tt, s') /\
    extends s s' events /\
    forallb isTransportControl (map fst events) = true /\
    m_pendingInterestTable s' = m_pendingInterestTable s.
Proof.
  intros s. unfold ensureConnected. unfold_monad. unfold extends.
  destruct (TransportState_eqb (m_transport s) CLOSED); simpl.
  - exists (set_transport (transport_resume (transport_connect (m_transport s)))
              (set_trace (trace s ++ [(TransportConnect, view s); (TransportResume, view s)])
                 s)).
    exists [(TransportConnect, view s); (TransportResume, view s)].
    simpl. rewrite <- app_assoc. repeat split.
  - exists (set_transport (transport_resume (m_transport s))
              (set_trace (trace s ++ [(TransportResume, view s)]) s)).
    exists [(TransportResume, view s)].
    simpl. repeat split.
Qed.

Lemma transportSend_run : forall (wire : Block) (s : Impl),
  exists s' : Impl,
    transportSend wire s = (Returned tt, s') /\
    extends s s' [(TransportSend wire, view s)] /\
    m_pendingInterestTable s' = m_pendingInterestTable s.
Proof.
  intros wire s. unfold transportSend. unfold_monad. unfold extends.
  eexists. simpl. repeat split.
Qed.

Lemma finishEncoding_run :
  forall (lpPacket : LpPacket) (wire : Block) (pktType : ascii) (name : Name) (s : Impl),
    finishEncoding lpPacket wire pktType name s =
      (if (block_size (finalWire lpPacket wire) >? MAX_NDN_PACKET_SIZE)%Z
       then Thrown (OversizedPacketError pktType name (block_size (finalWire lpPacket wire)))
       else Returned (finalWire lpPacket wire), s).
Proof.
  intros lpPacket wire pktType name s. unfold finishEncoding.
  destruct (block_size (finalWire lpPacket wire) >? MAX_NDN_PACKET_SIZE)%Z; reflexivity.
Qed.

Lemma transportControl_no_frames : forall effects : list Effect,
  forallb isTransportControl effects = true -> framesOf effects = [].
Proof.
  induction effects as [| eff effects IH]; simpl; intros H; auto.
  apply andb_true_iff in H. destruct H as [Heff Hrest].
  destruct eff; simpl in *; try discriminate; auto.
Qed.

Lemma transportControl_no_callback : forall effects : list Effect,
  forallb isTransportControl effects = true -> existsb isUserCallback effects = false.
Proof.
  induction effects as [| eff effects IH]; simpl; intros H; auto.
  apply andb_true_iff in H. destruct H as [Heff Hrest].
  destruct eff; simpl in *; try discriminate; auto.
Qed.

(** *** putData *)

Lemma satisfyPendingInterests_run : forall (data : Data) (s : Impl),
  let recs := rc_records (m_pendingInterestTable s) in
  exists (s' : Impl) (events : list Event),
    satisfyPendingInterests data s
      = (Returned (hasForwarderMatch data recs || negb (hasAppMatch data recs)), s') /\
    extends s s' events /\
    map fst events = dataCallbacks data recs /\
    m_pendingInterestTable s'
      = mkRecordContainer (filter (fun r => negb (matchesEntry data r)) recs)
          (rc_lastId (m_pendingInterestTable s)).
Proof.
  intros data s recs. unfold satisfyPendingInterests.
  destruct (removeIf_run _ (satisfyVisit data) (false, false) s) as [s' [Hrun [Hext Hpit]]].
  match type of Hext with
  | extends _ _ (snd (removeIf_go ?mkV _ _ _ _)) =>
      destruct (removeIf_satisfy mkV data recs [] (false, false)) as [H1 [H2 H3]]
  end.
  fold recs in Hrun, Hext, Hpit.
  rewrite (bind_returned _ _ _ _ _ _ _ Hrun), H2. simpl.
  eexists. eexists. split; [reflexivity |]. split; [exact Hext |]. split; [exact H3 |].
  rewrite Hpit, H1. reflexivity.
Qed.

Lemma putData_run : forall (data : Data) (s : Impl),
  let recs := rc_records (m_pendingInterestTable s) in
  let should := hasForwarderMatch data recs || negb (hasAppMatch data recs) in
  let wire := finalWire (dataLpPacket data) (data_wireEncode data) in
  let oversized := (block_size wire >? MAX_NDN_PACKET_SIZE)%Z in
  exists (s' : Impl) (events : list Event) (connects : list Effect),
    putData data s
      = (if should && oversized
         then Thrown (OversizedPacketError "D" (d_name data) (block_size wire))
         else Returned tt, s') /\
    extends s s' events /\
    map fst events
      = dataCallbacks data recs ++ connects
        ++ (if should && negb oversized then [TransportSend wire] else []) /\
    forallb isTransportControl connects = true /\
    m_pendingInterestTable s'
      = mkRecordContainer (filter (fun r => negb (matchesEntry data r)) recs)
          (rc_lastId (m_pendingInterestTable s)).
Proof.
  intros data s recs should wire oversized.
  destruct (satisfyPendingInterests_run data s) as [s1 [ev1 [Hrun1 [Hext1 [Hcb Hpit1]]]]].
  fold recs in Hrun1, Hcb, Hpit1. fold should in Hrun1.
  unfold putData. rewrite (bind_returned _ _ _ _ _ _ _ Hrun1).
  destruct should; simpl.
  - destruct (ensureConnected_run s1) as [s2 [ev2 [Hrun2 [Hext2 [Hctl Hpit2]]]]].
    rewrite (bind_returned _ _ _ _ _ _ _ Hrun2).
    unfold bind at 1. rewrite finishEncoding_run. fold wire. fold oversized.
    destruct oversized; simpl.
    + exists s2, (ev1 ++ ev2), (map fst ev2). split; [reflexivity |].
      split; [eapply extends_trans; eassumption |].
      rewrite map_app, Hcb, app_nil_r, Hpit2. auto.
    + destruct (transportSend_run wire s2) as [s3 [Hrun3 [Hext3 Hpit3]]].
      rewrite Hrun3.
      exists s3, (ev1 ++ ev2 ++ [(TransportSend wire, view s2)]), (map fst ev2).
      split; [reflexivity |].
      split; [eapply extends_trans; [eassumption | eapply extends_trans; eassumption] |].
      rewrite !map_app, Hcb, Hpit3, Hpit2. auto.
  - exists s1, ev1, []. rewrite Hcb, !app_nil_r. auto.
Qed.

Lemma negb_gtb_leb : forall a b : Z, negb (a >? b)%Z = (a <=? b)%Z.
Proof.
  intros a b. rewrite Z.gtb_ltb, Z.leb_antisym. reflexivity.
Qed.

Lemma no_match_no_origin_match : forall (data : Data) (rs : list (RecordId * PendingInterest)),
  existsb (matchesEntry data) rs = false ->
  hasAppMatch data rs = false /\ hasForwarderMatch data rs = false.
Proof.
  intros data rs. unfold hasAppMatch, hasForwarderMatch.
  induction rs as [| r rs IH]; simpl; intros H; auto.
  apply orb_false_iff in H. destruct H as [Hr Hrs]. rewrite Hr. simpl. auto.
Qed.

Lemma no_match_filter_all : forall (data : Data) (rs : list (RecordId * PendingInterest)),
  existsb (matchesEntry data) rs = false ->
  filter (fun r => negb (matchesEntry data r)) rs = rs.
Proof.
  intros data rs. induction rs as [| r rs IH]; simpl; intros H; auto.
  apply orb_false_iff in H. destruct H as [Hr Hrs]. rewrite Hr. simpl.
  rewrite IH; auto.
Qed.

Lemma no_match_no_dataCallbacks : forall (data : Data) (rs : list (RecordId * PendingInterest)),
  existsb (matchesEntry data) rs = false -> dataCallbacks data rs = [].
Proof.
  intros data rs. unfold dataCallbacks. induction rs as [| r rs IH]; simpl; intros H; auto.
  apply orb_false_iff in H. destruct H as [Hr Hrs]. rewrite Hr. simpl. auto.
Qed.

Lemma no_match_after_filter : forall (data : Data) (rs : list (RecordId * PendingInterest)),
  existsb (matchesEntry data) (filter (fun r => negb (matchesEntry data r)) rs) = false.
Proof.
  intros data rs. induction rs as [| r rs IH]; simpl; auto.
  destruct (matchesEntry data r) eqn:Hr; simpl; auto. rewrite Hr. simpl. exact IH.
Qed.

Lemma dataCallbacks_no_frames : forall (data : Data) (rs : list (RecordId * PendingInterest)),
  framesOf (dataCallbacks data rs) = [].
Proof.
  intros data rs. unfold dataCallbacks.
  induction (filter (fun r => matchesEntry data r && isApp (pi_origin (snd r))) rs);
    simpl; auto.
Qed.

Lemma putData_sentFrames : forall (data : Data) (s : Impl),
  let recs := rc_records (m_pendingInterestTable s) in
  let wire := finalWire (dataLpPacket data) (data_wireEncode data) in
  sentFrames (newEvents (putData data) s) =
    if (hasForwarderMatch data recs || negb (hasAppMatch data recs))
       && (block_size wire <=? MAX_NDN_PACKET_SIZE)%Z
    then [wire] else [].
Proof.
  intros data s recs wire.
  destruct (putData_run data s) as [s' [events [connects [Hrun [Hext [Hev [Hctl Hpit]]]]]]].
  assert (Hafter : after (putData data) s = s') by (unfold after; rewrite Hrun; reflexivity).
  rewrite <- Hafter in Hext. rewrite (extends_newEvents _ _ _ _ Hext).
  unfold sentFrames. rewrite Hev, !framesOf_app, dataCallbacks_no_frames.
  rewrite (transportControl_no_frames _ Hctl), negb_gtb_leb. simpl.
  fold recs. fold wire.
  destruct ((hasForwarderMatch data recs || negb (hasAppMatch data recs))
            && (block_size wire <=? MAX_NDN_PACKET_SIZE)%Z); reflexivity.
Qed.

(** C1 (amended): satisfyPendingInterests removes every entry whose Interest
    matches the Data, calls the data callback of each matching APP entry, and
    returns hasForwarderMatch OR NOT hasAppMatch; putData hands one frame to
    the transport exactly when that value is true and the final encoding is
    within MAX_NDN_PACKET_SIZE.  So a Data matching an APP entry and no
    FORWARDER entry yields no frame, and a Data matching no entry is sent when
    its encoding fits. *)
Theorem putData_sends_when_forwarder_or_unsolicited_and_fits :
  forall (data : Data) (s : Impl),
    let recs := rc_records (m_pendingInterestTable s) in
    let wire := finalWire (dataLpPacket data) (data_wireEncode data) in
    let value := hasForwarderMatch data recs || negb (hasAppMatch data recs) in
    (outcome (satisfyPendingInterests data) s = Returned value /\
     rc_records (m_pendingInterestTable (after (satisfyPendingInterests data) s))
       = filter (fun r => negb (matchesEntry data r)) recs /\
     map fst (newEvents (satisfyPendingInterests data) s) = dataCallbacks data recs) /\
    sentFrames (newEvents (putData data) s)
      = (if value && (block_size wire <=? MAX_NDN_PACKET_SIZE)%Z then [wire] else []) /\
    (hasAppMatch data recs = true -> hasForwarderMatch data recs = false ->
     sentFrames (newEvents (putData data) s) = []) /\
    (existsb (matchesEntry data) recs = false ->
     (block_size wire <= MAX_NDN_PACKET_SIZE)%Z ->
     sentFrames (newEvents (putData data) s) = [wire]).
Proof.
  intros data s recs wire value.
  pose proof (putData_sentFrames data s) as Hsent. fold recs wire value in Hsent.
  split; [| split; [exact Hsent | split]].
  - destruct (satisfyPendingInterests_run data s) as [s1 [ev1 [Hrun [Hext [Hcb Hpit]]]]].
    assert (Hafter : after (satisfyPendingInterests data) s = s1)
      by (unfold after; rewrite Hrun; reflexivity).
    unfold outcome. rewrite Hafter, Hrun, Hpit.
    rewrite <- Hafter in Hext. rewrite (extends_newEvents _ _ _ _ Hext).
    auto.
  - intros Happ Hfwd. rewrite Hsent. unfold value. rewrite Happ, Hfwd. reflexivity.
  - intros Hnone Hfits. rewrite Hsent. unfold value.
    destruct (no_match_no_origin_match data recs Hnone) as [Happ Hfwd].
    rewrite Happ, Hfwd. simpl.
    apply Z.leb_le in Hfits. rewrite Hfits. reflexivity.
Qed.

(** C4 (amended): after putData has satisfied pending Interests with a Data,
    no entry matching that Data is left; a later putData of a Data that
    matches no entry (the same Data, for one) changes no entry and calls no
    callback, and it is not dropped: it is sent as unsolicited Data when its
    encoding fits, and throws OversizedPacketError otherwise. *)
Theorem putData_again_is_unsolicited :
  forall (data data2 : Data) (s : Impl),
    let s1 := after (putData data) s in
    let recs1 := rc_records (m_pendingInterestTable s1) in
    let wire2 := finalWire (dataLpPacket data2) (data_wireEncode data2) in
    existsb (matchesEntry data) recs1 = false /\
    (existsb (matchesEntry data2) recs1 = false ->
     rc_records (m_pendingInterestTable (after (putData data2) s1)) = recs1 /\
     existsb isUserCallback (map fst (newEvents (putData data2) s1)) = false /\
     sentFrames (newEvents (putData data2) s1)
       = (if (block_size wire2 <=? MAX_NDN_PACKET_SIZE)%Z then [wire2] else []) /\
     outcome (putData data2) s1
       = (if (block_size wire2 <=? MAX_NDN_PACKET_SIZE)%Z then Returned tt
          else Thrown (OversizedPacketError "D" (d_name data2) (block_size wire2)))).
Proof.
  intros data data2 s s1 recs1 wire2. split.
  - destruct (putData_run data s) as [s' [events [connects [Hrun [_ [_ [_ Hpit]]]]]]].
    assert (Hafter : s1 = s') by (unfold s1, after; rewrite Hrun; reflexivity).
    unfold recs1. rewrite Hafter, Hpit. simpl. apply no_match_after_filter.
  - intros Hnone.
    destruct (putData_run data2 s1)
      as [s2 [events [connects [Hrun [Hext [Hev [Hctl Hpit]]]]]]].
    fold recs1 in Hev, Hpit, Hrun. fold wire2 in Hev, Hrun.
    destruct (no_match_no_origin_match data2 recs1 Hnone) as [Happ Hfwd].
    rewrite Happ, Hfwd in Hev, Hrun. simpl in Hev, Hrun.
    rewrite (no_match_no_dataCallbacks _ _ Hnone) in Hev. simpl in Hev.
    rewrite (no_match_filter_all _ _ Hnone) in Hpit.
    assert (Hafter : after (putData data2) s1 = s2)
      by (unfold after; rewrite Hrun; reflexivity).
    pose proof (putData_sentFrames data2 s1) as Hsent. cbv zeta in Hsent.
    fold recs1 wire2 in Hsent. rewrite Happ, Hfwd in Hsent. simpl in Hsent.
    rewrite <- Hafter in Hext. rewrite (extends_newEvents _ _ _ _ Hext).
    rewrite Hafter, Hpit, Hev. unfold outcome. rewrite Hrun. simpl.
    rewrite <- negb_gtb_leb.
    repeat split.
    + rewrite existsb_app, (transportControl_no_callback _ Hctl).
      destruct (block_size wire2 >? MAX_NDN_PACKET_SIZE)%Z; reflexivity.
    + rewrite <- negb_gtb_leb, (extends_newEvents _ _ _ _ Hext) in Hsent. exact Hsent.
    + destruct (block_size wire2 >? MAX_NDN_PACKET_SIZE)%Z; reflexivity.
Qed.

(** *** putNack *)

Lemma last_nonempty_default : forall (A : Type) (l : list A) (x d d' : A),
  last (x :: l) d = last (x :: l) d'.
Proof.
  intros A l. induction l as [| y l IH]; intros x d d'; auto.
  change (last (y :: l) d = last (y :: l) d'). apply IH.
Qed.

Lemma last_cons_default : forall (A : Type) (l : list A) (x d : A),
  last (x :: l) d = last l x.
Proof.
  intros A l x d. destruct l as [| y l]; auto.
  change (last (y :: l) d = last (y :: l) x). apply last_nonempty_default.
Qed.

Lemma removeIf_nack :
  forall (mkV : list (RecordId * PendingInterest) -> View) (nack : Nack)
         (rest visited : list (RecordId * PendingInterest)) (outNack : option Nack),
    let r := removeIf_go mkV (nackVisit nack) visited rest outNack in
    fst (fst r) = visited ++ nackedRecords nack rest /\
    snd (fst r) = last (map Some (forwarderNacks nack rest)) outNack /\
    map fst (snd r) = nackCallbacks nack rest.
Proof.
  intros mkV nack rest.
  induction rest as [| [id e] rest IH]; intros visited outNack r; subst r.
  - simpl. rewrite app_nil_r. auto.
  - cbn [removeIf_go].
    destruct (nackVisit nack e outNack) as [[[wantErase e'] out'] calls] eqn:Hv.
    unfold nackVisit in Hv.
    unfold nackedRecords, forwarderNacks, nackCallbacks, completion.
    cbn [flat_map fst snd].
    change (nackMatchesEntry nack (id, e))
      with (matchesInterest (n_interest nack) (pi_interest e)).
    destruct (matchesInterest (n_interest nack) (pi_interest e)) eqn:Hm.
    + unfold recordNack in Hv |- *. cbn [fst snd] in Hv |- *.
      destruct (pi_nNacked e + 1 <? pi_nForwarded e) eqn:Hn;
        [| cbn [pi_origin] in Hv; destruct (isApp (pi_origin e)) eqn:Ho];
        simpl in Hv; inversion Hv; subst; clear Hv;
        match goal with
        | |- context [removeIf_go ?v ?f ?vis ?rst ?o] =>
            specialize (IH vis o); destruct (removeIf_go v f vis rst o) as [[final a] later]
        end;
        cbn [fst snd map app] in *; destruct IH as [H1 [H2 H3]]; subst;
        repeat split;
        try reflexivity;
        try (rewrite <- app_assoc; reflexivity);
        try exact H3;
        try (rewrite last_cons_default; reflexivity);
        try (unfold nackCallbacks, completion, recordNack in H3; rewrite H3; reflexivity).
    + simpl in Hv. inversion Hv; subst; clear Hv.
      specialize (IH (visited ++ [(id, e')]) out').
      destruct (removeIf_go mkV (nackVisit nack) (visited ++ [(id, e')]) rest out')
        as [[final a] later].
      cbn [fst snd map app] in *. destruct IH as [H1 [H2 H3]]. subst.
      repeat split; auto. rewrite <- app_assoc. reflexivity.
Qed.

Lemma nackPendingInterests_run : forall (nack : Nack) (s : Impl),
  let recs := rc_records (m_pendingInterestTable s) in
  exists (s' : Impl) (events : list Event),
    nackPendingInterests nack s
      = (Returned (last (map Some (forwarderNacks nack recs)) None), s') /\
    extends s s' events /\
    map fst events = nackCallbacks nack recs /\
    m_pendingInterestTable s'
      = mkRecordContainer (nackedRecords nack recs) (rc_lastId (m_pendingInterestTable s)).
Proof.
  intros nack s recs. unfold nackPendingInterests.
  destruct (removeIf_run _ (nackVisit nack) None s) as [s' [Hrun [Hext Hpit]]].
  match type of Hext with
  | extends _ _ (snd (removeIf_go ?mkV _ _ _ _)) =>
      destruct (removeIf_nack mkV nack recs [] None) as [H1 [H2 H3]]
  end.
  fold recs in Hrun, Hext, Hpit.
  rewrite Hrun, H2.
  eexists. eexists. split; [reflexivity |]. split; [exact Hext |]. split; [exact H3 |].
  rewrite Hpit, H1. reflexivity.
Qed.

Lemma putNack_run : forall (nack : Nack) (s : Impl),
  let recs := rc_records (m_pendingInterestTable s) in
  let out := last (map Some (forwarderNacks nack recs)) None in
  exists (s' : Impl) (events : list Event) (connects : list Effect),
    putNack nack s
      = (match out with
         | Some n =>
             if (block_size (nackFrame n) >? MAX_NDN_PACKET_SIZE)%Z
             then Thrown (OversizedPacketError "N" (i_name (n_interest n))
                            (block_size (nackFrame n)))
             else Returned tt
         | None => Returned tt
         end, s') /\
    extends s s' events /\
    map fst events
      = nackCallbacks nack recs ++ connects
        ++ match out with
           | Some n =>
               if (block_size (nackFrame n) >? MAX_NDN_PACKET_SIZE)%Z then []
               else [TransportSend (nackFrame n)]
           | None => []
           end /\
    forallb isTransportControl connects = true /\
    m_pendingInterestTable s'
      = mkRecordContainer (nackedRecords nack recs) (rc_lastId (m_pendingInterestTable s)) /\
    (out = None -> connects = []).
Proof.
  intros nack s recs out.
  destruct (nackPendingInterests_run nack s) as [s1 [ev1 [Hrun1 [Hext1 [Hcb Hpit1]]]]].
  fold recs in Hrun1, Hcb, Hpit1. fold out in Hrun1.
  unfold putNack. rewrite (bind_returned _ _ _ _ _ _ _ Hrun1).
  destruct out as [n |].
  - destruct (ensureConnected_run s1) as [s2 [ev2 [Hrun2 [Hext2 [Hctl Hpit2]]]]].
    rewrite (bind_returned _ _ _ _ _ _ _ Hrun2).
    unfold bind at 1. rewrite finishEncoding_run. fold (nackFrame n).
    destruct (block_size (nackFrame n) >? MAX_NDN_PACKET_SIZE)%Z.
    + exists s2, (ev1 ++ ev2), (map fst ev2). split; [reflexivity |].
      split; [eapply extends_trans; eassumption |].
      rewrite map_app, Hcb, app_nil_r, Hpit2. repeat split; auto. discriminate.
    + destruct (transportSend_run (nackFrame n) s2) as [s3 [Hrun3 [Hext3 Hpit3]]].
      rewrite Hrun3.
      exists s3, (ev1 ++ ev2 ++ [(TransportSend (nackFrame n), view s2)]), (map fst ev2).
      split; [reflexivity |].
      split; [eapply extends_trans; [eassumption | eapply extends_trans; eassumption] |].
      rewrite !map_app, Hcb, Hpit3, Hpit2. repeat split; auto. discriminate.
  - exists s1, ev1, []. rewrite Hcb, !app_nil_r.
    split; [reflexivity |]. split; [exact Hext1 |]. repeat split; auto.
Qed.

Lemma nackCallbacks_no_frames : forall (nack : Nack) (rs : list (RecordId * PendingInterest)),
  framesOf (nackCallbacks nack rs) = [].
Proof.
  intros nack rs. unfold nackCallbacks.
  induction rs as [| r rs IH]; [reflexivity |].
  cbn [flat_map]. rewrite framesOf_app, IH, app_nil_r.
  destruct (completion nack r); auto. destruct (isApp (pi_origin (snd r))); auto.
Qed.

Lemma no_nack_match : forall (nack : Nack) (rs : list (RecordId * PendingInterest)),
  existsb (nackMatchesEntry nack) rs = false ->
  forwarderNacks nack rs = [] /\ nackCallbacks nack rs = [] /\ nackedRecords nack rs = rs.
Proof.
  intros nack rs. unfold forwarderNacks, nackCallbacks, nackedRecords, completion.
  induction rs as [| r rs IH]; cbn [flat_map existsb]; intros H; auto.
  apply orb_false_iff in H. destruct H as [Hr Hrs].
  destruct (IH Hrs) as [H1 [H2 H3]]. rewrite H1, H2, H3, Hr. auto.
Qed.

Lemma forwarderNacks_accumulated :
  forall (nack : Nack) (rs : list (RecordId * PendingInterest)),
    Forall (fun n => exists r, In r rs /\ pi_origin (snd r) = FORWARDER /\
                               nackMatchesEntry nack r = true /\
                               n = lessSevereOf nack (pi_leastSevereNack (snd r)))
           (forwarderNacks nack rs).
Proof.
  intros nack rs. unfold forwarderNacks.
  induction rs as [| r rs IH]; simpl; [constructor |].
  apply Forall_app. split.
  - unfold completion, recordNack. destruct (nackMatchesEntry nack r) eqn:Hm; [| constructor].
    cbn [fst].
    destruct (pi_nNacked (snd r) + 1 <? pi_nForwarded (snd r)); [constructor |].
    destruct (pi_origin (snd r)) eqn:Ho; simpl; constructor; [| constructor].
    exists r. auto.
  - eapply Forall_impl; [| exact IH].
    intros n [r' [Hin Hrest]]. exists r'. split; [right; exact Hin | exact Hrest].
Qed.

Lemma putNack_sentFrames : forall (nack : Nack) (s : Impl),
  let recs := rc_records (m_pendingInterestTable s) in
  sentFrames (newEvents (putNack nack) s) =
    match last (map Some (forwarderNacks nack recs)) None with
    | Some n =>
        if (block_size (nackFrame n) <=? MAX_NDN_PACKET_SIZE)%Z then [nackFrame n] else []
    | None => []
    end.
Proof.
  intros nack s recs.
  destruct (putNack_run nack s)
    as [s' [events [connects [Hrun [Hext [Hev [Hctl [Hpit _]]]]]]]].
  assert (Hafter : after (putNack nack) s = s') by (unfold after; rewrite Hrun; reflexivity).
  rewrite <- Hafter in Hext. rewrite (extends_newEvents _ _ _ _ Hext).
  unfold sentFrames. rewrite Hev, !framesOf_app, nackCallbacks_no_frames.
  rewrite (transportControl_no_frames _ Hctl). fold recs. simpl.
  destruct (last (map Some (forwarderNacks nack recs)) None) as [n |]; auto.
  rewrite <- negb_gtb_leb.
  destruct (block_size (nackFrame n) >? MAX_NDN_PACKET_SIZE)%Z; reflexivity.
Qed.

(** C3 (amended): nackPendingInterests yields the accumulated Nack of the
    last FORWARDER entry, in table order, that the Nack completes - the less
    severe of the Nack and that entry's own least-severe Nack, whatever the
    other completed entries hold - and putNack hands at most one frame to the
    transport, for that Nack; a Nack whose Interest matches no pending entry
    yields no Nack, no call and no change of the table. *)
Theorem putNack_sends_nack_of_last_completed_forwarder_entry :
  forall (nack : Nack) (s : Impl),
    let recs := rc_records (m_pendingInterestTable s) in
    let outNack := last (map Some (forwarderNacks nack recs)) None in
    outcome (nackPendingInterests nack) s = Returned outNack /\
    Forall (fun n => exists r, In r recs /\ pi_origin (snd r) = FORWARDER /\
                               nackMatchesEntry nack r = true /\
                               n = lessSevereOf nack (pi_leastSevereNack (snd r)))
           (forwarderNacks nack recs) /\
    sentFrames (newEvents (putNack nack) s)
      = match outNack with
        | Some n =>
            if (block_size (nackFrame n) <=? MAX_NDN_PACKET_SIZE)%Z then [nackFrame n]
            else []
        | None => []
        end /\
    (List.length (sentFrames (newEvents (putNack nack) s)) <= 1)%nat /\
    (existsb (nackMatchesEntry nack) recs = false ->
     outNack = None /\
     newEvents (putNack nack) s = [] /\
     m_pendingInterestTable (after (putNack nack) s) = m_pendingInterestTable s).
Proof.
  intros nack s recs outNack.
  pose proof (putNack_sentFrames nack s) as Hsent. cbv zeta in Hsent.
  fold recs in Hsent. fold outNack in Hsent.
  split; [| split; [| split; [| split]]].
  - destruct (nackPendingInterests_run nack s) as [s1 [ev1 [Hrun _]]].
    unfold outcome. rewrite Hrun. reflexivity.
  - apply forwarderNacks_accumulated.
  - exact Hsent.
  - rewrite Hsent. destruct outNack as [n |]; simpl; [| lia].
    destruct (block_size (nackFrame n) <=? MAX_NDN_PACKET_SIZE)%Z; simpl; lia.
  - intros Hnone. destruct (no_nack_match nack recs Hnone) as [Hfwd [Hcb Hrecs]].
    assert (Hout : outNack = None) by (unfold outNack; rewrite Hfwd; reflexivity).
    destruct (putNack_run nack s)
      as [s' [events [connects [Hrun [Hext [Hev [_ [Hpit Hquiet]]]]]]]].
    fold recs in Hrun, Hev, Hpit, Hquiet. fold outNack in Hrun, Hev, Hquiet.
    rewrite (Hquiet Hout) in Hev.
    assert (Hafter : after (putNack nack) s = s')
      by (unfold after; rewrite Hrun; reflexivity).
    rewrite Hout in Hev. rewrite Hcb in Hev. rewrite Hrecs in Hpit.
    split; [exact Hout | split].
    + rewrite <- Hafter in Hext. rewrite (extends_newEvents _ _ _ _ Hext).
      destruct events as [| ev events]; auto. discriminate Hev.
    + rewrite Hafter, Hpit. unfold recs. destruct (m_pendingInterestTable s). reflexivity.
Qed.

(** *** expressInterest *)

Lemma rc_get_update :
  forall (T : Type) (id : RecordId) (f : T -> T) (c : RecordContainer T),
    rc_get id (rc_update id f c) = option_map f (rc_get id c).
Proof.
  intros T id f [rs lastId]. unfold rc_get, rc_update, records_get. simpl.
  induction rs as [| r rs IH]; simpl; auto.
  destruct (hasId id r) eqn:Hr; simpl.
  - unfold hasId in *. simpl. rewrite Hr. reflexivity.
  - rewrite Hr. exact IH.
Qed.

Lemma forEach_dispatch :
  forall (entry : RecordId) (interest : Interest)
         (filters : list (RecordId * InterestFilterRecord)) (s : Impl) (e : PendingInterest),
    rc_get entry (m_pendingInterestTable s) = Some e ->
    exists (s' : Impl) (events : list Event),
      forEach filters (dispatchVisit entry interest) s = (Returned tt, s') /\
      extends s s' events /\
      map fst events = loopbackCallbacks e interest filters /\
      (forall (j : nat) (ev : Event),
         nth_error events j = Some ev ->
         forwardedIn entry (snd ev) = Some (pi_nForwarded e + N.of_nat (S j))).
Proof.
  intros entry interest filters.
  induction filters as [| [fid f] filters IH]; intros s e Hget.
  - exists s, []. split; [reflexivity |]. split; [apply extends_refl |].
    split; [reflexivity |]. intros [| j] ev H; discriminate H.
  - cbn [forEach]. unfold dispatchVisit at 1. unfold bind at 1. unfold bind at 1.
    unfold gets at 1. rewrite Hget.
    unfold loopbackCallbacks. cbn [filter snd fst].
    destruct (doesMatch f e) eqn:Hmatch; cbn [negb].
    + unfold_monad.
      set (sp := set_pendingInterestTable
                   (rc_update entry recordForwarding (m_pendingInterestTable s)) s).
      set (s1 := set_trace (trace sp ++ [(InvokeInterestCallback fid f interest, view sp)])
                   sp).
      assert (Hget1 : rc_get entry (m_pendingInterestTable s1) = Some (recordForwarding e)).
      { unfold s1, sp. simpl. rewrite rc_get_update, Hget. reflexivity. }
      destruct (IH s1 (recordForwarding e) Hget1) as [s' [events [Hrun [Hext [Hev Hfwd]]]]].
      exists s', ((InvokeInterestCallback fid f interest, view sp) :: events).
      split; [exact Hrun |]. split; [| split].
      * change ((InvokeInterestCallback fid f interest, view sp) :: events)
          with ([(InvokeInterestCallback fid f interest, view sp)] ++ events).
        eapply extends_trans; [| exact Hext].
        unfold extends, s1, sp. simpl. auto.
      * cbn [map fst]. rewrite Hev. reflexivity.
      * intros [| j] ev H.
        -- inversion H; subst. unfold forwardedIn, sp. cbn [snd view v_pendingInterests].
           change (records_get entry
                     (rc_records (m_pendingInterestTable
                        (set_pendingInterestTable
                           (rc_update entry recordForwarding (m_pendingInterestTable s)) s))))
             with (rc_get entry (rc_update entry recordForwarding (m_pendingInterestTable s))).
           rewrite rc_get_update, Hget. simpl. f_equal; lia.
        -- rewrite (Hfwd j ev H). simpl pi_nForwarded. f_equal; lia.
    + destruct (IH s e Hget) as [s' [events [Hrun [Hext [Hev Hfwd]]]]].
      exists s', events. unfold ret. auto.
Qed.

Lemma expressInterest_run :
  forall (id : RecordId) (interest : Interest)
         (afterSatisfied afterNacked afterTimeout : option Callback) (s : Impl),
    let entry := newAppPendingInterest interest afterSatisfied afterNacked afterTimeout in
    let frame := interestFrame interest in
    let oversized := (block_size frame >? MAX_NDN_PACKET_SIZE)%Z in
    exists (s' : Impl) (connects : list Event),
      expressInterest id interest afterSatisfied afterNacked afterTimeout s
        = (if oversized
           then Thrown (OversizedPacketError "I" (i_name interest) (block_size frame))
           else Returned tt, s') /\
      forallb isTransportControl (map fst connects) = true /\
      if oversized
      then extends s s' connects /\
           m_pendingInterestTable s'
             = rc_update id recordForwarding (rc_put id entry (m_pendingInterestTable s))
      else exists (sendView : View) (loopback : list Event),
             extends s s' (connects ++ (TransportSend frame, sendView) :: loopback) /\
             map fst loopback
               = loopbackCallbacks (recordForwarding entry) interest
                   (rc_records (m_interestFilterTable s)) /\
             (forall (j : nat) (ev : Event),
                nth_error loopback j = Some ev ->
                forwardedIn id (snd ev) = Some (1 + N.of_nat (S j))).
Proof.
  intros id interest afterSatisfied afterNacked afterTimeout s entry frame oversized.
  destruct (ensureConnected_run s) as [s1 [ev1 [Hrun1 [Hext1 [Hctl Hpit1]]]]].
  unfold expressInterest. rewrite (bind_returned _ _ _ _ _ _ _ Hrun1).
  fold entry.
  set (s3 := set_pendingInterestTable
               (rc_update id recordForwarding
                  (rc_put id entry (m_pendingInterestTable s1))) s1).
  assert (Hext3 : extends s s3 ev1).
  { unfold s3, extends in *. simpl. exact Hext1. }
  assert (Hget3 : rc_get id (m_pendingInterestTable s3) = Some (recordForwarding entry)).
  { unfold s3. simpl. rewrite rc_get_update, rc_get_put. reflexivity. }
  unfold bind at 1. unfold modify at 1. unfold bind at 1. unfold modify at 1.
  unfold bind at 1.
  match goal with
  | |- context [finishEncoding _ _ _ _ ?st] => change st with s3
  end.
  rewrite finishEncoding_run.
  fold (interestFrame interest). fold frame. fold oversized.
  exists (if oversized then s3
          else snd (dispatchInterest id interest (snd (transportSend frame s3)))), ev1.
  destruct oversized.
  - split; [reflexivity |]. split; [exact Hctl |]. split; [exact Hext3 |].
    unfold s3. simpl. rewrite Hpit1. reflexivity.
  - destruct (transportSend_run frame s3) as [s4 [Hrun4 [Hext4 Hpit4]]].
    rewrite (bind_returned _ _ _ _ _ _ _ Hrun4), Hrun4. cbn [snd].
    assert (Hget4 : rc_get id (m_pendingInterestTable s4) = Some (recordForwarding entry))
      by (rewrite Hpit4; exact Hget3).
    unfold dispatchInterest, bind, gets.
    destruct (forEach_dispatch id interest (rc_records (m_interestFilterTable s4)) s4
                (recordForwarding entry) Hget4)
      as [s5 [ev5 [Hrun5 [Hext5 [Hev5 Hfwd5]]]]].
    rewrite Hrun5. cbn [snd].
    split; [reflexivity |]. split; [exact Hctl |].
    exists (view s3), ev5. split; [| split].
    + eapply extends_trans; [exact Hext3 |].
      change ((TransportSend frame, view s3) :: ev5)
        with ([(TransportSend frame, view s3)] ++ ev5).
      eapply extends_trans; eassumption.
    + rewrite Hev5.
      destruct Hext4 as [_ [Hf4 _]]. destruct Hext3 as [_ [Hf3 _]].
      rewrite Hf4, Hf3. reflexivity.
    + intros j ev Hnth. rewrite (Hfwd5 j ev Hnth). reflexivity.
Qed.

Lemma callback_follows_quiet_prefix :
  forall (pre : list Event) (x : Event) (post before rest : list Event) (ev : Event),
    existsb isUserCallback (map fst pre) = false ->
    isUserCallback (fst x) = false ->
    isUserCallback (fst ev) = true ->
    before ++ ev :: rest = pre ++ x :: post ->
    In x before.
Proof.
  induction pre as [| p pre IH]; intros x post before rest ev Hpre Hx Hev Heq.
  - destruct before as [| b before]; simpl in Heq; inversion Heq; subst.
    + rewrite Hx in Hev. discriminate.
    + left. reflexivity.
  - simpl in Hpre. apply orb_false_iff in Hpre. destruct Hpre as [Hp Hpre].
    destruct before as [| b before]; simpl in Heq; inversion Heq; subst.
    + rewrite Hp in Hev. discriminate.
    + right. eapply IH; eauto.
Qed.

Lemma no_callback_in_quiet_list :
  forall (l before rest : list Event) (ev : Event),
    existsb isUserCallback (map fst l) = false ->
    isUserCallback (fst ev) = true ->
    before ++ ev :: rest = l -> False.
Proof.
  intros l before rest ev Hl Hev Heq. subst l.
  rewrite map_app, existsb_app in Hl. simpl in Hl. rewrite Hev in Hl.
  rewrite orb_true_r in Hl. discriminate.
Qed.

(** C5: in every call of expressInterest, each call to a user callback is
    preceded by the hand-over of the encoded Interest to the transport; when
    the encoding is oversized nothing is sent and no callback is called. *)
Theorem expressInterest_sends_before_loopback :
  forall (id : RecordId) (interest : Interest)
         (afterSatisfied afterNacked afterTimeout : option Callback) (s : Impl)
         (before rest : list Event) (ev : Event),
    newEvents (expressInterest id interest afterSatisfied afterNacked afterTimeout) s
      = before ++ ev :: rest ->
    isUserCallback (fst ev) = true ->
    In (TransportSend (interestFrame interest)) (map fst before).
Proof.
  intros id interest afterSatisfied afterNacked afterTimeout s before rest ev Hsplit Hcb.
  destruct (expressInterest_run id interest afterSatisfied afterNacked afterTimeout s)
    as [s' [connects [Hrun [Hctl Hcases]]]].
  assert (Hafter : after (expressInterest id interest afterSatisfied afterNacked
                            afterTimeout) s = s')
    by (unfold after; rewrite Hrun; reflexivity).
  apply transportControl_no_callback in Hctl.
  destruct (block_size (interestFrame interest) >? MAX_NDN_PACKET_SIZE)%Z.
  - destruct Hcases as [Hext _]. rewrite <- Hafter in Hext.
    rewrite (extends_newEvents _ _ _ _ Hext) in Hsplit.
    exfalso. eapply no_callback_in_quiet_list; eauto.
  - destruct Hcases as [sendView [loopback [Hext _]]]. rewrite <- Hafter in Hext.
    rewrite (extends_newEvents _ _ _ _ Hext) in Hsplit.
    apply (in_map fst before (TransportSend (interestFrame interest), sendView)).
    eapply callback_follows_quiet_prefix; eauto.
Qed.

Lemma loopbackCallbacks_of_app_entry :
  forall (interest : Interest) (afterSatisfied afterNacked afterTimeout : option Callback)
         (filters : list (RecordId * InterestFilterRecord)),
    loopbackCallbacks
      (recordForwarding (newAppPendingInterest interest afterSatisfied afterNacked
                           afterTimeout))
      interest filters
    = map (fun r => InvokeInterestCallback (fst r) (snd r) interest)
        (filter (fun r => f_allowLoopback (ifr_filter (snd r))
                          && filter_doesMatch_name (f_prefix (ifr_filter (snd r)))
                               (f_regex (ifr_filter (snd r))) (i_name interest))
           filters).
Proof.
  intros. unfold loopbackCallbacks. f_equal.
Qed.

Lemma loopbackCallbacks_are_callbacks :
  forall (e : PendingInterest) (interest : Interest)
         (filters : list (RecordId * InterestFilterRecord)),
    forallb isUserCallback (loopbackCallbacks e interest filters) = true.
Proof.
  intros e interest filters. unfold loopbackCallbacks.
  induction (filter (fun r => doesMatch (snd r) e) filters); simpl; auto.
Qed.

Lemma filter_callbacks_all : forall l : list Event,
  forallb isUserCallback (map fst l) = true ->
  filter (fun ev => isUserCallback (fst ev)) l = l.
Proof.
  induction l as [| ev l IH]; simpl; intros H; auto.
  apply andb_true_iff in H. destruct H as [Hev Hl]. rewrite Hev, IH; auto.
Qed.

Lemma filter_callbacks_none : forall l : list Event,
  existsb isUserCallback (map fst l) = false ->
  filter (fun ev => isUserCallback (fst ev)) l = [].
Proof.
  induction l as [| ev l IH]; simpl; intros H; auto.
  apply orb_false_iff in H. destruct H as [Hev Hl]. rewrite Hev, IH; auto.
Qed.

(** C8 (amended): in a call of expressInterest no filter record whose
    allowLoopback flag is false is invoked; when the Interest's final encoding
    is within MAX_NDN_PACKET_SIZE the user callbacks called are exactly one
    call per filter record that allows loopback and matches the name, in
    table order, and each call finds its destination already recorded on the
    pending entry: the transport and every filter matched so far, the one
    being called included.  (An oversized Interest throws before any
    dispatch.) *)
Theorem expressInterest_loopback_when_encoding_fits :
  forall (id : RecordId) (interest : Interest)
         (afterSatisfied afterNacked afterTimeout : option Callback) (s : Impl),
    let call := expressInterest id interest afterSatisfied afterNacked afterTimeout in
    let filters := rc_records (m_interestFilterTable s) in
    let invoked := filter (fun ev => isUserCallback (fst ev)) (newEvents call s) in
    (forall (fid : RecordId) (f : InterestFilterRecord) (i : Interest),
       f_allowLoopback (ifr_filter f) = false ->
       ~ In (InvokeInterestCallback fid f i) (map fst (newEvents call s))) /\
    ((block_size (interestFrame interest) <= MAX_NDN_PACKET_SIZE)%Z ->
     map fst invoked
       = map (fun r => InvokeInterestCallback (fst r) (snd r) interest)
           (filter (fun r => f_allowLoopback (ifr_filter (snd r))
                             && filter_doesMatch_name (f_prefix (ifr_filter (snd r)))
                                  (f_regex (ifr_filter (snd r))) (i_name interest))
              filters) /\
     (forall (j : nat) (ev : Event),
        nth_error invoked j = Some ev ->
        forwardedIn id (snd ev) = Some (1 + N.of_nat (S j)))).
Proof.
  intros id interest afterSatisfied afterNacked afterTimeout s call filters invoked.
  destruct (expressInterest_run id interest afterSatisfied afterNacked afterTimeout s)
    as [s' [connects [Hrun [Hctl Hcases]]]].
  assert (Hafter : after call s = s') by (unfold call, after; rewrite Hrun; reflexivity).
  pose proof (transportControl_no_callback _ Hctl) as Hquiet.
  split.
  - intros fid f i Hflag Hin.
    destruct (block_size (interestFrame interest) >? MAX_NDN_PACKET_SIZE)%Z.
    + destruct Hcases as [Hext _]. rewrite <- Hafter in Hext.
      rewrite (extends_newEvents _ _ _ _ Hext) in Hin.
      assert (Hex : existsb isUserCallback (map fst connects) = true)
        by (apply existsb_exists; exists (InvokeInterestCallback fid f i); auto).
      rewrite Hquiet in Hex. discriminate.
    + destruct Hcases as [sendView [loopback [Hext [Hev _]]]]. rewrite <- Hafter in Hext.
      rewrite (extends_newEvents _ _ _ _ Hext), map_app in Hin.
      apply in_app_or in Hin. destruct Hin as [Hin | [Hin | Hin]].
      * assert (Hex : existsb isUserCallback (map fst connects) = true)
          by (apply existsb_exists; exists (InvokeInterestCallback fid f i); auto).
        rewrite Hquiet in Hex. discriminate.
      * discriminate Hin.
      * rewrite Hev, loopbackCallbacks_of_app_entry in Hin.
        apply in_map_iff in Hin. destruct Hin as [[fid' f'] [Heq Hin]].
        inversion Heq; subst. apply filter_In in Hin. destruct Hin as [_ Hmatch].
        simpl in Hmatch. rewrite Hflag in Hmatch. discriminate.
  - intros Hfits. apply Z.leb_le in Hfits. rewrite <- negb_gtb_leb in Hfits.
    apply negb_true_iff in Hfits. rewrite Hfits in Hcases.
    destruct Hcases as [sendView [loopback [Hext [Hev Hfwd]]]]. rewrite <- Hafter in Hext.
    assert (Hinvoked : invoked = loopback).
    { unfold invoked. rewrite (extends_newEvents _ _ _ _ Hext), filter_app.
      rewrite (filter_callbacks_none _ Hquiet). simpl.
      apply filter_callbacks_all. rewrite Hev. apply loopbackCallbacks_are_callbacks. }
    rewrite Hinvoked. split.
    + rewrite Hev. apply loopbackCallbacks_of_app_entry.
    + exact Hfwd.
Qed.

(** C2 (amended): when the frame that expressInterest, putData or putNack
    encodes exceeds MAX_NDN_PACKET_SIZE, the call throws OversizedPacketError
    with the packet type, the name and the size, hands nothing to the
    transport and leaves the interest-filter and registered-prefix tables
    unchanged; the pending-interest table keeps what the call did before
    encoding: the entry put by expressInterest, and the removals and recorded
    Nacks of putData and putNack.  putData encodes only when
    satisfyPendingInterests returns true, putNack only the Nack that
    nackPendingInterests returns. *)
Theorem oversized_packet_throws_after_pending_table_update :
  (forall (id : RecordId) (interest : Interest)
          (afterSatisfied afterNacked afterTimeout : option Callback) (s : Impl),
     let call := expressInterest id interest afterSatisfied afterNacked afterTimeout in
     (block_size (interestFrame interest) > MAX_NDN_PACKET_SIZE)%Z ->
     outcome call s
       = Thrown (OversizedPacketError "I" (i_name interest)
                   (block_size (interestFrame interest))) /\
     sentFrames (newEvents call s) = [] /\
     m_interestFilterTable (after call s) = m_interestFilterTable s /\
     m_registeredPrefixTable (after call s) = m_registeredPrefixTable s /\
     m_pendingInterestTable (after call s)
       = rc_update id recordForwarding
           (rc_put id (newAppPendingInterest interest afterSatisfied afterNacked afterTimeout)
              (m_pendingInterestTable s))) /\
  (forall (data : Data) (s : Impl),
     let recs := rc_records (m_pendingInterestTable s) in
     (block_size (dataFrame data) > MAX_NDN_PACKET_SIZE)%Z ->
     hasForwarderMatch data recs || negb (hasAppMatch data recs) = true ->
     outcome (putData data) s
       = Thrown (OversizedPacketError "D" (d_name data) (block_size (dataFrame data))) /\
     sentFrames (newEvents (putData data) s) = [] /\
     m_interestFilterTable (after (putData data) s) = m_interestFilterTable s /\
     m_registeredPrefixTable (after (putData data) s) = m_registeredPrefixTable s /\
     rc_records (m_pendingInterestTable (after (putData data) s))
       = filter (fun r => negb (matchesEntry data r)) recs) /\
  (forall (nack outNack : Nack) (s : Impl),
     let recs := rc_records (m_pendingInterestTable s) in
     outcome (nackPendingInterests nack) s = Returned (Some outNack) ->
     (block_size (nackFrame outNack) > MAX_NDN_PACKET_SIZE)%Z ->
     outcome (putNack nack) s
       = Thrown (OversizedPacketError "N" (i_name (n_interest outNack))
                   (block_size (nackFrame outNack))) /\
     sentFrames (newEvents (putNack nack) s) = [] /\
     m_interestFilterTable (after (putNack nack) s) = m_interestFilterTable s /\
     m_registeredPrefixTable (after (putNack nack) s) = m_registeredPrefixTable s /\
     rc_records (m_pendingInterestTable (after (putNack nack) s))
       = nackedRecords nack recs).
Proof.
  split; [| split].
  - intros id interest afterSatisfied afterNacked afterTimeout s call Hbig.
    destruct (expressInterest_run id interest afterSatisfied afterNacked afterTimeout s)
      as [s' [connects [Hrun [Hctl Hcases]]]].
    apply Z.gt_lt, Z.gtb_lt in Hbig. rewrite Hbig in Hrun, Hcases.
    destruct Hcases as [Hext Hpit].
    assert (Hafter : after call s = s') by (unfold call, after; rewrite Hrun; reflexivity).
    unfold outcome. fold call in Hrun. rewrite Hafter, Hrun.
    pose proof Hext as [_ [Hf [Hp _]]].
    rewrite <- Hafter in Hext. rewrite (extends_newEvents _ _ _ _ Hext).
    repeat split; auto.
    unfold sentFrames. apply transportControl_no_frames. exact Hctl.
  - intros data s recs Hbig Hvalue.
    destruct (putData_run data s) as [s' [events [connects [Hrun [Hext [Hev [Hctl Hpit]]]]]]].
    fold recs in Hrun, Hev, Hpit. fold (dataFrame data) in Hrun, Hev.
    apply Z.gt_lt, Z.gtb_lt in Hbig. rewrite Hbig, Hvalue in Hrun, Hev. simpl in Hrun, Hev.
    assert (Hafter : after (putData data) s = s')
      by (unfold after; rewrite Hrun; reflexivity).
    unfold outcome. rewrite Hafter, Hrun, Hpit.
    pose proof Hext as [_ [Hf [Hp _]]].
    rewrite <- Hafter in Hext. rewrite (extends_newEvents _ _ _ _ Hext).
    repeat split; auto.
    unfold sentFrames. rewrite Hev, app_nil_r, framesOf_app, dataCallbacks_no_frames.
    apply transportControl_no_frames. exact Hctl.
  - intros nack outNack s recs Hout Hbig.
    destruct (nackPendingInterests_run nack s) as [s0 [ev0 [Hrun0 _]]].
    unfold outcome in Hout. rewrite Hrun0 in Hout. simpl in Hout. inversion Hout as [Hlast].
    destruct (putNack_run nack s)
      as [s' [events [connects [Hrun [Hext [Hev [Hctl [Hpit _]]]]]]]].
    fold recs in Hrun, Hev, Hpit, Hlast.
    apply Z.gt_lt, Z.gtb_lt in Hbig. rewrite Hlast, Hbig in Hrun, Hev.
    assert (Hafter : after (putNack nack) s = s')
      by (unfold after; rewrite Hrun; reflexivity).
    unfold outcome. rewrite Hafter, Hrun, Hpit.
    pose proof Hext as [_ [Hf [Hp _]]].
    rewrite <- Hafter in Hext. rewrite (extends_newEvents _ _ _ _ Hext).
    repeat split; auto.
    unfold sentFrames. rewrite Hev, app_nil_r, framesOf_app, nackCallbacks_no_frames.
    apply transportControl_no_frames. exact Hctl.
Qed.

End SendPaths.

(** ** Record containers: put, erase, update *)

Lemma records_erase_fresh : forall (T : Type) (id : RecordId) (rs : list (RecordId * T)),
  records_get id rs = None -> records_erase id rs = rs.
Proof.
  intros T id rs. unfold records_get, records_erase.
  induction rs as [| r rs IH]; simpl; intros H; auto.
  destruct (hasId id r) eqn:Hr; simpl in *; [discriminate |].
  rewrite IH; auto.
Qed.

Lemma records_get_erase : forall (T : Type) (id : RecordId) (rs : list (RecordId * T)),
  records_get id (records_erase id rs) = None.
Proof.
  intros T id rs. unfold records_get, records_erase.
  induction rs as [| r rs IH]; simpl; auto.
  destruct (hasId id r) eqn:Hr; simpl; auto. rewrite Hr. exact IH.
Qed.

Lemma records_erase_put :
  forall (T : Type) (id : RecordId) (r : T) (rs : list (RecordId * T)),
    records_erase id (records_erase id rs ++ [(id, r)]) = records_erase id rs.
Proof.
  intros T id r rs. unfold records_erase at 1. rewrite filter_app. simpl.
  unfold hasId at 2. simpl. rewrite N.eqb_refl. simpl. rewrite app_nil_r.
  fold (records_erase id (records_erase id rs)).
  apply records_erase_fresh, records_get_erase.
Qed.

Lemma records_get_erase_other :
  forall (T : Type) (id id' : RecordId) (rs : list (RecordId * T)),
    id' <> id -> records_get id' (records_erase id rs) = records_get id' rs.
Proof.
  intros T id id' rs Hne. unfold records_get, records_erase.
  induction rs as [| [k v] rs IH]; simpl; auto.
  assert (H1 : hasId id (k, v) = (k =? id)) by reflexivity.
  assert (H2 : hasId id' (k, v) = (k =? id')) by reflexivity.
  rewrite H1. destruct (k =? id) eqn:Hk; simpl; rewrite H2.
  - apply N.eqb_eq in Hk. subst k.
    destruct (id =? id') eqn:Hid; [apply N.eqb_eq in Hid; congruence | exact IH].
  - destruct (k =? id'); auto.
Qed.

Lemma records_update_fresh :
  forall (T : Type) (id : RecordId) (f : T -> T) (rs : list (RecordId * T)),
    records_get id rs = None ->
    map (fun r => if hasId id r then (fst r, f (snd r)) else r) rs = rs.
Proof.
  intros T id f rs. unfold records_get.
  induction rs as [| r rs IH]; simpl; intros H; auto.
  destruct (hasId id r) eqn:Hr; simpl in *; [discriminate |].
  rewrite IH; auto.
Qed.

Lemma rc_update_put :
  forall (T : Type) (id : RecordId) (f : T -> T) (r : T) (c : RecordContainer T),
    rc_update id f (rc_put id r c) = rc_put id (f r) c.
Proof.
  intros T id f r c. unfold rc_update, rc_put. simpl. f_equal.
  rewrite map_app. simpl. unfold hasId at 2. simpl. rewrite N.eqb_refl.
  rewrite records_update_fresh; [reflexivity | apply records_get_erase].
Qed.

Lemma rc_put_put :
  forall (T : Type) (id : RecordId) (r r' : T) (c : RecordContainer T),
    rc_put id r' (rc_put id r c) = rc_put id r' c.
Proof.
  intros T id r r' c. unfold rc_put. simpl. rewrite records_erase_put. reflexivity.
Qed.

Lemma rc_update_update :
  forall (T : Type) (id : RecordId) (f g : T -> T) (c : RecordContainer T),
    rc_update id g (rc_update id f c) = rc_update id (fun x => g (f x)) c.
Proof.
  intros T id f g c. unfold rc_update. simpl. f_equal. rewrite map_map.
  apply map_ext. intros [k v]. unfold hasId. simpl.
  destruct (k =? id) eqn:Hk; simpl; rewrite Hk; reflexivity.
Qed.

Lemma rc_update_ext :
  forall (T : Type) (id : RecordId) (f g : T -> T) (c : RecordContainer T),
    (forall x, f x = g x) -> rc_update id f c = rc_update id g c.
Proof.
  intros T id f g c H. unfold rc_update. f_equal.
  apply map_ext. intros r. destruct (hasId id r); auto. rewrite H. reflexivity.
Qed.

Lemma rc_update_same :
  forall (T : Type) (id : RecordId) (f : T -> T) (c : RecordContainer T),
    (forall x, f x = x) -> rc_update id f c = c.
Proof.
  intros T id f [rs lastId] H. unfold rc_update. simpl. f_equal.
  rewrite <- (map_id rs) at 2. apply map_ext.
  intros [k v]. destruct (hasId id (k, v)); simpl; auto. rewrite H. reflexivity.
Qed.

Lemma addForwarded_zero : forall e : PendingInterest, addForwarded 0 e = e.
Proof.
  intros e. destruct e. unfold addForwarded. simpl. rewrite N.add_0_r. reflexivity.
Qed.

Lemma addForwarded_add : forall (a b : N) (e : PendingInterest),
  addForwarded b (addForwarded a e) = addForwarded (a + b) e.
Proof.
  intros a b e. unfold addForwarded. simpl. rewrite N.add_assoc. reflexivity.
Qed.

Section Composition.
Context {codec : Codec} {transport : Transport}.

(** *** Dispatch, with the table it leaves *)

Lemma forEach_dispatch_table :
  forall (entry : RecordId) (interest : Interest)
         (filters : list (RecordId * InterestFilterRecord)) (s : Impl) (e : PendingInterest),
    rc_get entry (m_pendingInterestTable s) = Some e ->
    let s' := snd (forEach filters (dispatchVisit entry interest) s) in
    m_pendingInterestTable s'
      = rc_update entry
          (addForwarded (N.of_nat (List.length (loopbackCallbacks e interest filters))))
          (m_pendingInterestTable s) /\
    m_transport s' = m_transport s /\
    m_ioContext s' = m_ioContext s /\
    m_workGuard s' = m_workGuard s /\
    m_processEventsTimeoutEvent s' = m_processEventsTimeoutEvent s.
Proof.
  intros entry interest filters.
  induction filters as [| [fid f] filters IH]; intros s e Hget s'; subst s'.
  - simpl. rewrite rc_update_same; auto. apply addForwarded_zero.
  - unfold loopbackCallbacks. cbn [filter snd fst].
    destruct (doesMatch f e) eqn:Hmatch.
    + pose (sp := set_pendingInterestTable
                    (rc_update entry recordForwarding (m_pendingInterestTable s)) s).
      pose (s1 := set_trace (trace sp ++ [(InvokeInterestCallback fid f interest, view sp)])
                    sp).
      assert (Hstep : forEach ((fid, f) :: filters) (dispatchVisit entry interest) s
                      = forEach filters (dispatchVisit entry interest) s1).
      { cbn [forEach]. unfold dispatchVisit at 1. unfold bind, gets.
        rewrite Hget, Hmatch. reflexivity. }
      assert (Hget1 : rc_get entry (m_pendingInterestTable s1) = Some (recordForwarding e)).
      { unfold s1, sp. simpl. rewrite rc_get_update, Hget. reflexivity. }
      destruct (IH s1 (recordForwarding e) Hget1) as [Hpit [Htr [Hio [Hwg Hto]]]].
      rewrite Hstep, Hpit, Htr, Hio, Hwg, Hto. unfold s1, sp. simpl.
      repeat split. rewrite rc_update_update. apply rc_update_ext. intros x.
      change (recordForwarding x) with (addForwarded 1 x).
      rewrite addForwarded_add. f_equal.
      unfold loopbackCallbacks.
      change (fun r : RecordId * InterestFilterRecord => doesMatch (snd r) (recordForwarding e))
        with (fun r : RecordId * InterestFilterRecord => doesMatch (snd r) e).
      lia.
    + assert (Hstep : forEach ((fid, f) :: filters) (dispatchVisit entry interest) s
                      = forEach filters (dispatchVisit entry interest) s).
      { cbn [forEach]. unfold dispatchVisit at 1. unfold bind, gets.
        rewrite Hget, Hmatch. reflexivity. }
      rewrite Hstep. apply (IH s e Hget).
Qed.

Lemma ensureConnected_effects : forall s : Impl,
  exists (s' : Impl) (events : list Event),
    ensureConnected true s = (Returned tt, s') /\
    extends s s' events /\
    map fst events = connectEffects (m_transport s) /\
    m_pendingInterestTable s' = m_pendingInterestTable s /\
    m_ioContext s' = m_ioContext s.
Proof.
  intros s. unfold ensureConnected, connectEffects. unfold_monad. unfold extends.
  destruct (TransportState_eqb (m_transport s) CLOSED); simpl.
  - exists (set_transport (transport_resume (transport_connect (m_transport s)))
              (set_trace (trace s ++ [(TransportConnect, view s); (TransportResume, view s)])
                 s)).
    exists [(TransportConnect, view s); (TransportResume, view s)].
    simpl. rewrite <- app_assoc. repeat split.
  - exists (set_transport (transport_resume (m_transport s))
              (set_trace (trace s ++ [(TransportResume, view s)]) s)).
    exists [(TransportResume, view s)].
    simpl. repeat split.
Qed.

Lemma dispatchInterest_full :
  forall (entry : RecordId) (interest : Interest) (s : Impl) (e : PendingInterest),
    rc_get entry (m_pendingInterestTable s) = Some e ->
    let calls := loopbackCallbacks e interest (rc_records (m_interestFilterTable s)) in
    exists (s' : Impl) (events : list Event),
      dispatchInterest entry interest s = (Returned tt, s') /\
      extends s s' events /\
      map fst events = calls /\
      (forall (j : nat) (ev : Event),
         nth_error events j = Some ev ->
         forwardedIn entry (snd ev) = Some (pi_nForwarded e + N.of_nat (S j))) /\
      m_pendingInterestTable s'
        = rc_update entry (addForwarded (N.of_nat (List.length calls)))
            (m_pendingInterestTable s) /\
      m_transport s' = m_transport s /\
      m_ioContext s' = m_ioContext s.
Proof.
  intros entry interest s e Hget calls. subst calls.
  destruct (forEach_dispatch entry interest (rc_records (m_interestFilterTable s)) s e Hget)
    as [s' [events [Hrun [Hext [Hev Hfwd]]]]].
  destruct (forEach_dispatch_table entry interest (rc_records (m_interestFilterTable s))
              s e Hget) as [Hpit [Htr [Hio _]]].
  rewrite Hrun in Hpit, Htr, Hio. cbn [snd] in Hpit, Htr, Hio.
  exists s', events. unfold dispatchInterest, bind, gets. rewrite Hrun.
  repeat split; auto; apply Hext.
Qed.

Lemma records_get_put_other :
  forall (T : Type) (id id' : RecordId) (r : T) (rs : list (RecordId * T)),
    id' <> id -> records_get id' (records_erase id rs ++ [(id, r)]) = records_get id' rs.
Proof.
  intros T id id' r rs Hne.
  rewrite <- (records_get_erase_other T id id' rs Hne).
  unfold records_get. induction (records_erase id rs) as [| [k v] l IH]; simpl.
  - assert (H : hasId id' (id, r) = (id =? id')) by reflexivity. rewrite H.
    destruct (id =? id') eqn:Hid; [apply N.eqb_eq in Hid; congruence | reflexivity].
  - destruct (hasId id' (k, v)); auto.
Qed.

Lemma loopbackCallbacks_of_forwarder_entry :
  forall (k : N) (interest : Interest) (filters : list (RecordId * InterestFilterRecord)),
    loopbackCallbacks (addForwarded k (newForwarderPendingInterest interest)) interest filters
    = map (fun r => InvokeInterestCallback (fst r) (snd r) interest)
        (nameMatching interest filters).
Proof.
  intros. unfold loopbackCallbacks, nameMatching. f_equal.
Qed.

Lemma processIncomingInterest_full :
  forall (interest : Interest) (s : Impl),
    let id := rc_lastId (m_pendingInterestTable s) + 1 in
    let calls := map (fun r => InvokeInterestCallback (fst r) (snd r) interest)
                   (nameMatching interest (rc_records (m_interestFilterTable s))) in
    exists (s' : Impl) (events : list Event),
      processIncomingInterest interest s = (Returned tt, s') /\
      extends s s' events /\
      map fst events = calls /\
      (forall (j : nat) (ev : Event),
         nth_error events j = Some ev -> forwardedIn id (snd ev) = Some (N.of_nat (S j))) /\
      m_pendingInterestTable s'
        = rc_put id (addForwarded (N.of_nat (List.length calls))
                       (newForwarderPendingInterest interest))
            (mkRecordContainer (rc_records (m_pendingInterestTable s)) id) /\
      m_transport s' = m_transport s /\
      m_ioContext s' = m_ioContext s.
Proof.
  intros interest s id calls.
  set (e0 := newForwarderPendingInterest interest).
  set (s1 := set_pendingInterestTable
               (rc_put id e0 (mkRecordContainer (rc_records (m_pendingInterestTable s)) id))
               s).
  assert (Hstep : processIncomingInterest interest s = dispatchInterest id interest s1)
    by reflexivity.
  assert (Hget : rc_get id (m_pendingInterestTable s1) = Some e0)
    by (unfold s1; simpl; apply rc_get_put).
  destruct (dispatchInterest_full id interest s1 e0 Hget)
    as [s' [events [Hrun [Hext [Hev [Hfwd [Hpit [Htr Hio]]]]]]]].
  change (rc_records (m_interestFilterTable s1)) with (rc_records (m_interestFilterTable s))
    in Hev, Hpit.
  change e0 with (addForwarded 0 (newForwarderPendingInterest interest)) in Hev, Hpit at 1.
  rewrite (loopbackCallbacks_of_forwarder_entry 0) in Hev, Hpit.
  fold calls in Hev, Hpit.
  exists s', events. rewrite Hstep. split; [exact Hrun |].
  split; [unfold extends in *; exact Hext |]. split; [exact Hev |].
  split; [| split; [| split; [exact Htr | exact Hio]]].
  - intros j ev Hnth. rewrite (Hfwd j ev Hnth). reflexivity.
  - rewrite Hpit. unfold s1. simpl. apply rc_update_put.
Qed.

Lemma expressInterest_full :
  forall (id : RecordId) (interest : Interest)
         (afterSatisfied afterNacked afterTimeout : option Callback) (s : Impl),
    let entry := newAppPendingInterest interest afterSatisfied afterNacked afterTimeout in
    let frame := interestFrame interest in
    let oversized := (block_size frame >? MAX_NDN_PACKET_SIZE)%Z in
    let calls := loopbackCallbacks entry interest (rc_records (m_interestFilterTable s)) in
    exists (s' : Impl) (events : list Event),
      expressInterest id interest afterSatisfied afterNacked afterTimeout s
        = (if oversized
           then Thrown (OversizedPacketError "I" (i_name interest) (block_size frame))
           else Returned tt, s') /\
      extends s s' events /\
      map fst events
        = connectEffects (m_transport s)
          ++ (if oversized then [] else TransportSend frame :: calls) /\
      m_pendingInterestTable s'
        = rc_put id
            (addForwarded (if oversized then 1 else 1 + N.of_nat (List.length calls)) entry)
            (m_pendingInterestTable s) /\
      m_ioContext s' = m_ioContext s.
Proof.
  intros id interest afterSatisfied afterNacked afterTimeout s entry frame oversized calls.
  destruct (ensureConnected_effects s) as [s1 [ev1 [Hrun1 [Hext1 [Hev1 [Hpit1 Hio1]]]]]].
  unfold expressInterest. rewrite (bind_returned _ _ _ _ _ _ _ Hrun1).
  fold entry.
  set (s3 := set_pendingInterestTable
               (rc_update id recordForwarding
                  (rc_put id entry (m_pendingInterestTable s1))) s1).
  assert (Hext3 : extends s s3 ev1).
  { unfold s3, extends in *. simpl. exact Hext1. }
  assert (Hpit3 : m_pendingInterestTable s3
                  = rc_put id (addForwarded 1 entry) (m_pendingInterestTable s)).
  { unfold s3. simpl. rewrite Hpit1. apply rc_update_put. }
  assert (Hget3 : rc_get id (m_pendingInterestTable s3) = Some (addForwarded 1 entry))
    by (rewrite Hpit3; apply rc_get_put).
  unfold bind at 1. unfold modify at 1. unfold bind at 1. unfold modify at 1.
  unfold bind at 1.
  match goal with
  | |- context [finishEncoding _ _ _ _ ?st] => change st with s3
  end.
  rewrite finishEncoding_run.
  fold (interestFrame interest). fold frame. fold oversized.
  destruct oversized.
  - exists s3, ev1. split; [reflexivity |]. split; [exact Hext3 |].
    rewrite app_nil_r. repeat split; auto.
  - destruct (transportSend_run frame s3) as [s4 [Hrun4 [Hext4 Hpit4]]].
    rewrite (bind_returned _ _ _ _ _ _ _ Hrun4).
    assert (Hget4 : rc_get id (m_pendingInterestTable s4) = Some (addForwarded 1 entry))
      by (rewrite Hpit4; exact Hget3).
    destruct (dispatchInterest_full id interest s4 (addForwarded 1 entry) Hget4)
      as [s5 [ev5 [Hrun5 [Hext5 [Hev5 [_ [Hpit5 [_ Hio5]]]]]]]].
    assert (Hfilters : rc_records (m_interestFilterTable s4)
                       = rc_records (m_interestFilterTable s)).
    { destruct Hext4 as [_ [Hf4 _]]. destruct Hext3 as [_ [Hf3 _]].
      rewrite Hf4, Hf3. reflexivity. }
    rewrite Hfilters in Hev5, Hpit5.
    change (loopbackCallbacks (addForwarded 1 entry) interest
              (rc_records (m_interestFilterTable s))) with calls in Hev5, Hpit5.
    exists s5, (ev1 ++ [(TransportSend frame, view s3)] ++ ev5).
    split; [exact Hrun5 |]. split; [| split; [| split]].
    + eapply extends_trans; [exact Hext3 |]. eapply extends_trans; eassumption.
    + rewrite !map_app, Hev1, Hev5. reflexivity.
    + rewrite Hpit5, Hpit4, Hpit3. rewrite rc_update_put, addForwarded_add. reflexivity.
    + rewrite Hio5.
      assert (Hio4 : m_ioContext s4 = m_ioContext s3).
      { unfold transportSend, emit, modify in Hrun4. inversion Hrun4. reflexivity. }
      rewrite Hio4. unfold s3. simpl. exact Hio1.
Qed.

Lemma removeIf_transport :
  forall (A : Type)
         (visit : PendingInterest -> A -> bool * PendingInterest * A * list Effect)
         (a : A) (s : Impl),
    m_transport (snd (pendingInterestTable_removeIf visit a s)) = m_transport s.
Proof.
  intros A visit a s. unfold pendingInterestTable_removeIf.
  destruct (removeIf_go _ visit [] (rc_records (m_pendingInterestTable s)) a)
    as [[final a'] events].
  unfold_monad. destruct (firesOnEmpty (rc_records (m_pendingInterestTable s)) final);
    reflexivity.
Qed.

Lemma putData_effects : forall (data : Data) (s : Impl),
  let recs := rc_records (m_pendingInterestTable s) in
  let should := hasForwarderMatch data recs || negb (hasAppMatch data recs) in
  let fits := (block_size (dataFrame data) <=? MAX_NDN_PACKET_SIZE)%Z in
  map fst (newEvents (putData data) s)
    = dataCallbacks data recs
      ++ (if should then connectEffects (m_transport s) else [])
      ++ (if should && fits then [TransportSend (dataFrame data)] else []).
Proof.
  intros data s recs should fits.
  destruct (satisfyPendingInterests_run data s) as [s1 [ev1 [Hrun1 [Hext1 [Hcb Hpit1]]]]].
  fold recs in Hrun1, Hcb, Hpit1. fold should in Hrun1.
  assert (Htr1 : m_transport s1 = m_transport s).
  { pose proof (removeIf_transport _ (satisfyVisit data) (false, false) s) as H.
    unfold satisfyPendingInterests, bind in Hrun1.
    destruct (pendingInterestTable_removeIf (satisfyVisit data) (false, false) s)
      as [[[a b] | e] s0]; simpl in *; inversion Hrun1; subst; exact H. }
  assert (Hgoal : exists (s' : Impl) (events : list Event),
             snd (putData data s) = s' /\ extends s s' events /\
             map fst events
               = dataCallbacks data recs
                 ++ (if should then connectEffects (m_transport s) else [])
                 ++ (if should && fits then [TransportSend (dataFrame data)] else [])).
  { unfold putData. rewrite (bind_returned _ _ _ _ _ _ _ Hrun1).
    destruct should; simpl.
    - destruct (ensureConnected_effects s1) as [s2 [ev2 [Hrun2 [Hext2 [Hev2 _]]]]].
      rewrite (bind_returned _ _ _ _ _ _ _ Hrun2).
      unfold bind at 1. rewrite finishEncoding_run. fold (dataFrame data).
      unfold fits. rewrite <- negb_gtb_leb. rewrite Htr1 in Hev2.
      destruct (block_size (dataFrame data) >? MAX_NDN_PACKET_SIZE)%Z; simpl;
        fold (dataFrame data).
      + exists s2, (ev1 ++ ev2). split; [reflexivity |].
        split; [eapply extends_trans; eassumption |].
        rewrite map_app, Hcb, Hev2, app_nil_r. reflexivity.
      + destruct (transportSend_run (dataFrame data) s2) as [s3 [Hrun3 [Hext3 _]]].
        assert (Hs3 : s3 = set_trace (trace s2 ++ [(TransportSend (dataFrame data), view s2)]) s2)
          by (unfold transportSend, emit, modify in Hrun3; inversion Hrun3; reflexivity).
        exists s3, (ev1 ++ ev2 ++ [(TransportSend (dataFrame data), view s2)]).
        split; [symmetry; exact Hs3 |].
        split; [eapply extends_trans; [eassumption | eapply extends_trans; eassumption] |].
        rewrite !map_app, Hcb, Hev2. reflexivity.
    - exists s1, ev1. rewrite Hcb, !app_nil_r. auto. }
  destruct Hgoal as [s' [events [Hafter [Hext Hev]]]].
  change (snd (putData data s)) with (after (putData data) s) in Hafter.
  rewrite <- Hafter in Hext. rewrite (extends_newEvents _ _ _ _ Hext). exact Hev.
Qed.

Lemma putNack_effects : forall (nack : Nack) (s : Impl),
  let recs := rc_records (m_pendingInterestTable s) in
  map fst (newEvents (putNack nack) s)
    = nackCallbacks nack recs
      ++ match last (map Some (forwarderNacks nack recs)) None with
         | Some n =>
             connectEffects (m_transport s)
             ++ (if (block_size (nackFrame n) <=? MAX_NDN_PACKET_SIZE)%Z
                 then [TransportSend (nackFrame n)] else [])
         | None => []
         end.
Proof.
  intros nack s recs.
  destruct (nackPendingInterests_run nack s) as [s1 [ev1 [Hrun1 [Hext1 [Hcb Hpit1]]]]].
  fold recs in Hrun1, Hcb, Hpit1.
  assert (Htr1 : m_transport s1 = m_transport s).
  { pose proof (removeIf_transport _ (nackVisit nack) None s) as H.
    unfold nackPendingInterests in Hrun1. rewrite Hrun1 in H. exact H. }
  assert (Hgoal : exists (s' : Impl) (events : list Event),
             snd (putNack nack s) = s' /\ extends s s' events /\
             map fst events
               = nackCallbacks nack recs
                 ++ match last (map Some (forwarderNacks nack recs)) None with
                    | Some n =>
                        connectEffects (m_transport s)
                        ++ (if (block_size (nackFrame n) <=? MAX_NDN_PACKET_SIZE)%Z
                            then [TransportSend (nackFrame n)] else [])
                    | None => []
                    end).
  { unfold putNack. rewrite (bind_returned _ _ _ _ _ _ _ Hrun1).
    destruct (last (map Some (forwarderNacks nack recs)) None) as [n |].
    - destruct (ensureConnected_effects s1) as [s2 [ev2 [Hrun2 [Hext2 [Hev2 _]]]]].
      rewrite (bind_returned _ _ _ _ _ _ _ Hrun2).
      unfold bind at 1. rewrite finishEncoding_run. fold (nackFrame n).
      rewrite <- negb_gtb_leb. rewrite Htr1 in Hev2.
      destruct (block_size (nackFrame n) >? MAX_NDN_PACKET_SIZE)%Z; simpl;
        fold (nackFrame n).
      + exists s2, (ev1 ++ ev2). split; [reflexivity |].
        split; [eapply extends_trans; eassumption |].
        rewrite map_app, Hcb, Hev2, app_nil_r. reflexivity.
      + destruct (transportSend_run (nackFrame n) s2) as [s3 [Hrun3 [Hext3 _]]].
        assert (Hs3 : s3 = set_trace (trace s2 ++ [(TransportSend (nackFrame n), view s2)]) s2)
          by (unfold transportSend, emit, modify in Hrun3; inversion Hrun3; reflexivity).
        exists s3, (ev1 ++ ev2 ++ [(TransportSend (nackFrame n), view s2)]).
        split; [symmetry; exact Hs3 |].
        split; [eapply extends_trans; [eassumption | eapply extends_trans; eassumption] |].
        rewrite !map_app, Hcb, Hev2. reflexivity.
    - exists s1, ev1. rewrite Hcb, !app_nil_r. auto. }
  destruct Hgoal as [s' [events [Hafter [Hext Hev]]]].
  change (snd (putNack nack s)) with (after (putNack nack) s) in Hafter.
  rewrite <- Hafter in Hext. rewrite (extends_newEvents _ _ _ _ Hext). exact Hev.
Qed.

(** *** Incoming Interests *)

(** X1: processIncomingInterest puts a FORWARDER entry under a newly allocated
    id and, the callbacks returning, calls every filter whose prefix and regex
    accept the name, whatever its allowLoopback flag, once each and in table
    order; it makes no other call, each call finds itself already counted on
    the entry, and the other pending entries are left as they were.  Nothing
    is said of a callback that throws: its exception leaves the call. *)
Theorem processIncomingInterest_reaches_every_matching_filter :
  forall (interest : Interest) (s : Impl),
    let call := processIncomingInterest interest in
    let id := rc_lastId (m_pendingInterestTable s) + 1 in
    let matching := nameMatching interest (rc_records (m_interestFilterTable s)) in
    map fst (newEvents call s)
      = map (fun r => InvokeInterestCallback (fst r) (snd r) interest) matching /\
    (forall (j : nat) (ev : Event),
       nth_error (newEvents call s) j = Some ev ->
       forwardedIn id (snd ev) = Some (N.of_nat (S j))) /\
    rc_get id (m_pendingInterestTable (after call s))
      = Some (addForwarded (N.of_nat (List.length matching))
                (newForwarderPendingInterest interest)) /\
    (forall id' : RecordId,
       id' <> id ->
       rc_get id' (m_pendingInterestTable (after call s))
         = rc_get id' (m_pendingInterestTable s)).
Proof.
  intros interest s call id matching.
  destruct (processIncomingInterest_full interest s)
    as [s' [events [Hrun [Hext [Hev [Hfwd [Hpit _]]]]]]].
  assert (Hafter : after call s = s') by (unfold call, after; rewrite Hrun; reflexivity).
  rewrite <- Hafter in Hext. rewrite (extends_newEvents _ _ _ _ Hext).
  rewrite Hafter, Hpit.
  split; [exact Hev |]. split; [exact Hfwd |]. split.
  - rewrite rc_get_put, length_map. reflexivity.
  - intros id' Hne. unfold rc_get, rc_put. simpl. apply records_get_put_other. exact Hne.
Qed.

(** *** An Interest and the Data that answers it *)

Lemma records_get_filter_none :
  forall (T : Type) (id : RecordId) (keep : RecordId * T -> bool) (rs : list (RecordId * T)),
    records_get id rs = None -> records_get id (filter keep rs) = None.
Proof.
  intros T id keep rs. unfold records_get.
  induction rs as [| r rs IH]; simpl; intros H; auto.
  destruct (hasId id r) eqn:Hr; simpl in H; [discriminate |].
  destruct (keep r); simpl; auto. rewrite Hr. auto.
Qed.

Lemma satisfied_entry_is_gone :
  forall (data : Data) (id : RecordId) (e : PendingInterest)
         (c : RecordContainer PendingInterest),
    matchesData (pi_interest e) data = true ->
    records_get id (filter (fun r => negb (matchesEntry data r)) (rc_records (rc_put id e c)))
      = None.
Proof.
  intros data id e c Hm. unfold rc_put. simpl. rewrite filter_app. simpl.
  unfold matchesEntry at 2. simpl. rewrite Hm. simpl. rewrite app_nil_r.
  apply records_get_filter_none, records_get_erase.
Qed.

Lemma existsb_erase_false :
  forall (T : Type) (id : RecordId) (p : RecordId * T -> bool) (rs : list (RecordId * T)),
    existsb p rs = false -> existsb p (records_erase id rs) = false.
Proof.
  intros T id p rs. unfold records_erase.
  induction rs as [| r rs IH]; simpl; intros H; auto.
  apply orb_false_iff in H. destruct H as [Hr Hrs].
  destruct (negb (hasId id r)); simpl; auto. rewrite Hr. auto.
Qed.

(** X2: once processIncomingInterest has taken an Interest from the forwarder,
    putData of a Data that the Interest matches hands exactly one frame to the
    transport when the encoding is within MAX_NDN_PACKET_SIZE (none when it is
    not), whatever else is pending, and the entry is gone afterwards. *)
Theorem data_for_forwarder_interest_is_sent :
  forall (interest : Interest) (data : Data) (s : Impl),
    matchesData interest data = true ->
    let s1 := after (processIncomingInterest interest) s in
    let id := rc_lastId (m_pendingInterestTable s) + 1 in
    sentFrames (newEvents (putData data) s1)
      = (if (block_size (dataFrame data) <=? MAX_NDN_PACKET_SIZE)%Z then [dataFrame data]
         else []) /\
    rc_get id (m_pendingInterestTable (after (putData data) s1)) = None.
Proof.
  intros interest data s Hm s1 id.
  destruct (processIncomingInterest_full interest s)
    as [s' [events [Hrun [_ [_ [_ [Hpit _]]]]]]].
  assert (Hs1 : s1 = s') by (unfold s1, after; rewrite Hrun; reflexivity).
  fold id in Hpit. rewrite <- Hs1 in Hpit.
  split.
  - rewrite putData_sentFrames. rewrite Hpit.
    assert (Hfwd : hasForwarderMatch data
                     (rc_records
                        (rc_put id
                           (addForwarded
                              (N.of_nat
                                 (List.length
                                    (map (fun r => InvokeInterestCallback (fst r) (snd r) interest)
                                       (nameMatching interest
                                          (rc_records (m_interestFilterTable s))))))
                              (newForwarderPendingInterest interest))
                           (mkRecordContainer (rc_records (m_pendingInterestTable s)) id)))
                   = true).
    { unfold hasForwarderMatch, rc_put. simpl. rewrite existsb_app. simpl.
      unfold matchesEntry at 2. simpl. rewrite Hm. simpl. apply orb_true_r. }
    rewrite Hfwd. reflexivity.
  - destruct (putData_run data s1) as [s2 [ev [cn [Hrun2 [_ [_ [_ Hpit2]]]]]]].
    assert (Hafter : after (putData data) s1 = s2)
      by (unfold after; rewrite Hrun2; reflexivity).
    rewrite Hafter, Hpit2, Hpit. unfold rc_get. cbn [rc_records].
    apply satisfied_entry_is_gone. exact Hm.
Qed.

(** X3: after expressInterest - whether it returned or threw
    OversizedPacketError - putData of a Data that the Interest matches and that
    matches no FORWARDER entry hands nothing to the transport, calls the data
    callback held by the entry of that Interest, and removes the entry. *)
Theorem data_for_expressed_interest_stays_local :
  forall (id : RecordId) (interest : Interest)
         (afterSatisfied afterNacked afterTimeout : option Callback) (data : Data) (s : Impl),
    matchesData interest data = true ->
    hasForwarderMatch data (rc_records (m_pendingInterestTable s)) = false ->
    let s1 := after (expressInterest id interest afterSatisfied afterNacked afterTimeout) s in
    sentFrames (newEvents (putData data) s1) = [] /\
    (exists e : PendingInterest,
       In (InvokeDataCallback e data) (map fst (newEvents (putData data) s1)) /\
       pi_interest e = interest /\ pi_origin e = APP /\
       pi_dataCallback e = afterSatisfied) /\
    rc_get id (m_pendingInterestTable (after (putData data) s1)) = None.
Proof.
  intros id interest afterSatisfied afterNacked afterTimeout data s Hm Hnofwd s1.
  destruct (expressInterest_full id interest afterSatisfied afterNacked afterTimeout s)
    as [s' [events [Hrun [_ [_ [Hpit _]]]]]].
  assert (Hs1 : s1 = s') by (unfold s1, after; rewrite Hrun; reflexivity).
  rewrite <- Hs1 in Hpit.
  set (e := addForwarded
              (if (block_size (interestFrame interest) >? MAX_NDN_PACKET_SIZE)%Z then 1
               else 1 + N.of_nat
                          (List.length
                             (loopbackCallbacks
                                (newAppPendingInterest interest afterSatisfied afterNacked
                                   afterTimeout)
                                interest (rc_records (m_interestFilterTable s)))))
              (newAppPendingInterest interest afterSatisfied afterNacked afterTimeout))
    in Hpit.
  assert (Hrecs : rc_records (m_pendingInterestTable s1)
                  = records_erase id (rc_records (m_pendingInterestTable s)) ++ [(id, e)])
    by (rewrite Hpit; reflexivity).
  assert (Hfwd : hasForwarderMatch data (rc_records (m_pendingInterestTable s1)) = false).
  { rewrite Hrecs. unfold hasForwarderMatch. rewrite existsb_app.
    rewrite (existsb_erase_false _ id _ _ Hnofwd). simpl.
    rewrite andb_false_r. reflexivity. }
  assert (Happ : hasAppMatch data (rc_records (m_pendingInterestTable s1)) = true).
  { rewrite Hrecs. unfold hasAppMatch. rewrite existsb_app. simpl.
    unfold matchesEntry at 2. simpl. rewrite Hm. simpl. apply orb_true_r. }
  split; [| split].
  - rewrite putData_sentFrames, Hfwd, Happ. reflexivity.
  - exists e. split; [| repeat split].
    rewrite putData_effects. apply in_or_app. left.
    unfold dataCallbacks. rewrite Hrecs, filter_app, map_app. apply in_or_app. right.
    simpl. unfold matchesEntry at 1. simpl. rewrite Hm. simpl. left. reflexivity.
  - destruct (putData_run data s1) as [s2 [ev [cn [Hrun2 [_ [_ [_ Hpit2]]]]]]].
    assert (Hafter : after (putData data) s1 = s2)
      by (unfold after; rewrite Hrun2; reflexivity).
    rewrite Hafter, Hpit2, Hpit. unfold rc_get. cbn [rc_records].
    apply satisfied_entry_is_gone. exact Hm.
Qed.

(** *** The transport is resumed before a frame is handed over *)

Lemma no_send_without_frames : forall (effects before rest : list Effect) (wire : Block),
  framesOf effects = [] -> effects = before ++ TransportSend wire :: rest -> False.
Proof.
  intros effects before rest wire Hnone Heq. subst effects.
  rewrite framesOf_app in Hnone. simpl in Hnone.
  destruct (framesOf before); discriminate Hnone.
Qed.

Lemma resumedBeforeSend_without_frames : forall (state : TransportState) (effects : list Effect),
  framesOf effects = [] -> resumedBeforeSend state effects.
Proof.
  intros state effects Hnone before wire rest Heq.
  exfalso. eapply no_send_without_frames; eauto.
Qed.

Lemma resumedBeforeSend_after_connect :
  forall (state : TransportState) (callbacks tail : list Effect),
    framesOf callbacks = [] ->
    resumedBeforeSend state (callbacks ++ connectEffects state ++ tail).
Proof.
  intros state callbacks tail.
  induction callbacks as [| c callbacks IH]; intros Hnone before wire rest Heq.
  - simpl in Heq. unfold connectEffects in Heq.
    destruct (TransportState_eqb state CLOSED) eqn:Hstate; simpl in Heq.
    + destruct before as [| b1 [| b2 before]]; simpl in Heq; inversion Heq; subst.
      split; [right; left; reflexivity | intros _; left; reflexivity].
    + destruct before as [| b1 before]; simpl in Heq; inversion Heq; subst.
      split; [left; reflexivity |].
      intros Hclosed. subst state. discriminate Hstate.
  - assert (Hc : framesOf [c] = [] /\ framesOf callbacks = []).
    { change (c :: callbacks) with ([c] ++ callbacks) in Hnone.
      rewrite framesOf_app in Hnone. apply app_eq_nil in Hnone. exact Hnone. }
    destruct Hc as [Hc Hrest].
    destruct before as [| b before]; simpl in Heq; inversion Heq; subst.
    + simpl in Hc. discriminate Hc.
    + destruct (IH Hrest before wire rest H1) as [Hres Hcon].
      split; [right; exact Hres | intros Hclosed; right; exact (Hcon Hclosed)].
Qed.

(** X4: in every call of expressInterest, putData and putNack, a frame is
    handed to the transport only after the transport has been resumed in that
    call, and after it has been connected when it was CLOSED. *)
Theorem send_paths_resume_before_sending :
  forall s : Impl,
    (forall (id : RecordId) (interest : Interest)
            (afterSatisfied afterNacked afterTimeout : option Callback),
       resumedBeforeSend (m_transport s)
         (map fst (newEvents (expressInterest id interest afterSatisfied afterNacked
                                afterTimeout) s))) /\
    (forall data : Data,
       resumedBeforeSend (m_transport s) (map fst (newEvents (putData data) s))) /\
    (forall nack : Nack,
       resumedBeforeSend (m_transport s) (map fst (newEvents (putNack nack) s))).
Proof.
  intros s. split; [| split].
  - intros id interest afterSatisfied afterNacked afterTimeout.
    destruct (expressInterest_full id interest afterSatisfied afterNacked afterTimeout s)
      as [s' [events [Hrun [Hext [Hev _]]]]].
    assert (Hafter : after (expressInterest id interest afterSatisfied afterNacked
                              afterTimeout) s = s')
      by (unfold after; rewrite Hrun; reflexivity).
    rewrite <- Hafter in Hext. rewrite (extends_newEvents _ _ _ _ Hext), Hev.
    apply (resumedBeforeSend_after_connect (m_transport s) []). reflexivity.
  - intros data. rewrite putData_effects.
    destruct (hasForwarderMatch data (rc_records (m_pendingInterestTable s))
              || negb (hasAppMatch data (rc_records (m_pendingInterestTable s)))).
    + apply resumedBeforeSend_after_connect, dataCallbacks_no_frames.
    + apply resumedBeforeSend_without_frames. simpl. rewrite app_nil_r.
      apply dataCallbacks_no_frames.
  - intros nack. rewrite putNack_effects.
    destruct (last (map Some (forwarderNacks nack (rc_records (m_pendingInterestTable s))))
                None).
    + apply resumedBeforeSend_after_connect, nackCallbacks_no_frames.
    + apply resumedBeforeSend_without_frames. rewrite app_nil_r.
      apply nackCallbacks_no_frames.
Qed.

(** *** Packets and registrations are kept apart *)

(** X5: expressInterest, processIncomingInterest, putData and putNack never
    change the interest-filter table or the registered-prefix table and never
    start a command on the controller, whether they return or throw. *)
Theorem packet_paths_leave_registrations_alone :
  forall s : Impl,
    let untouched (s' : Impl) :=
      m_interestFilterTable s' = m_interestFilterTable s /\
      m_registeredPrefixTable s' = m_registeredPrefixTable s /\
      m_nfdController s' = m_nfdController s in
    (forall (id : RecordId) (interest : Interest)
            (afterSatisfied afterNacked afterTimeout : option Callback),
       untouched (after (expressInterest id interest afterSatisfied afterNacked
                           afterTimeout) s)) /\
    (forall interest : Interest, untouched (after (processIncomingInterest interest) s)) /\
    (forall data : Data, untouched (after (putData data) s)) /\
    (forall nack : Nack, untouched (after (putNack nack) s)).
Proof.
  intros s untouched. unfold untouched. split; [| split; [| split]].
  - intros id interest afterSatisfied afterNacked afterTimeout.
    destruct (expressInterest_full id interest afterSatisfied afterNacked afterTimeout s)
      as [s' [events [Hrun [Hext _]]]].
    unfold after. rewrite Hrun. apply Hext.
  - intros interest.
    destruct (processIncomingInterest_full interest s) as [s' [events [Hrun [Hext _]]]].
    unfold after. rewrite Hrun. apply Hext.
  - intros data.
    destruct (putData_run data s) as [s' [events [connects [Hrun [Hext _]]]]].
    unfold after. rewrite Hrun. apply Hext.
  - intros nack.
    destruct (putNack_run nack s) as [s' [events [connects [Hrun [Hext _]]]]].
    unfold after. rewrite Hrun. apply Hext.
Qed.

(** *** Callbacks are for the application's own Interests *)

Lemma in_dataCallbacks :
  forall (data d : Data) (e : PendingInterest) (rs : list (RecordId * PendingInterest)),
    In (InvokeDataCallback e d) (dataCallbacks data rs) ->
    d = data /\ pi_origin e = APP /\ matchesData (pi_interest e) data = true /\
    In e (map snd rs).
Proof.
  intros data d e rs Hin. unfold dataCallbacks in Hin.
  apply in_map_iff in Hin. destruct Hin as [[k v] [Heq Hin]].
  inversion Heq; subst. apply filter_In in Hin. destruct Hin as [Hin Hkeep].
  apply andb_true_iff in Hkeep. destruct Hkeep as [Hm Ho]. simpl in *.
  repeat split; auto.
  - destruct (pi_origin e); [reflexivity | discriminate].
  - apply in_map_iff. exists (k, e). auto.
Qed.

Lemma in_nackCallbacks :
  forall (nack n : Nack) (e : PendingInterest) (rs : list (RecordId * PendingInterest)),
    In (InvokeNackCallback e n) (nackCallbacks nack rs) ->
    pi_origin e = APP /\ matchesInterest (n_interest nack) (pi_interest e) = true /\
    exists e0, In e0 (map snd rs) /\ e = snd (recordNack e0 nack)
               /\ fst (recordNack e0 nack) = Some n.
Proof.
  intros nack n e rs Hin. unfold nackCallbacks in Hin.
  apply in_flat_map in Hin. destruct Hin as [[k v] [Hin Hcall]].
  unfold completion, nackMatchesEntry in Hcall. cbn [snd] in Hcall.
  destruct (matchesInterest (n_interest nack) (pi_interest v)) eqn:Hm;
    [| contradiction].
  destruct (fst (recordNack v nack)) as [n' |] eqn:Hrec; [| contradiction].
  destruct (isApp (pi_origin v)) eqn:Ho; [| contradiction].
  destruct Hcall as [Heq | []].
  assert (He : e = snd (recordNack v nack) /\ n = n')
    by (inversion Heq; split; reflexivity).
  destruct He as [He Hn]. subst n'.
  assert (Horigin : pi_origin e = pi_origin v) by (rewrite He; reflexivity).
  assert (Hinterest : pi_interest e = pi_interest v) by (rewrite He; reflexivity).
  rewrite Horigin, Hinterest.
  split; [destruct (pi_origin v); [reflexivity | discriminate] |].
  split; [exact Hm |].
  exists v. split; [apply in_map_iff; exists (k, v); auto |].
  split; [exact He | exact Hrec].
Qed.

(** X6: putData and putNack call back only entries of APP origin: every data
    callback they invoke is that of an APP entry of the table whose Interest
    the Data satisfies, with that Data, and every nack callback is that of an
    APP entry whose Interest the Nack matches and whose accumulator the Nack
    has just completed.  FORWARDER entries are never called back. *)
Theorem callbacks_only_for_app_entries :
  forall s : Impl,
    let recs := rc_records (m_pendingInterestTable s) in
    (forall (data d : Data) (e : PendingInterest),
       In (InvokeDataCallback e d) (map fst (newEvents (putData data) s)) ->
       d = data /\ pi_origin e = APP /\ matchesData (pi_interest e) data = true /\
       In e (map snd recs)) /\
    (forall (nack n : Nack) (e : PendingInterest),
       In (InvokeNackCallback e n) (map fst (newEvents (putNack nack) s)) ->
       pi_origin e = APP /\ matchesInterest (n_interest nack) (pi_interest e) = true /\
       exists e0, In e0 (map snd recs) /\ e = snd (recordNack e0 nack)
                  /\ fst (recordNack e0 nack) = Some n).
Proof.
  intros s recs. split.
  - intros data d e Hin. rewrite putData_effects in Hin.
    apply in_app_or in Hin. destruct Hin as [Hin | Hin].
    + apply in_dataCallbacks. exact Hin.
    + exfalso. apply in_app_or in Hin. destruct Hin as [Hin | Hin].
      * destruct (hasForwarderMatch data (rc_records (m_pendingInterestTable s))
                  || negb (hasAppMatch data (rc_records (m_pendingInterestTable s))));
          [| contradiction].
        unfold connectEffects in Hin.
        destruct (TransportState_eqb (m_transport s) CLOSED); simpl in Hin;
          intuition discriminate.
      * destruct ((hasForwarderMatch data (rc_records (m_pendingInterestTable s))
                   || negb (hasAppMatch data (rc_records (m_pendingInterestTable s))))
                  && (block_size (dataFrame data) <=? MAX_NDN_PACKET_SIZE)%Z);
          simpl in Hin; intuition discriminate.
  - intros nack n e Hin. rewrite putNack_effects in Hin.
    apply in_app_or in Hin. destruct Hin as [Hin | Hin].
    + apply in_nackCallbacks. exact Hin.
    + exfalso.
      destruct (last (map Some (forwarderNacks nack (rc_records (m_pendingInterestTable s))))
                  None) as [out |]; [| contradiction].
      apply in_app_or in Hin. destruct Hin as [Hin | Hin].
      * unfold connectEffects in Hin.
        destruct (TransportState_eqb (m_transport s) CLOSED); simpl in Hin;
          intuition discriminate.
      * destruct (block_size (nackFrame out) <=? MAX_NDN_PACKET_SIZE)%Z; simpl in Hin;
          intuition discriminate.
Qed.

(** *** The idle check *)

Lemma rc_empty_put : forall (T : Type) (id : RecordId) (r : T) (c : RecordContainer T),
  rc_empty (rc_put id r c) = false.
Proof.
  intros T id r c. unfold rc_empty, rc_put. simpl.
  destruct (records_erase id (rc_records c)); reflexivity.
Qed.

Lemma checkIdle_with_pending_interest : forall s : Impl,
  rc_empty (m_pendingInterestTable s) = false -> runHandler CheckIdle s = (Returned tt, s).
Proof.
  intros s Hbusy. unfold runHandler, bind, gets. rewrite Hbusy. reflexivity.
Qed.

Lemma checkIdle_with_registered_prefix : forall s : Impl,
  rc_empty (m_registeredPrefixTable s) = false -> runHandler CheckIdle s = (Returned tt, s).
Proof.
  intros s Hbusy. unfold runHandler, bind, gets. rewrite Hbusy, andb_false_r. reflexivity.
Qed.

(** X7: the idle check that the tables post changes nothing while there is
    work: run right after expressInterest (returned or thrown), after
    processIncomingInterest, or after a registration has succeeded, it does
    not pause the transport, cancels nothing and returns. *)
Theorem idle_check_spares_pending_work :
  forall s : Impl,
    (forall (id : RecordId) (interest : Interest)
            (afterSatisfied afterNacked afterTimeout : option Callback),
       let s1 := after (expressInterest id interest afterSatisfied afterNacked
                          afterTimeout) s in
       runHandler CheckIdle s1 = (Returned tt, s1)) /\
    (forall interest : Interest,
       let s1 := after (processIncomingInterest interest) s in
       runHandler CheckIdle s1 = (Returned tt, s1)) /\
    (forall (id : RecordId) (prefix : Name) (options : CommandOptions)
            (filter : option InterestFilter) (onInterest onSuccess : option Callback)
            (response : ControlParameters),
       let s1 := after (runSuccessHandler
                          (AfterRegistered id prefix options filter onInterest onSuccess)
                          response) s in
       runHandler CheckIdle s1 = (Returned tt, s1)).
Proof.
  intros s. split; [| split].
  - intros id interest afterSatisfied afterNacked afterTimeout s1.
    destruct (expressInterest_full id interest afterSatisfied afterNacked afterTimeout s)
      as [s' [events [Hrun [_ [_ [Htable _]]]]]].
    assert (Hs1 : s1 = s') by (subst s1; unfold after; rewrite Hrun; reflexivity).
    rewrite Hs1. apply checkIdle_with_pending_interest.
    rewrite Htable. apply rc_empty_put.
  - intros interest s1.
    destruct (processIncomingInterest_full interest s)
      as [s' [events [Hrun [_ [_ [_ [Htable _]]]]]]].
    assert (Hs1 : s1 = s') by (subst s1; unfold after; rewrite Hrun; reflexivity).
    rewrite Hs1. apply checkIdle_with_pending_interest.
    rewrite Htable. apply rc_empty_put.
  - intros id prefix options filter onInterest onSuccess response s1.
    apply checkIdle_with_registered_prefix. subst s1. unfold after.
    destruct filter as [f |]; destruct onSuccess as [g |];
      simpl; unfold_monad; simpl; apply rc_empty_put.
Qed.

(** X8: shutdown itself makes no call on the transport; it posts one idle
    check for each table it has emptied.  When such a check then runs, it
    pauses the transport and, the work guard being released, cancels the
    processEvents timeout event. *)
Theorem shutdown_pauses_on_next_poll :
  forall s : Impl,
    m_ioContext s = [] ->
    rc_empty (m_pendingInterestTable s) && rc_empty (m_registeredPrefixTable s) = false ->
    let s1 := after shutdown s in
    let s2 := after poll s1 in
    newEvents shutdown s = [] /\
    m_transport s1 = m_transport s /\
    m_ioContext s1
      = (if rc_empty (m_pendingInterestTable s) then [] else [CheckIdle])
        ++ (if rc_empty (m_registeredPrefixTable s) then [] else [CheckIdle]) /\
    outcome poll s1 = Returned tt /\
    newEvents poll s1 = [(TransportPause, mkView [] (rc_records (m_interestFilterTable s)) [])] /\
    m_transport s2 = transport_pause (m_transport s) /\
    m_processEventsTimeoutEvent s2 = false.
Proof.
  intros [tr [pit pitId] filters [prefixes prefixesId] ctl guard timeoutEvent queue events]
         Hqueue Hbusy s1 s2.
  simpl in Hqueue. subst queue. subst s2 s1.
  unfold shutdown, pendingInterestTable_clear, registeredPrefixTable_clear, poll, runHandler.
  unfold rc_empty in *. simpl in Hbusy |- *.
  destruct pit as [| p pit]; destruct prefixes as [| q prefixes];
    try discriminate Hbusy; unfold_monad; simpl;
    repeat split; try apply skipn_all; try (rewrite skipn_length_app; reflexivity).
Qed.

(** *** Unregistering a prefix *)

Lemma unsetInterestFilter_run : forall (id : RecordId) (s : Impl),
  exists s' : Impl,
    unsetInterestFilter id s = (Returned tt, s') /\
    rc_records (m_interestFilterTable s')
      = records_erase id (rc_records (m_interestFilterTable s)) /\
    rc_lastId (m_interestFilterTable s') = rc_lastId (m_interestFilterTable s) /\
    m_pendingInterestTable s' = m_pendingInterestTable s /\
    m_registeredPrefixTable s' = m_registeredPrefixTable s /\
    m_nfdController s' = m_nfdController s /\
    m_transport s' = m_transport s /\
    m_ioContext s' = m_ioContext s /\
    trace s' = trace s.
Proof.
  intros id s. unfold unsetInterestFilter, bind, gets.
  destruct (rc_get id (m_interestFilterTable s)) eqn:Hget.
  - eexists. split; [reflexivity |]. simpl. repeat split.
  - exists s. split; [reflexivity |]. repeat split.
    symmetry. apply records_erase_fresh. exact Hget.
Qed.

Lemma registeredPrefixTable_erase_run : forall (id : RecordId) (s : Impl),
  exists s' : Impl,
    registeredPrefixTable_erase id s = (Returned tt, s') /\
    rc_records (m_registeredPrefixTable s')
      = records_erase id (rc_records (m_registeredPrefixTable s)) /\
    m_interestFilterTable s' = m_interestFilterTable s /\
    m_pendingInterestTable s' = m_pendingInterestTable s /\
    trace s' = trace s.
Proof.
  intros id s. unfold registeredPrefixTable_erase. unfold_monad. simpl.
  destruct (firesOnEmpty (rc_records (m_registeredPrefixTable s))
              (records_erase id (rc_records (m_registeredPrefixTable s))));
    eexists; (split; [reflexivity |]); simpl; repeat split.
Qed.

Lemma unregisterPrefix_known :
  forall (s : Impl) (id : RecordId) (onSuccess onFailure : option Callback)
         (record : RegisteredPrefix),
    rc_get id (m_registeredPrefixTable s) = Some record ->
    exists s' : Impl,
      unregisterPrefix id onSuccess onFailure s = (Returned tt, s') /\
      trace s' = trace s /\
      m_nfdController s'
        = m_nfdController s
          ++ [mkStartedCommand RibUnregisterCommand
                (WithParameters (setName (rp_prefix record) emptyControlParameters))
                (AfterUnregistered id onSuccess) (UnregisterFailed onFailure)
                (rp_commandOptions record)] /\
      m_registeredPrefixTable s' = m_registeredPrefixTable s /\
      m_pendingInterestTable s' = m_pendingInterestTable s /\
      rc_records (m_interestFilterTable s')
        = (if rp_filterId record =? 0 then rc_records (m_interestFilterTable s)
           else records_erase (rp_filterId record) (rc_records (m_interestFilterTable s))) /\
      rc_lastId (m_interestFilterTable s') = rc_lastId (m_interestFilterTable s) /\
      m_ioContext s' = m_ioContext s /\
      m_transport s' = m_transport s.
Proof.
  intros s id onSuccess onFailure record Hget.
  unfold unregisterPrefix. unfold bind at 1. unfold gets. rewrite Hget.
  destruct (rp_filterId record =? 0) eqn:Hzero; simpl.
  - eexists. unfold controllerStart, bind, ret, modify. simpl.
    split; [reflexivity |]. simpl. repeat split.
  - destruct (unsetInterestFilter_run (rp_filterId record) s)
      as [s1 [Hrun [Hrecs [Hlast [Hpit [Hrpt [Hctl [Htr [Hq Htrace]]]]]]]]].
    eexists. unfold bind. rewrite Hrun. unfold controllerStart, modify.
    split; [reflexivity |]. simpl.
    rewrite Hrecs, Hlast, Hpit, Hrpt, Hctl, Htr, Hq, Htrace. repeat split.
Qed.

(** X9: for an id that is in the registered-prefix table, unregisterPrefix
    removes the paired interest filter at once (when the record has one),
    starts the RibUnregister command for the record's prefix with the record's
    options, calls nothing and leaves the record in the table.  When the
    command fails, onFailure (when given) is called with the text of the
    response, nothing is thrown and no table changes, so the filter stays
    removed.  When it succeeds, the record is erased before onSuccess (when
    given) is called. *)
Theorem unregisterPrefix_starts_then_completes :
  forall (s : Impl) (id : RecordId) (onSuccess onFailure : option Callback)
         (record : RegisteredPrefix),
    rc_get id (m_registeredPrefixTable s) = Some record ->
    let call := unregisterPrefix id onSuccess onFailure in
    let cmd := mkStartedCommand RibUnregisterCommand
                 (WithParameters (setName (rp_prefix record) emptyControlParameters))
                 (AfterUnregistered id onSuccess) (UnregisterFailed onFailure)
                 (rp_commandOptions record) in
    (outcome call s = Returned tt /\
     newEvents call s = [] /\
     m_nfdController (after call s) = m_nfdController s ++ [cmd] /\
     m_registeredPrefixTable (after call s) = m_registeredPrefixTable s /\
     m_pendingInterestTable (after call s) = m_pendingInterestTable s /\
     rc_records (m_interestFilterTable (after call s))
       = (if rp_filterId record =? 0 then rc_records (m_interestFilterTable s)
          else records_erase (rp_filterId record) (rc_records (m_interestFilterTable s)))) /\
    (forall (s2 : Impl) (resp : ControlResponse),
       let fail := runFailureHandler (cmd_onFailure cmd) resp in
       outcome fail s2 = Returned tt /\
       view (after fail s2) = view s2 /\
       newEvents fail s2 =
         match onFailure with
         | Some f => [(CallUnregisterFailure f (resp_text resp), view s2)]
         | None => []
         end) /\
    (forall (s2 : Impl) (response : ControlParameters),
       let succeed := runSuccessHandler (cmd_onSuccess cmd) response in
       outcome succeed s2 = Returned tt /\
       rc_records (m_registeredPrefixTable (after succeed s2))
         = records_erase id (rc_records (m_registeredPrefixTable s2)) /\
       m_interestFilterTable (after succeed s2) = m_interestFilterTable s2 /\
       newEvents succeed s2 =
         match onSuccess with
         | Some f => [(CallUnregisterSuccess f, view (after succeed s2))]
         | None => []
         end /\
       records_get id (v_registeredPrefixes (view (after succeed s2))) = None).
Proof.
  intros s id onSuccess onFailure record Hget call cmd.
  split; [| split].
  - destruct (unregisterPrefix_known s id onSuccess onFailure record Hget)
      as [s' [Hrun [Htrace [Hctl [Hrpt [Hpit [Hift _]]]]]]].
    subst call. unfold outcome, after. rewrite Hrun. simpl.
    split; [reflexivity |].
    split; [apply newEvents_same_trace; unfold after; rewrite Hrun; exact Htrace |].
    repeat split; assumption.
  - intros s2 resp fail. subst fail. simpl.
    destruct onFailure as [f |]; unfold_monad; simpl.
    + repeat split. rewrite skipn_length_app. reflexivity.
    + repeat split. rewrite skipn_all. reflexivity.
  - intros s2 response succeed. subst succeed. simpl.
    destruct (registeredPrefixTable_erase_run id s2)
      as [s3 [Hrun [Hrecs [Hift [Hpit Htrace]]]]].
    unfold newEvents, outcome, after.
    rewrite (bind_returned _ _ _ _ _ _ _ Hrun).
    destruct onSuccess as [f |]; unfold emit, modify, ret; simpl.
    + rewrite Htrace, skipn_length_app, Hrecs, Hift.
      repeat split. apply records_get_erase.
    + rewrite Htrace, skipn_all, Hrecs, Hift.
      repeat split. apply records_get_erase.
Qed.

Lemma afterRegistered_run :
  forall (id : RecordId) (prefix : Name) (options : CommandOptions)
         (filter : option InterestFilter) (onInterest onSuccess : option Callback)
         (response : ControlParameters) (s : Impl),
    let filterId := match filter with
                    | Some _ => rc_lastId (m_interestFilterTable s) + 1
                    | None => 0
                    end in
    exists s' : Impl,
      runSuccessHandler (AfterRegistered id prefix options filter onInterest onSuccess)
        response s = (Returned tt, s') /\
      m_registeredPrefixTable s'
        = rc_put id (mkRegisteredPrefix prefix options filterId) (m_registeredPrefixTable s) /\
      rc_records (m_interestFilterTable s')
        = match filter with
          | Some f =>
              records_erase filterId (rc_records (m_interestFilterTable s))
              ++ [(filterId, mkInterestFilterRecord f onInterest)]
          | None => rc_records (m_interestFilterTable s)
          end /\
      m_pendingInterestTable s' = m_pendingInterestTable s /\
      m_nfdController s' = m_nfdController s.
Proof.
  intros id prefix options filter onInterest onSuccess response s filterId.
  subst filterId.
  destruct filter as [f |]; destruct onSuccess as [g |];
    simpl; unfold_monad; simpl; eexists; (split; [reflexivity |]); simpl; repeat split.
Qed.

(** X10: a registration that has succeeded and is then unregistered, with
    success, leaves the tables as they were before it: the filter record is
    gone as soon as unregisterPrefix returns, the prefix record once the
    forwarder has answered.  The ids used must have been free: the record id
    in the registered-prefix table and the next filter id in the filter
    table. *)
Theorem register_then_unregister_restores_tables :
  forall (s : Impl) (id : RecordId) (prefix : Name) (options : CommandOptions)
         (filter : option InterestFilter)
         (onInterest onSuccess onUnregistered onFailure : option Callback)
         (response response' : ControlParameters),
    rc_get id (m_registeredPrefixTable s) = None ->
    rc_get (rc_lastId (m_interestFilterTable s) + 1) (m_interestFilterTable s) = None ->
    let s1 := after (runSuccessHandler
                       (AfterRegistered id prefix options filter onInterest onSuccess)
                       response) s in
    let s2 := after (unregisterPrefix id onUnregistered onFailure) s1 in
    let s3 := after (runSuccessHandler (AfterUnregistered id onUnregistered) response') s2 in
    rc_records (m_interestFilterTable s2) = rc_records (m_interestFilterTable s) /\
    rc_get id (m_registeredPrefixTable s2)
      = Some (mkRegisteredPrefix prefix options
                match filter with
                | Some _ => rc_lastId (m_interestFilterTable s) + 1
                | None => 0
                end) /\
    rc_records (m_interestFilterTable s3) = rc_records (m_interestFilterTable s) /\
    rc_records (m_registeredPrefixTable s3) = rc_records (m_registeredPrefixTable s) /\
    m_pendingInterestTable s3 = m_pendingInterestTable s.
Proof.
  intros s id prefix options filter onInterest onSuccess onUnregistered onFailure
         response response' Hfree HfilterFree s1 s2 s3.
  destruct (afterRegistered_run id prefix options filter onInterest onSuccess response s)
    as [t1 [Hrun1 [Hrpt1 [Hift1 [Hpit1 _]]]]].
  assert (Hs1 : s1 = t1) by (subst s1; unfold after; rewrite Hrun1; reflexivity).
  set (filterId := match filter with
                   | Some _ => rc_lastId (m_interestFilterTable s) + 1
                   | None => 0
                   end) in *.
  set (record := mkRegisteredPrefix prefix options filterId) in *.
  assert (Hget1 : rc_get id (m_registeredPrefixTable t1) = Some record)
    by (rewrite Hrpt1; apply rc_get_put).
  destruct (unregisterPrefix_known t1 id onUnregistered onFailure record Hget1)
    as [t2 [Hrun2 [_ [_ [Hrpt2 [Hpit2 [Hift2 _]]]]]]].
  assert (Hs2 : s2 = t2) by (subst s2; rewrite Hs1; unfold after; rewrite Hrun2; reflexivity).
  destruct (registeredPrefixTable_erase_run id t2) as [t3 [Hrun3 [Hrpt3 [Hift3 [Hpit3 _]]]]].
  assert (Hs3 : m_registeredPrefixTable s3 = m_registeredPrefixTable t3 /\
                m_interestFilterTable s3 = m_interestFilterTable t3 /\
                m_pendingInterestTable s3 = m_pendingInterestTable t3).
  { subst s3. rewrite Hs2. unfold after. simpl.
    rewrite (bind_returned _ _ _ _ _ _ _ Hrun3).
    destruct onUnregistered; repeat split. }
  destruct Hs3 as [Hrpt4 [Hift4 Hpit4]].
  assert (Hfilters : rc_records (m_interestFilterTable t2)
                     = rc_records (m_interestFilterTable s)).
  { rewrite Hift2, Hift1. subst record filterId. simpl.
    destruct filter as [f |].
    - assert (Hnonzero : (rc_lastId (m_interestFilterTable s) + 1 =? 0) = false)
        by (apply N.eqb_neq; lia).
      rewrite Hnonzero, records_erase_put.
      apply records_erase_fresh. exact HfilterFree.
    - reflexivity. }
  rewrite Hrpt4, Hift4, Hpit4, Hs2.
  split; [exact Hfilters |].
  split; [rewrite Hrpt2; exact Hget1 |].
  split; [rewrite Hift3; exact Hfilters |].
  split.
  - rewrite Hrpt3, Hrpt2, Hrpt1. unfold rc_put. simpl.
    rewrite records_erase_put. apply records_erase_fresh. exact Hfree.
  - rewrite Hpit3, Hpit2, Hpit1. reflexivity.
Qed.

(** X11: a prefix record can be unregistered again while the first
    RibUnregister command is unanswered: a second command for the same prefix
    is started.  Once the first command has succeeded the handle is stale: a
    further unregisterPrefix starts no command and reports
    "Unrecognized RegisteredPrefixHandle"%string to onFailure. *)
Theorem unregisterPrefix_twice :
  forall (s : Impl) (id : RecordId) (onSuccess onFailure onSuccess' onFailure' : option Callback)
         (record : RegisteredPrefix),
    rc_get id (m_registeredPrefixTable s) = Some record ->
    let command (onSuccess onFailure : option Callback) :=
      mkStartedCommand RibUnregisterCommand
        (WithParameters (setName (rp_prefix record) emptyControlParameters))
        (AfterUnregistered id onSuccess) (UnregisterFailed onFailure)
        (rp_commandOptions record) in
    let again := unregisterPrefix id onSuccess' onFailure' in
    let s1 := after (unregisterPrefix id onSuccess onFailure) s in
    m_nfdController (after again s1)
      = m_nfdController s ++ [command onSuccess onFailure; command onSuccess' onFailure'] /\
    (forall response : ControlParameters,
       let s2 := after (runSuccessHandler (AfterUnregistered id onSuccess) response) s1 in
       outcome again s2 = Returned tt /\
       newEvents again s2 =
         match onFailure' with
         | Some f =>
             [(CallUnregisterFailure f "Unrecognized RegisteredPrefixHandle"%string, view s2)]
         | None => []
         end /\
       m_nfdController (after again s2) = m_nfdController s2).
Proof.
  intros s id onSuccess onFailure onSuccess' onFailure' record Hget command again s1.
  destruct (unregisterPrefix_known s id onSuccess onFailure record Hget)
    as [t1 [Hrun1 [_ [Hctl1 [Hrpt1 _]]]]].
  assert (Hs1 : s1 = t1) by (subst s1; unfold after; rewrite Hrun1; reflexivity).
  assert (Hget1 : rc_get id (m_registeredPrefixTable t1) = Some record)
    by (rewrite Hrpt1; exact Hget).
  split.
  - destruct (unregisterPrefix_known t1 id onSuccess' onFailure' record Hget1)
      as [t2 [Hrun2 [_ [Hctl2 _]]]].
    subst again. rewrite Hs1. unfold after. rewrite Hrun2. simpl.
    rewrite Hctl2, Hctl1, <- app_assoc. reflexivity.
  - intros response s2.
    destruct (registeredPrefixTable_erase_run id t1) as [t2 [Hrun2 [Hrpt2 _]]].
    assert (Hs2 : exists t, s2 = t /\ rc_get id (m_registeredPrefixTable t) = None).
    { subst s2. rewrite Hs1. unfold after. simpl.
      rewrite (bind_returned _ _ _ _ _ _ _ Hrun2).
      destruct onSuccess as [f |]; unfold emit, modify, ret; simpl;
        eexists; (split; [reflexivity |]); unfold rc_get; simpl;
        rewrite Hrpt2; apply records_get_erase. }
    destruct Hs2 as [t [Hs2 Hgone]]. rewrite Hs2.
    assert (Hrun : again t =
                   match onFailure' with
                   | Some f =>
                       emit (CallUnregisterFailure f
                               "Unrecognized RegisteredPrefixHandle"%string) t
                   | None => (Returned tt, t)
                   end).
    { subst again. unfold unregisterPrefix, bind, gets. rewrite Hgone.
      destruct onFailure'; reflexivity. }
    destruct onFailure' as [f |].
    + repeat split; try (unfold outcome, after; rewrite Hrun; reflexivity).
      apply newEvents_intro. unfold after. rewrite Hrun. reflexivity.
    + repeat split; try (unfold outcome, after; rewrite Hrun; reflexivity).
      apply newEvents_same_trace. unfold after. rewrite Hrun. reflexivity.
Qed.

(** X12: announcePrefix does what registerPrefix does, with another command:
    it returns the same newly allocated id, inserts nothing and calls nothing,
    and the RibAnnounce command it starts carries the prefix announcement made
    of the prefix, the expiration and the validity period, with the same
    options and the same success and failure handlers as the RibRegister
    command of registerPrefix. *)
Theorem announcePrefix_differs_only_in_command :
  forall (s : Impl) (prefix : Name) (expiration : N) (validityPeriod : option ValidityPeriod)
         (onSuccess onFailure : option Callback) (flags : N) (options : CommandOptions)
         (filter : option InterestFilter) (onInterest : option Callback),
    let announce := announcePrefix prefix expiration validityPeriod onSuccess onFailure
                      options filter onInterest in
    let register := registerPrefix prefix onSuccess onFailure flags options filter
                      onInterest in
    outcome announce s = Returned (rc_lastId (m_registeredPrefixTable s) + 1) /\
    outcome announce s = outcome register s /\
    view (after announce s) = view s /\
    newEvents announce s = [] /\
    exists cmdA cmdR : StartedCommand,
      m_nfdController (after announce s) = m_nfdController s ++ [cmdA] /\
      m_nfdController (after register s) = m_nfdController s ++ [cmdR] /\
      cmd_verb cmdA = RibAnnounceCommand /\
      cmd_argument cmdA
        = WithAnnouncement (mkPrefixAnnouncement prefix expiration validityPeriod) /\
      cmd_onSuccess cmdA = cmd_onSuccess cmdR /\
      cmd_onFailure cmdA = cmd_onFailure cmdR /\
      cmd_options cmdA = cmd_options cmdR /\
      set_nfdController [] (after announce s) = set_nfdController [] (after register s).
Proof.
  intros s prefix expiration validityPeriod onSuccess onFailure flags options filter
         onInterest announce register.
  subst announce register.
  unfold announcePrefix, registerPrefix, registeredPrefixTable_allocateId, controllerStart.
  unfold_monad. simpl.
  split; [reflexivity |]. split; [reflexivity |]. split; [reflexivity |].
  split; [apply skipn_all |].
  eexists. eexists. repeat split.
Qed.

(** *** Deferred removals *)

Lemma pendingInterestTable_erase_run : forall (id : RecordId) (s : Impl),
  exists s' : Impl,
    pendingInterestTable_erase id s = (Returned tt, s') /\
    m_pendingInterestTable s' = rc_erase id (m_pendingInterestTable s) /\
    m_interestFilterTable s' = m_interestFilterTable s /\
    m_registeredPrefixTable s' = m_registeredPrefixTable s /\
    m_transport s' = m_transport s /\
    trace s' = trace s.
Proof.
  intros id s. unfold pendingInterestTable_erase. unfold_monad. simpl.
  destruct (firesOnEmpty (rc_records (m_pendingInterestTable s))
              (records_erase id (rc_records (m_pendingInterestTable s))));
    eexists; (split; [reflexivity |]); simpl; repeat split.
Qed.

Lemma in_records_erase :
  forall (T : Type) (id : RecordId) (r : RecordId * T) (rs : list (RecordId * T)),
    In r (records_erase id rs) -> In r rs /\ fst r <> id.
Proof.
  intros T id r rs Hin. unfold records_erase in Hin.
  apply filter_In in Hin. destruct Hin as [Hin Hkeep].
  split; [exact Hin |].
  unfold hasId in Hkeep. apply negb_true_iff in Hkeep. apply N.eqb_neq. exact Hkeep.
Qed.

Lemma only_match_erased :
  forall (data : Data) (id : RecordId) (rs : list (RecordId * PendingInterest)),
    (forall r, In r rs -> matchesEntry data r = true -> fst r = id) ->
    existsb (matchesEntry data) (records_erase id rs) = false.
Proof.
  intros data id rs Honly.
  destruct (existsb (matchesEntry data) (records_erase id rs)) eqn:Hex; [| reflexivity].
  apply existsb_exists in Hex. destruct Hex as [r [Hin Hmatch]].
  apply in_records_erase in Hin. destruct Hin as [Hin Hneq].
  exfalso. apply Hneq. apply Honly; assumption.
Qed.

Lemma unsolicited_effects : forall (data : Data) (s : Impl),
  existsb (matchesEntry data) (rc_records (m_pendingInterestTable s)) = false ->
  map fst (newEvents (putData data) s)
    = connectEffects (m_transport s)
      ++ (if (block_size (dataFrame data) <=? MAX_NDN_PACKET_SIZE)%Z
          then [TransportSend (dataFrame data)] else []).
Proof.
  intros data s Hnone. rewrite putData_effects.
  destruct (no_match_no_origin_match data _ Hnone) as [Happ Hfwd].
  rewrite (no_match_no_dataCallbacks data _ Hnone), Happ, Hfwd. reflexivity.
Qed.

(** X13: asyncRemovePendingInterest removes nothing by itself: until the
    io_context has run its handler the entry stays and answers Data as before.
    The handler, once run, erases the entry without calling anything; Data
    that only this entry would have matched then invokes no callback and is
    sent out as unsolicited Data (when its frame fits). *)
Theorem removed_pending_interest_gets_no_data :
  forall (s : Impl) (id : RecordId) (data : Data),
    m_ioContext s = [] ->
    (forall r, In r (rc_records (m_pendingInterestTable s)) ->
               matchesEntry data r = true -> fst r = id) ->
    let s1 := after (asyncRemovePendingInterest id) s in
    let s2 := after poll s1 in
    m_pendingInterestTable s1 = m_pendingInterestTable s /\
    map fst (newEvents (putData data) s1) = map fst (newEvents (putData data) s) /\
    outcome poll s1 = Returned tt /\
    newEvents poll s1 = [] /\
    rc_records (m_pendingInterestTable s2)
      = records_erase id (rc_records (m_pendingInterestTable s)) /\
    map fst (newEvents (putData data) s2)
      = connectEffects (m_transport s)
        ++ (if (block_size (dataFrame data) <=? MAX_NDN_PACKET_SIZE)%Z
            then [TransportSend (dataFrame data)] else []).
Proof.
  intros s id data Hqueue Honly s1 s2.
  assert (Hs1 : s1 = set_ioContext [ErasePendingInterest id] s).
  { subst s1. unfold asyncRemovePendingInterest, post, modify, after. simpl.
    rewrite Hqueue. reflexivity. }
  clearbody s1.
  set (t1 := set_ioContext [] s).
  destruct (pendingInterestTable_erase_run id t1)
    as [t2 [Hrun [Hpit [_ [_ [Htransport Htrace]]]]]].
  assert (Hpoll : poll s1 = (Returned tt, t2)).
  { rewrite Hs1. unfold poll, bind, gets, modify. simpl. fold t1. exact Hrun. }
  assert (Hs2 : s2 = t2) by (subst s2; unfold after; rewrite Hpoll; reflexivity).
  clearbody s2.
  split; [rewrite Hs1; reflexivity |].
  split; [rewrite !putData_effects, Hs1; reflexivity |].
  split; [unfold outcome; rewrite Hpoll; reflexivity |].
  split; [apply newEvents_same_trace; unfold after; rewrite Hpoll; simpl;
          rewrite Htrace, Hs1; reflexivity |].
  rewrite Hs2.
  split; [rewrite Hpit; reflexivity |].
  rewrite unsolicited_effects.
  - rewrite Htransport. reflexivity.
  - rewrite Hpit. simpl. apply only_match_erased. exact Honly.
Qed.

Lemma in_loopbackCallbacks :
  forall (e : PendingInterest) (interest i : Interest) (fid : RecordId)
         (f : InterestFilterRecord) (filters : list (RecordId * InterestFilterRecord)),
    In (InvokeInterestCallback fid f i) (loopbackCallbacks e interest filters) ->
    In (fid, f) filters /\ i = interest /\ doesMatch f e = true.
Proof.
  intros e interest i fid f filters Hin. unfold loopbackCallbacks in Hin.
  apply in_map_iff in Hin. destruct Hin as [[k v] [Heq Hin]].
  apply filter_In in Hin. destruct Hin as [Hin Hmatch].
  inversion Heq; subst. auto.
Qed.

Lemma in_connectEffects : forall (state : TransportState) (eff : Effect),
  In eff (connectEffects state) -> eff = TransportConnect \/ eff = TransportResume.
Proof.
  intros state eff Hin. unfold connectEffects in Hin.
  destruct (TransportState_eqb state CLOSED); simpl in Hin; intuition auto.
Qed.

(** X14: asyncUnsetInterestFilter only posts the removal and leaves the
    filter table as it is.  Once the posted handler has run, the filter is
    never invoked again: neither an incoming Interest nor an Interest
    expressed by the application calls the callback of a filter record with
    that id. *)
Theorem unset_filter_is_not_invoked :
  forall (s : Impl) (fid : RecordId),
    let s0 := after (asyncUnsetInterestFilter fid) s in
    let s1 := after (runHandler (UnsetInterestFilter fid)) s in
    (m_interestFilterTable s0 = m_interestFilterTable s /\
     m_ioContext s0 = m_ioContext s ++ [UnsetInterestFilter fid]) /\
    rc_get fid (m_interestFilterTable s1) = None /\
    (forall (interest i : Interest) (f : InterestFilterRecord),
       ~ In (InvokeInterestCallback fid f i)
           (map fst (newEvents (processIncomingInterest interest) s1))) /\
    (forall (id : RecordId) (interest i : Interest)
            (afterSatisfied afterNacked afterTimeout : option Callback)
            (f : InterestFilterRecord),
       ~ In (InvokeInterestCallback fid f i)
           (map fst (newEvents (expressInterest id interest afterSatisfied afterNacked
                                  afterTimeout) s1))).
Proof.
  intros s fid s0 s1.
  destruct (unsetInterestFilter_run fid s) as [t1 [Hrun [Hrecs _]]].
  assert (Hs1 : s1 = t1) by (subst s1; unfold after; simpl; rewrite Hrun; reflexivity).
  assert (Hgone : forall f, ~ In (fid, f) (rc_records (m_interestFilterTable t1))).
  { intros f Hin. rewrite Hrecs in Hin. apply in_records_erase in Hin.
    destruct Hin as [_ Hneq]. apply Hneq. reflexivity. }
  split; [split; reflexivity |].
  rewrite Hs1.
  split; [unfold rc_get; rewrite Hrecs; apply records_get_erase |].
  split.
  - intros interest i f Hin.
    destruct (processIncomingInterest_full interest t1)
      as [t2 [events [Hrun2 [Hext [Hev _]]]]].
    assert (Hafter : after (processIncomingInterest interest) t1 = t2)
      by (unfold after; rewrite Hrun2; reflexivity).
    rewrite <- Hafter in Hext. rewrite (extends_newEvents _ _ _ _ Hext), Hev in Hin.
    apply in_map_iff in Hin. destruct Hin as [[k v] [Heq Hin]].
    unfold nameMatching in Hin. apply filter_In in Hin. destruct Hin as [Hin _].
    inversion Heq; subst. exact (Hgone f Hin).
  - intros id interest i afterSatisfied afterNacked afterTimeout f Hin.
    destruct (expressInterest_full id interest afterSatisfied afterNacked afterTimeout t1)
      as [t2 [events [Hrun2 [Hext [Hev _]]]]].
    assert (Hafter : after (expressInterest id interest afterSatisfied afterNacked
                              afterTimeout) t1 = t2)
      by (unfold after; rewrite Hrun2; reflexivity).
    rewrite <- Hafter in Hext. rewrite (extends_newEvents _ _ _ _ Hext), Hev in Hin.
    apply in_app_or in Hin. destruct Hin as [Hin | Hin].
    + apply in_connectEffects in Hin. destruct Hin; discriminate.
    + destruct (block_size (interestFrame interest) >? MAX_NDN_PACKET_SIZE)%Z;
        [contradiction |].
      destruct Hin as [Hin | Hin]; [discriminate |].
      apply in_loopbackCallbacks in Hin. destruct Hin as [Hin _].
      exact (Hgone f Hin).
Qed.

Lemma shutdown_keeps_tables : forall s : Impl,
  rc_records (m_pendingInterestTable (after shutdown s)) = [] /\
  m_transport (after shutdown s) = m_transport s.
Proof.
  intros [tr [pit pitId] filters [prefixes prefixesId] ctl guard timeoutEvent queue events].
  unfold shutdown, pendingInterestTable_clear, registeredPrefixTable_clear.
  unfold_monad. simpl.
  destruct pit; destruct prefixes; simpl; auto.
Qed.

(** X15: once the pending-interest table has been cleared, by
    removeAllPendingInterests or by shutdown, no callback is left to call:
    any Data put afterwards is unsolicited and goes to the transport, which
    is connected and resumed for it, and any Nack put afterwards is dropped
    without a call. *)
Theorem cleared_table_answers_nothing :
  forall s : Impl,
    let answersNothing (s1 : Impl) :=
      (forall data : Data,
         map fst (newEvents (putData data) s1)
           = connectEffects (m_transport s)
             ++ (if (block_size (dataFrame data) <=? MAX_NDN_PACKET_SIZE)%Z
                 then [TransportSend (dataFrame data)] else [])) /\
      (forall nack : Nack,
         outcome (putNack nack) s1 = Returned tt /\ newEvents (putNack nack) s1 = []) in
    answersNothing (after removeAllPendingInterests s) /\ answersNothing (after shutdown s).
Proof.
  intros s answersNothing.
  assert (Hany : forall s1 : Impl,
             rc_records (m_pendingInterestTable s1) = [] ->
             m_transport s1 = m_transport s -> answersNothing s1).
  { intros s1 Hempty Htransport. split.
    - intros data. rewrite unsolicited_effects.
      + rewrite Htransport. reflexivity.
      + rewrite Hempty. reflexivity.
    - intros nack.
      destruct (putNack_run nack s1)
        as [s' [events [connects [Hrun [Hext [Hev [_ [_ Hquiet]]]]]]]].
      rewrite Hempty in Hrun, Hev, Hquiet. simpl in Hrun, Hev, Hquiet.
      rewrite (Hquiet eq_refl) in Hev.
      split; [unfold outcome; rewrite Hrun; reflexivity |].
      assert (Hafter : after (putNack nack) s1 = s')
        by (unfold after; rewrite Hrun; reflexivity).
      rewrite <- Hafter in Hext. rewrite (extends_newEvents _ _ _ _ Hext).
      destruct events; [reflexivity | discriminate Hev]. }
  split; apply Hany.
  - unfold removeAllPendingInterests, pendingInterestTable_clear. unfold_monad. simpl.
    destruct (firesOnEmpty (rc_records (m_pendingInterestTable s)) []); reflexivity.
  - unfold removeAllPendingInterests, pendingInterestTable_clear. unfold_monad. simpl.
    destruct (firesOnEmpty (rc_records (m_pendingInterestTable s)) []); reflexivity.
  - destruct (shutdown_keeps_tables s) as [Hpit _]. exact Hpit.
  - destruct (shutdown_keeps_tables s) as [_ Htransport]. exact Htransport.
Qed.

(** *** Nacks and the destinations of an Interest *)

Lemma records_get_app_none :
  forall (T : Type) (id : RecordId) (rs rs' : list (RecordId * T)),
    records_get id rs = None -> records_get id (rs ++ rs') = records_get id rs'.
Proof.
  intros T id rs rs' Hnone. unfold records_get in *.
  induction rs as [| [k v] rs IH]; simpl in *; [reflexivity |].
  destruct (hasId id (k, v)); [discriminate Hnone | exact (IH Hnone)].
Qed.

Lemma records_get_none_iff :
  forall (T : Type) (id : RecordId) (rs : list (RecordId * T)),
    records_get id rs = None <-> (forall r, In r rs -> fst r <> id).
Proof.
  intros T id rs. unfold records_get. split.
  - intros Hnone r Hin Heq.
    destruct (find (hasId id) rs) eqn:Hfind; [discriminate Hnone |].
    pose proof (find_none _ _ Hfind r Hin) as Hr.
    unfold hasId in Hr. apply N.eqb_neq in Hr. contradiction.
  - intros Hall. destruct (find (hasId id) rs) as [r |] eqn:Hfind; [| reflexivity].
    apply find_some in Hfind. destruct Hfind as [Hin Hr].
    unfold hasId in Hr. apply N.eqb_eq in Hr. exfalso. exact (Hall r Hin Hr).
Qed.

Lemma in_nackedRecords :
  forall (nack : Nack) (r : RecordId * PendingInterest)
         (rs : list (RecordId * PendingInterest)),
    In r (nackedRecords nack rs) -> exists r0, In r0 rs /\ fst r = fst r0.
Proof.
  intros nack r rs Hin. unfold nackedRecords in Hin.
  apply in_flat_map in Hin. destruct Hin as [r0 [Hin0 Hin]].
  exists r0. split; [exact Hin0 |].
  destruct (nackMatchesEntry nack r0).
  - destruct (fst (recordNack (snd r0) nack)); [contradiction |].
    destruct Hin as [Heq | []]. subst r. reflexivity.
  - destruct Hin as [Heq | []]. subst r. reflexivity.
Qed.

Lemma records_get_nackedRecords_none :
  forall (nack : Nack) (id : RecordId) (rs : list (RecordId * PendingInterest)),
    records_get id rs = None -> records_get id (nackedRecords nack rs) = None.
Proof.
  intros nack id rs Hnone. apply records_get_none_iff. intros r Hin.
  apply in_nackedRecords in Hin. destruct Hin as [r0 [Hin0 Heq]].
  rewrite Heq. exact (proj1 (records_get_none_iff _ id rs) Hnone r0 Hin0).
Qed.

(** X16: an Interest expressed by the application is Nacked to it only when
    every destination it went to has Nacked.  When it went to the transport
    alone (no local filter matched, or the call threw on an oversized frame),
    the first matching Nack put on the face invokes its nack callback with
    that Nack and removes the entry.  When it was also looped back to local
    filters, the first Nack is only recorded and the entry stays. *)
Theorem nack_completes_after_every_destination :
  forall (id : RecordId) (interest : Interest)
         (afterSatisfied afterNacked afterTimeout : option Callback) (nack : Nack)
         (s : Impl),
    matchesInterest (n_interest nack) interest = true ->
    let entry := newAppPendingInterest interest afterSatisfied afterNacked afterTimeout in
    let oversized := (block_size (interestFrame interest) >? MAX_NDN_PACKET_SIZE)%Z in
    let destinations :=
      if oversized then 1
      else 1 + N.of_nat (List.length (loopbackCallbacks entry interest
                                        (rc_records (m_interestFilterTable s)))) in
    let s1 := after (expressInterest id interest afterSatisfied afterNacked afterTimeout) s in
    let s2 := after (putNack nack) s1 in
    let nacked := snd (recordNack (addForwarded destinations entry) nack) in
    pi_nForwarded nacked = destinations /\
    pi_nNacked nacked = 1 /\
    if destinations =? 1
    then In (InvokeNackCallback nacked nack) (map fst (newEvents (putNack nack) s1)) /\
         rc_get id (m_pendingInterestTable s2) = None
    else rc_get id (m_pendingInterestTable s2) = Some nacked.
Proof.
  intros id interest afterSatisfied afterNacked afterTimeout nack s Hmatch entry oversized
         destinations s1 s2 nacked.
  destruct (expressInterest_full id interest afterSatisfied afterNacked afterTimeout s)
    as [t1 [events [Hrun [_ [_ [Htable _]]]]]].
  cbv zeta in Htable. fold entry in Htable. fold oversized in Htable.
  fold destinations in Htable.
  assert (Hs1 : s1 = t1) by (subst s1; unfold after; rewrite Hrun; reflexivity).
  clearbody s1. subst s1.
  set (e := addForwarded destinations entry) in *.
  set (others := records_erase id (rc_records (m_pendingInterestTable s))).
  assert (Hrecs : rc_records (m_pendingInterestTable t1) = others ++ [(id, e)])
    by (rewrite Htable; reflexivity).
  assert (Hothers : records_get id (nackedRecords nack others) = None)
    by (apply records_get_nackedRecords_none, records_get_erase).
  assert (Hentry : nackMatchesEntry nack (id, e) = true) by exact Hmatch.
  destruct (putNack_run nack t1) as [t2 [ev2 [connects [Hrun2 [_ [_ [_ [Htable2 _]]]]]]]].
  assert (Hs2 : m_pendingInterestTable s2
                = mkRecordContainer
                    (nackedRecords nack others ++ nackedRecords nack [(id, e)])
                    (rc_lastId (m_pendingInterestTable t1))).
  { subst s2. unfold after. rewrite Hrun2. simpl. rewrite Htable2, Hrecs.
    unfold nackedRecords. rewrite flat_map_app. reflexivity. }
  assert (Hcounts : pi_nForwarded nacked = destinations /\ pi_nNacked nacked = 1).
  { subst nacked e entry. simpl. split; lia. }
  split; [apply Hcounts |]. split; [apply Hcounts |].
  assert (Hcompletes : fst (recordNack e nack)
                       = if destinations =? 1 then Some nack else None).
  { subst e entry. unfold recordNack. simpl.
    destruct (destinations =? 1) eqn:Hone.
    - apply N.eqb_eq in Hone. rewrite Hone. reflexivity.
    - apply N.eqb_neq in Hone.
      assert (Hlt : (1 <? destinations) = true).
      { apply N.ltb_lt. subst destinations. destruct oversized; lia. }
      rewrite Hlt. reflexivity. }
  destruct (destinations =? 1) eqn:Hone.
  - split.
    + rewrite putNack_effects, Hrecs. apply in_or_app. left.
      unfold nackCallbacks. rewrite flat_map_app. apply in_or_app. right.
      cbn [flat_map]. unfold completion. rewrite Hentry. cbn [snd]. rewrite Hcompletes.
      change (isApp (pi_origin e)) with true. cbn iota.
      left. reflexivity.
    + unfold rc_get. rewrite Hs2. cbn [rc_records].
      rewrite (records_get_app_none _ _ _ _ Hothers).
      unfold nackedRecords. cbn [flat_map]. rewrite Hentry. cbn [snd fst].
      rewrite Hcompletes. reflexivity.
  - unfold rc_get. rewrite Hs2. cbn [rc_records].
    rewrite (records_get_app_none _ _ _ _ Hothers).
    unfold nackedRecords. cbn [flat_map]. rewrite Hentry. cbn [snd fst].
    rewrite Hcompletes. cbn [app].
    unfold records_get. cbn [find]. unfold hasId. cbn [fst]. rewrite N.eqb_refl.
    reflexivity.
Qed.

(** *** What goes on the wire *)

Lemma loopbackCallbacks_no_frames :
  forall (e : PendingInterest) (interest : Interest)
         (filters : list (RecordId * InterestFilterRecord)),
    framesOf (loopbackCallbacks e interest filters) = [].
Proof.
  intros e interest filters. unfold loopbackCallbacks, framesOf.
  induction filters as [| r filters IH]; [reflexivity |].
  cbn [filter]. destruct (doesMatch (snd r) e); [cbn [map flat_map app] |]; exact IH.
Qed.

Lemma connectEffects_no_frames : forall state : TransportState,
  framesOf (connectEffects state) = [].
Proof.
  intros state. destruct state; reflexivity.
Qed.

Lemma expressInterest_sentFrames :
  forall (id : RecordId) (interest : Interest)
         (afterSatisfied afterNacked afterTimeout : option Callback) (s : Impl),
    sentFrames (newEvents (expressInterest id interest afterSatisfied afterNacked
                             afterTimeout) s)
    = if (block_size (interestFrame interest) <=? MAX_NDN_PACKET_SIZE)%Z
      then [interestFrame interest] else [].
Proof.
  intros id interest afterSatisfied afterNacked afterTimeout s.
  destruct (expressInterest_full id interest afterSatisfied afterNacked afterTimeout s)
    as [s' [events [Hrun [Hext [Hev _]]]]].
  assert (Hafter : after (expressInterest id interest afterSatisfied afterNacked
                            afterTimeout) s = s')
    by (unfold after; rewrite Hrun; reflexivity).
  rewrite <- Hafter in Hext. rewrite (extends_newEvents _ _ _ _ Hext).
  unfold sentFrames. rewrite Hev, framesOf_app, connectEffects_no_frames.
  rewrite <- negb_gtb_leb.
  destruct (block_size (interestFrame interest) >? MAX_NDN_PACKET_SIZE)%Z;
    [reflexivity |].
  change (TransportSend (interestFrame interest)
          :: loopbackCallbacks
               (newAppPendingInterest interest afterSatisfied afterNacked afterTimeout)
               interest (rc_records (m_interestFilterTable s)))
    with ([TransportSend (interestFrame interest)]
          ++ loopbackCallbacks
               (newAppPendingInterest interest afterSatisfied afterNacked afterTimeout)
               interest (rc_records (m_interestFilterTable s))).
  rewrite framesOf_app, loopbackCallbacks_no_frames. reflexivity.
Qed.

(** X24: what expressInterest, putData and putNack hand to the transport is
    framed by the packet's link-protocol tags.  A packet without tags is sent
    bare; with a tag it is sent as an NDNLP packet whose header fields come in
    the order the send path adds them, followed by the Fragment that holds the
    packet's own encoding.  expressInterest adds NextHopFaceId and
    CongestionMark (the IncomingFaceId tag is never sent), putData CachePolicy
    and CongestionMark, and putNack always sends an NDNLP packet that starts
    with the Nack header of the Nack it gives out.  In each case the frame is
    sent only when its size is within MAX_NDN_PACKET_SIZE, and putData and
    putNack send only when the pending-interest table tells them to. *)
Theorem send_paths_frame_packets_by_their_tags :
  forall s : Impl,
    let optional (V : Type) (field : V -> LpField) (tag : option V) : list LpField :=
      match tag with Some v => [field v] | None => [] end in
    let framed (header : list LpField) (wire : Block) : Block :=
      match header with
      | [] => wire
      | _ :: _ => lp_wireEncode (header ++ [FragmentField wire])
      end in
    let sent (frame : Block) : list Block :=
      if (block_size frame <=? MAX_NDN_PACKET_SIZE)%Z then [frame] else [] in
    let recs := rc_records (m_pendingInterestTable s) in
    (forall (id : RecordId) (interest : Interest)
            (afterSatisfied afterNacked afterTimeout : option Callback),
       sentFrames (newEvents (expressInterest id interest afterSatisfied afterNacked
                                afterTimeout) s)
         = sent (framed (optional N NextHopFaceIdField (i_nextHopFaceIdTag interest)
                         ++ optional N CongestionMarkField (i_congestionMarkTag interest))
                   (interest_wireEncode interest))) /\
    (forall data : Data,
       sentFrames (newEvents (putData data) s)
         = if hasForwarderMatch data recs || negb (hasAppMatch data recs)
           then sent (framed (optional CachePolicyType CachePolicyField
                                (d_cachePolicyTag data)
                              ++ optional N CongestionMarkField (d_congestionMarkTag data))
                        (data_wireEncode data))
           else []) /\
    (forall nack : Nack,
       sentFrames (newEvents (putNack nack) s)
         = match last (map Some (forwarderNacks nack recs)) None with
           | Some n =>
               sent (lp_wireEncode
                       (NackField (n_header n)
                        :: optional N CongestionMarkField (n_congestionMarkTag n)
                        ++ [FragmentField (interest_wireEncode (n_interest n))]))
           | None => []
           end).
Proof.
  intros s optional framed sent recs. split; [| split].
  - intros id interest afterSatisfied afterNacked afterTimeout.
    rewrite expressInterest_sentFrames.
    unfold interestFrame, finalWire, interestLpPacket, addFieldFromTag, lp_add.
    subst sent framed optional.
    destruct (i_nextHopFaceIdTag interest); destruct (i_congestionMarkTag interest);
      reflexivity.
  - intros data.
    rewrite putData_sentFrames. cbv zeta. fold recs.
    unfold dataLpPacket, finalWire, addFieldFromTag, lp_add.
    subst sent framed optional.
    destruct (hasForwarderMatch data recs || negb (hasAppMatch data recs));
      [| reflexivity].
    destruct (d_cachePolicyTag data); destruct (d_congestionMarkTag data); reflexivity.
  - intros nack.
    rewrite putNack_sentFrames. cbv zeta. fold recs.
    destruct (last (map Some (forwarderNacks nack recs)) None) as [n |]; [| reflexivity].
    unfold nackFrame, finalWire, nackLpPacket, addFieldFromTag, lp_add.
    subst sent optional.
    destruct (n_congestionMarkTag n); reflexivity.
Qed.

(** *** Entries that a packet does not concern *)

Lemma records_get_filter_kept :
  forall (T : Type) (id : RecordId) (e : T) (keep : RecordId * T -> bool)
         (rs : list (RecordId * T)),
    records_get id rs = Some e ->
    (forall k, keep (k, e) = true) ->
    records_get id (filter keep rs) = Some e.
Proof.
  intros T id e keep rs Hget Hkeep. unfold records_get in *.
  induction rs as [| [k v] rs IH]; [discriminate Hget |].
  assert (Hkv : hasId id (k, v) = (k =? id)) by reflexivity.
  cbn [find filter] in *. rewrite Hkv in Hget.
  destruct (k =? id) eqn:Hk.
  - cbn [option_map snd] in Hget. inversion Hget; subst v.
    rewrite Hkeep. cbn [find]. rewrite Hkv. reflexivity.
  - destruct (keep (k, v)); [cbn [find]; rewrite Hkv |]; exact (IH Hget).
Qed.

Lemma records_get_nackedRecords_kept :
  forall (nack : Nack) (id : RecordId) (e : PendingInterest)
         (rs : list (RecordId * PendingInterest)),
    records_get id rs = Some e ->
    matchesInterest (n_interest nack) (pi_interest e) = false ->
    records_get id (nackedRecords nack rs) = Some e.
Proof.
  intros nack id e rs Hget Hno. unfold records_get in *.
  induction rs as [| [k v] rs IH]; [discriminate Hget |].
  assert (Hkv : forall w : PendingInterest, hasId id (k, w) = (k =? id)) by reflexivity.
  unfold nackedRecords. cbn [find flat_map] in *. fold (nackedRecords nack rs).
  rewrite Hkv in Hget.
  destruct (k =? id) eqn:Hk.
  - cbn [option_map snd] in Hget. inversion Hget; subst v.
    unfold nackMatchesEntry. cbn [snd]. rewrite Hno.
    cbn [app find]. rewrite Hkv. reflexivity.
  - destruct (nackMatchesEntry nack (k, v)).
    + destruct (fst (recordNack (snd (k, v)) nack)).
      * exact (IH Hget).
      * cbn [app find fst]. rewrite Hkv. exact (IH Hget).
    + cbn [app find]. rewrite Hkv. exact (IH Hget).
Qed.

(** X25: putData and putNack leave alone every pending entry that the packet
    does not concern: an entry whose Interest the Data does not satisfy, or
    that the Nack's Interest does not match, is found under its id afterwards
    exactly as it was, whether the call returns or throws. *)
Theorem unrelated_entries_are_untouched :
  forall (s : Impl) (id : RecordId) (e : PendingInterest),
    rc_get id (m_pendingInterestTable s) = Some e ->
    (forall data : Data,
       matchesData (pi_interest e) data = false ->
       rc_get id (m_pendingInterestTable (after (putData data) s)) = Some e) /\
    (forall nack : Nack,
       matchesInterest (n_interest nack) (pi_interest e) = false ->
       rc_get id (m_pendingInterestTable (after (putNack nack) s)) = Some e).
Proof.
  intros s id e Hget. split.
  - intros data Hno.
    destruct (putData_run data s) as [s' [events [connects [Hrun [_ [_ [_ Htable]]]]]]].
    unfold after. rewrite Hrun. cbn [snd]. rewrite Htable. unfold rc_get. cbn [rc_records].
    apply records_get_filter_kept; [exact Hget |].
    intros k. unfold matchesEntry. cbn [snd]. rewrite Hno. reflexivity.
  - intros nack Hno.
    destruct (putNack_run nack s) as [s' [events [connects [Hrun [_ [_ [_ [Htable _]]]]]]]].
    unfold after. rewrite Hrun. cbn [snd]. rewrite Htable. unfold rc_get. cbn [rc_records].
    apply records_get_nackedRecords_kept; [exact Hget | exact Hno].
Qed.

End Composition.

(** ** Registration reply of the dummy face, continued *)

(** X17: the registration-reply handler posts a reply exactly when the
    Interest is a command it can read: the name has more than four components,
    is under /localhost/nfd/rib, and the argument decodes - the application
    parameters as a prefix announcement for the announce verb, the fifth name
    component as ControlParameters for any other verb.  It returns without a
    reply exactly when the name has at most four components or is not under
    /localhost/nfd/rib; for a name that passes, a decoder that throws ends
    the handler with no reply posted.  Every reply is a Data named like the
    Interest that carries a ControlResponse with code 200 and a body. *)
Theorem registration_reply_only_for_rib_commands :
  forall (codec : Codec) (faceId : N) (interest : Interest),
    let name := i_name interest in
    let unaddressed : Prop :=
      (List.length name <= 4)%nat \/ isPrefixOf localhostRibPrefix name = false in
    let decodes : Prop :=
      if String.eqb (component_at name 3) announceVerb
      then decodePrefixAnnouncement (i_applicationParameters interest) <> None
      else decodeControlParameters (component_at name 4) <> None in
    ((exists data : RegistrationReply, enableRegistrationReply faceId interest = Reply data)
     <-> ~ unaddressed /\ decodes) /\
    (enableRegistrationReply faceId interest = NoReply <-> unaddressed) /\
    (enableRegistrationReply faceId interest = DecodeError <-> ~ unaddressed /\ ~ decodes) /\
    (forall data : RegistrationReply,
       enableRegistrationReply faceId interest = Reply data ->
       reply_name data = name /\
       resp_code (reply_response data) = 200 /\
       resp_body (reply_response data) <> None).
Proof.
  intros codec faceId interest name unaddressed decodes.
  assert (Hsilent : (List.length name <=? 4)%nat
                    || negb (isPrefixOf localhostRibPrefix name) = true <-> unaddressed).
  { unfold unaddressed. rewrite orb_true_iff, Nat.leb_le, negb_true_iff. reflexivity. }
  unfold enableRegistrationReply. fold name.
  destruct ((List.length name <=? 4)%nat || negb (isPrefixOf localhostRibPrefix name))
    eqn:Hname.
  - assert (Hun : unaddressed) by (apply Hsilent; reflexivity).
    split; [| split; [| split]].
    + split; [intros [data Hreply]; discriminate Hreply |].
      intros [Hno _]. contradiction.
    + split; [intros _; exact Hun | reflexivity].
    + split; [discriminate |]. intros [Hno _]. contradiction.
    + intros data Hreply. discriminate Hreply.
  - assert (Hadd : ~ unaddressed).
    { intros Hun. apply Hsilent in Hun. discriminate Hun. }
    subst decodes.
    destruct (String.eqb (component_at name 3) announceVerb).
    + destruct (decodePrefixAnnouncement (i_applicationParameters interest)) as [pa |];
        cbn [option_map].
      * split; [| split; [| split]].
        -- split; [intros _; split; [exact Hadd | discriminate] |].
           intros _. eexists. reflexivity.
        -- split; [discriminate | intros Hun; contradiction].
        -- split; [discriminate |]. intros [_ Hno]. exfalso. apply Hno. discriminate.
        -- intros data Hreply. inversion Hreply; subst data. cbn.
           split; [reflexivity |]. split; [reflexivity | discriminate].
      * split; [| split; [| split]].
        -- split; [intros [data Hreply]; discriminate Hreply |].
           intros [_ Hyes]. exfalso. apply Hyes. reflexivity.
        -- split; [discriminate | intros Hun; contradiction].
        -- split; [intros _; split; [exact Hadd |]; intros Hyes; apply Hyes; reflexivity
                  | reflexivity].
        -- intros data Hreply. discriminate Hreply.
    + destruct (decodeControlParameters (component_at name 4)) as [params |];
        cbn [option_map].
      * split; [| split; [| split]].
        -- split; [intros _; split; [exact Hadd | discriminate] |].
           intros _. eexists. reflexivity.
        -- split; [discriminate | intros Hun; contradiction].
        -- split; [discriminate |]. intros [_ Hno]. exfalso. apply Hno. discriminate.
        -- intros data Hreply. inversion Hreply; subst data. cbn.
           split; [reflexivity |]. split; [reflexivity | discriminate].
      * split; [| split; [| split]].
        -- split; [intros [data Hreply]; discriminate Hreply |].
           intros [_ Hyes]. exfalso. apply Hyes. reflexivity.
        -- split; [discriminate | intros Hun; contradiction].
        -- split; [intros _; split; [exact Hadd |]; intros Hyes; apply Hyes; reflexivity
                  | reflexivity].
        -- intros data Hreply. discriminate Hreply.
Qed.

(** X18: for a command under /localhost/nfd/rib other than announce, whose
    parameters decode, the reply echoes the parameters and fills in only what
    is missing: a supplied face id, origin or cost is kept, a missing face id
    becomes the configured one, a missing origin becomes APP, and a missing
    cost becomes 0 for the register verb and stays absent for any other verb.
    Completing the completed parameters again, with whatever face id,
    changes nothing. *)
Theorem command_reply_fills_missing_fields :
  forall (codec : Codec) (faceId : N) (interest : Interest) (params : ControlParameters),
    (4 < List.length (i_name interest))%nat ->
    isPrefixOf localhostRibPrefix (i_name interest) = true ->
    component_at (i_name interest) 3 <> announceVerb ->
    decodeControlParameters (component_at (i_name interest) 4) = Some params ->
    exists reply : ControlParameters,
      enableRegistrationReply faceId interest
        = Reply (mkRegistrationReply (i_name interest)
                   (mkControlResponse 200 EmptyString (Some reply))) /\
      cp_name reply = cp_name params /\
      cp_flags reply = cp_flags params /\
      cp_expirationPeriod reply = cp_expirationPeriod params /\
      cp_faceId reply
        = Some (match cp_faceId params with Some v => v | None => faceId end) /\
      cp_origin reply
        = Some (match cp_origin params with Some v => v | None => ROUTE_ORIGIN_APP end) /\
      cp_cost reply
        = match cp_cost params with
          | Some v => Some v
          | None =>
              if String.eqb (component_at (i_name interest) 3) registerVerb then Some 0
              else None
          end /\
      (forall faceId' : N, commandParameters faceId' (i_name interest) reply = reply).
Proof.
  intros codec faceId interest params Hsize Hprefix Hverb Hdecode.
  exists (commandParameters faceId (i_name interest) params).
  split.
  - unfold enableRegistrationReply.
    apply Nat.leb_gt in Hsize. rewrite Hsize, Hprefix. cbn [orb negb].
    apply String.eqb_neq in Hverb. rewrite Hverb, Hdecode. reflexivity.
  - unfold commandParameters, hasFaceId, hasOrigin, hasCost.
    destruct params as [name face origin cost flags expiration].
    destruct face; destruct origin; destruct cost;
      destruct (String.eqb (component_at (i_name interest) 3) registerVerb) eqn:Hregister;
      simpl; rewrite ?Hregister; repeat split.
Qed.

(** ** Broadcast links *)

Lemma linkTo_pointers :
  forall (this other : FacePtr) (w w' : LinkWorld),
    linkTo this other w = LinkReturned w' ->
    exists l : LinkPtr,
      w_bcastLink w' this = Some l /\
      w_bcastLink w' other = Some l /\
      (forall f : FacePtr, f <> this -> f <> other -> w_bcastLink w' f = w_bcastLink w f) /\
      (forall f : FacePtr, w_bcastLink w f <> None -> w_bcastLink w' f = w_bcastLink w f).
Proof.
  intros this other w w' Hlink. unfold linkTo in Hlink.
  destruct (w_bcastLink w this) as [l1 |] eqn:Hthis;
    destruct (w_bcastLink w other) as [l2 |] eqn:Hother.
  - destruct (N.eqb_spec l1 l2) as [Heq | Hneq]; simpl in Hlink; [| discriminate Hlink].
    inversion Hlink; subst. exists l2. repeat split; auto.
  - inversion Hlink; subst; clear Hlink. exists l1. simpl. unfold setBcastLink.
    repeat split.
    + destruct (N.eqb_spec this other); [reflexivity | exact Hthis].
    + rewrite N.eqb_refl. reflexivity.
    + intros f _ Hf. destruct (N.eqb_spec f other); [contradiction | reflexivity].
    + intros f Hf. destruct (N.eqb_spec f other); [subst; contradiction | reflexivity].
  - inversion Hlink; subst; clear Hlink. exists l2. simpl. unfold setBcastLink.
    repeat split.
    + rewrite N.eqb_refl. reflexivity.
    + destruct (N.eqb_spec other this); [reflexivity | exact Hother].
    + intros f Hf _. destruct (N.eqb_spec f this); [contradiction | reflexivity].
    + intros f Hf. destruct (N.eqb_spec f this); [subst; contradiction | reflexivity].
  - inversion Hlink; subst; clear Hlink. exists (w_nextLink w). simpl. unfold setBcastLink.
    repeat split.
    + rewrite N.eqb_refl. reflexivity.
    + rewrite N.eqb_refl. destruct (other =? this); reflexivity.
    + intros f Hf1 Hf2.
      destruct (N.eqb_spec f this); [contradiction |].
      destruct (N.eqb_spec f other); [contradiction | reflexivity].
    + intros f Hf.
      destruct (N.eqb_spec f this); [subst; contradiction |].
      destruct (N.eqb_spec f other); [subst; contradiction | reflexivity].
Qed.

(** X19: linkTo throws AlreadyLinkedError exactly when both faces are on
    links and the links differ; nothing is changed then.  In every other case
    it returns with both faces on one and the same link; a face that was on a
    link is still on that link, and the faces other than the two keep the
    link they had. *)
Theorem linkTo_joins_or_refuses :
  forall (this other : FacePtr) (w : LinkWorld),
    match linkTo this other w with
    | AlreadyLinkedError =>
        exists l1 l2 : LinkPtr,
          w_bcastLink w this = Some l1 /\ w_bcastLink w other = Some l2 /\ l1 <> l2
    | LinkReturned w' =>
        ~ (exists l1 l2 : LinkPtr,
             w_bcastLink w this = Some l1 /\ w_bcastLink w other = Some l2 /\ l1 <> l2) /\
        exists l : LinkPtr,
          w_bcastLink w' this = Some l /\
          w_bcastLink w' other = Some l /\
          (forall f : FacePtr,
             f <> this -> f <> other -> w_bcastLink w' f = w_bcastLink w f) /\
          (forall f : FacePtr,
             w_bcastLink w f <> None -> w_bcastLink w' f = w_bcastLink w f)
    | AssertionFailure | NullDereference => False
    end.
Proof.
  intros this other w.
  destruct (linkTo this other w) as [w' | | |] eqn:Hlink.
  - split; [| exact (linkTo_pointers this other w w' Hlink)].
    intros [l1 [l2 [Hthis [Hother Hneq]]]].
    unfold linkTo in Hlink. rewrite Hthis, Hother in Hlink.
    apply N.eqb_neq in Hneq. rewrite Hneq in Hlink. discriminate Hlink.
  - unfold linkTo in Hlink.
    destruct (w_bcastLink w this) as [l1 |]; destruct (w_bcastLink w other) as [l2 |];
      try discriminate Hlink.
    exists l1, l2. repeat split.
    destruct (N.eqb_spec l1 l2); [discriminate Hlink | assumption].
  - unfold linkTo in Hlink.
    destruct (w_bcastLink w this) as [l1 |]; destruct (w_bcastLink w other) as [l2 |];
      try discriminate Hlink.
    destruct (negb (l1 =? l2)); discriminate Hlink.
  - unfold linkTo in Hlink.
    destruct (w_bcastLink w this) as [l1 |]; destruct (w_bcastLink w other) as [l2 |];
      try discriminate Hlink.
    destruct (negb (l1 =? l2)); discriminate Hlink.
Qed.

Lemma unlinked_not_in_faces :
  forall (w : LinkWorld) (f : FacePtr) (l : LinkPtr),
    linksWellFormed w -> w_bcastLink w f = None -> ~ In f (w_faces w l).
Proof.
  intros w f l [_ [Hmember _]] Hnone Hin.
  rewrite (Hmember l f Hin) in Hnone. discriminate Hnone.
Qed.

Lemma join_wellFormed :
  forall (w : LinkWorld) (joining member : FacePtr) (l : LinkPtr),
    linksWellFormed w ->
    w_bcastLink w joining = None ->
    w_bcastLink w member = Some l ->
    linksWellFormed
      (mkLinkWorld (setBcastLink joining (Some l) (w_bcastLink w))
         (setFaces l (w_faces w l ++ [joining]) (w_faces w)) (w_nextLink w)).
Proof.
  intros w joining member l Hwf Hnone Hmember.
  pose proof (unlinked_not_in_faces w joining l Hwf Hnone) as Hfresh.
  destruct Hwf as [Hpoints [Hback [Hnodup Hsize]]].
  unfold linksWellFormed, setBcastLink, setFaces. simpl.
  split; [| split; [| split]].
  - intros f l' Hf.
    destruct (N.eqb_spec f joining) as [-> | Hneq].
    + inversion Hf; subst l'. rewrite N.eqb_refl.
      split; [apply in_or_app; right; left; reflexivity |].
      exact (proj2 (Hpoints member l Hmember)).
    + destruct (Hpoints f l' Hf) as [Hin Hlt]. split; [| exact Hlt].
      destruct (N.eqb_spec l' l) as [-> | _]; [apply in_or_app; left |]; exact Hin.
  - intros l' f Hin.
    destruct (N.eqb_spec l' l) as [-> | Hl].
    + apply in_app_or in Hin. destruct Hin as [Hin | [<- | []]].
      * destruct (N.eqb_spec f joining) as [_ | _]; [reflexivity | exact (Hback l f Hin)].
      * rewrite N.eqb_refl. reflexivity.
    + destruct (N.eqb_spec f joining) as [-> | _].
      * rewrite (Hback l' joining Hin) in Hnone. discriminate Hnone.
      * exact (Hback l' f Hin).
  - intros l'. destruct (N.eqb_spec l' l) as [-> | _]; [| apply Hnodup].
    apply NoDup_app; [apply Hnodup | constructor; [intros [] | constructor] |].
    intros f Hin [<- | []]. exact (Hfresh Hin).
  - intros l'. destruct (N.eqb_spec l' l) as [-> | _]; [| apply Hsize].
    rewrite length_app. simpl.
    destruct (Hpoints member l Hmember) as [Hin _].
    destruct (w_faces w l); [contradiction | simpl; lia].
Qed.

Lemma fresh_link_wellFormed :
  forall (w : LinkWorld) (this other : FacePtr),
    linksWellFormed w ->
    this <> other ->
    w_bcastLink w this = None ->
    w_bcastLink w other = None ->
    linksWellFormed
      (mkLinkWorld
         (setBcastLink this (Some (w_nextLink w))
            (setBcastLink other (Some (w_nextLink w)) (w_bcastLink w)))
         (setFaces (w_nextLink w) [this; other] (w_faces w)) (w_nextLink w + 1)).
Proof.
  intros w this other Hwf Hneq Hthis Hother.
  destruct Hwf as [Hpoints [Hback [Hnodup Hsize]]].
  unfold linksWellFormed, setBcastLink, setFaces. simpl.
  split; [| split; [| split]].
  - intros f l' Hf.
    destruct (N.eqb_spec f this) as [-> | Hf1].
    + inversion Hf; subst l'. rewrite N.eqb_refl.
      split; [left; reflexivity | lia].
    + destruct (N.eqb_spec f other) as [-> | Hf2].
      * inversion Hf; subst l'. rewrite N.eqb_refl.
        split; [right; left; reflexivity | lia].
      * destruct (Hpoints f l' Hf) as [Hin Hlt].
        destruct (N.eqb_spec l' (w_nextLink w)) as [-> | _]; [lia |].
        split; [exact Hin | lia].
  - intros l' f Hin.
    destruct (N.eqb_spec l' (w_nextLink w)) as [-> | Hl].
    + destruct Hin as [<- | [<- | []]].
      * rewrite N.eqb_refl. reflexivity.
      * rewrite N.eqb_refl. destruct (other =? this); reflexivity.
    + destruct (N.eqb_spec f this) as [-> | _].
      * rewrite (Hback l' this Hin) in Hthis. discriminate Hthis.
      * destruct (N.eqb_spec f other) as [-> | _].
        -- rewrite (Hback l' other Hin) in Hother. discriminate Hother.
        -- exact (Hback l' f Hin).
  - intros l'. destruct (N.eqb_spec l' (w_nextLink w)) as [-> | _]; [| apply Hnodup].
    constructor; [intros [Heq | []]; apply Hneq; symmetry; exact Heq |].
    constructor; [intros [] | constructor].
  - intros l'. destruct (N.eqb_spec l' (w_nextLink w)) as [-> | _]; [| apply Hsize].
    simpl. lia.
Qed.

Lemma linkTo_wellFormed :
  forall (this other : FacePtr) (w w' : LinkWorld),
    linksWellFormed w -> this <> other ->
    linkTo this other w = LinkReturned w' -> linksWellFormed w'.
Proof.
  intros this other w w' Hwf Hneq Hlink. unfold linkTo in Hlink.
  destruct (w_bcastLink w this) as [l1 |] eqn:Hthis;
    destruct (w_bcastLink w other) as [l2 |] eqn:Hother.
  - destruct (negb (l1 =? l2)); [discriminate Hlink |].
    inversion Hlink; subst. exact Hwf.
  - inversion Hlink; subst. exact (join_wellFormed w other this l1 Hwf Hother Hthis).
  - inversion Hlink; subst. exact (join_wellFormed w this other l2 Hwf Hthis Hother).
  - inversion Hlink; subst. exact (fresh_link_wellFormed w this other Hwf Hneq Hthis Hother).
Qed.

Lemma in_broadcastReceivers :
  forall (w : LinkWorld) (this f : FacePtr),
    linksWellFormed w ->
    (In f (broadcastReceivers this w) <->
     f <> this /\ w_bcastLink w this <> None /\ w_bcastLink w f = w_bcastLink w this).
Proof.
  intros w this f [Hpoints [Hback _]]. unfold broadcastReceivers.
  destruct (w_bcastLink w this) as [l |] eqn:Hthis.
  - rewrite filter_In. split.
    + intros [Hin Hother]. apply negb_true_iff, N.eqb_neq in Hother.
      split; [exact Hother |]. split; [discriminate | exact (Hback l f Hin)].
    + intros [Hneq [_ Hf]]. split; [exact (proj1 (Hpoints f l Hf)) |].
      apply negb_true_iff, N.eqb_neq. exact Hneq.
  - split; [intros [] |]. intros [_ [Hsome _]]. apply Hsome. reflexivity.
Qed.

(** X20: linking two different faces keeps the links well formed: every face
    is in the vector of the link it points to and in no other, no vector
    holds a face twice, and none holds a single face.  After the call each
    of the two faces receives what the other sends. *)
Theorem linkTo_preserves_wellFormed :
  forall (this other : FacePtr) (w w' : LinkWorld),
    linksWellFormed w ->
    this <> other ->
    linkTo this other w = LinkReturned w' ->
    linksWellFormed w' /\
    In other (broadcastReceivers this w') /\
    In this (broadcastReceivers other w').
Proof.
  intros this other w w' Hwf Hneq Hlink.
  pose proof (linkTo_wellFormed this other w w' Hwf Hneq Hlink) as Hwf'.
  destruct (linkTo_pointers this other w w' Hlink) as [l [Hthis [Hother _]]].
  split; [exact Hwf' |].
  split; apply in_broadcastReceivers; try exact Hwf'.
  - split; [apply not_eq_sym; exact Hneq |].
    rewrite Hthis, Hother. split; [discriminate | reflexivity].
  - split; [exact Hneq |].
    rewrite Hthis, Hother. split; [discriminate | reflexivity].
Qed.

(** X21: the packets a face sends reach exactly the other faces on its link:
    never the sender itself, each receiver once, and nobody when the face is
    on no link.  Reception is mutual: a face receives from those that receive
    from it. *)
Theorem broadcast_reaches_the_other_faces_of_the_link :
  forall (w : LinkWorld) (this : FacePtr),
    linksWellFormed w ->
    (forall f : FacePtr,
       In f (broadcastReceivers this w) <->
       f <> this /\ w_bcastLink w this <> None /\ w_bcastLink w f = w_bcastLink w this) /\
    NoDup (broadcastReceivers this w) /\
    (forall f : FacePtr,
       In f (broadcastReceivers this w) <-> In this (broadcastReceivers f w)).
Proof.
  intros w this Hwf.
  split; [intros f; apply in_broadcastReceivers; exact Hwf |].
  split.
  - unfold broadcastReceivers. destruct (w_bcastLink w this) as [l |]; [| constructor].
    apply NoDup_filter. apply Hwf.
  - intros f. rewrite !in_broadcastReceivers by exact Hwf. split.
    + intros [Hneq [Hsome Heq]].
      split; [apply not_eq_sym; exact Hneq |].
      split; [rewrite Heq; exact Hsome | symmetry; exact Heq].
    + intros [Hneq [Hsome Heq]].
      split; [apply not_eq_sym; exact Hneq |].
      split; [rewrite Heq; exact Hsome | symmetry; exact Heq].
Qed.

Lemma eraseFirst_found : forall (face : FacePtr) (faces : list FacePtr),
  In face faces -> exists faces', eraseFirst face faces = Some faces'.
Proof.
  intros face faces. induction faces as [| f faces IH]; intros Hin; [contradiction |].
  simpl. destruct (N.eqb_spec f face) as [_ | Hneq]; [eexists; reflexivity |].
  destruct Hin as [Heq | Hin]; [contradiction |].
  destruct (IH Hin) as [faces' Hfaces']. rewrite Hfaces'. eexists. reflexivity.
Qed.

Lemma eraseFirst_NoDup :
  forall (face : FacePtr) (faces faces' : list FacePtr),
    NoDup faces -> eraseFirst face faces = Some faces' ->
    NoDup faces' /\
    (forall f, In f faces' <-> In f faces /\ f <> face) /\
    List.length faces = S (List.length faces').
Proof.
  intros face faces. induction faces as [| f faces IH]; intros faces' Hnodup Herase;
    [discriminate Herase |].
  simpl in Herase. inversion Hnodup as [| ? ? Hfresh Hrest]; subst.
  destruct (N.eqb_spec f face) as [-> | Hneq].
  - inversion Herase; subst. split; [exact Hrest |]. split; [| reflexivity].
    intros g. split.
    + intros Hin. split; [right; exact Hin |]. intros ->. contradiction.
    + intros [[Heq | Hin] Hg]; [symmetry in Heq; contradiction | exact Hin].
  - destruct (eraseFirst face faces) as [rest |] eqn:Hrec; [| discriminate Herase].
    inversion Herase; subst. destruct (IH rest Hrest eq_refl) as [Hnd [Hmem Hlen]].
    split; [| split].
    + constructor; [| exact Hnd]. intros Hin. apply Hmem in Hin. destruct Hin. contradiction.
    + intros g. simpl. rewrite Hmem. split.
      * intros [<- | [Hin Hg]]; [split; [left; reflexivity | exact Hneq] |].
        split; [right; exact Hin | exact Hg].
      * intros [[Heq | Hin] Hg]; [left; exact Heq | right; split; assumption].
    + simpl. rewrite Hlen. reflexivity.
Qed.

Lemma unlink_wellFormed :
  forall (this : FacePtr) (w : LinkWorld),
    linksWellFormed w ->
    exists w' : LinkWorld,
      unlink this w = LinkReturned w' /\
      linksWellFormed w' /\
      w_bcastLink w' this = None /\
      (forall f : FacePtr, w_bcastLink w' f = None \/ w_bcastLink w' f = w_bcastLink w f).
Proof.
  intros this w Hwf. unfold unlink.
  destruct (w_bcastLink w this) as [l |] eqn:Hthis.
  2: { exists w. split; [reflexivity |]. split; [exact Hwf |].
       split; [exact Hthis | intros f; right; reflexivity]. }
  destruct Hwf as [Hpoints [Hback [Hnodup Hsize]]].
  destruct (Hpoints this l Hthis) as [Hin Hlt].
  destruct (eraseFirst_found this (w_faces w l) Hin) as [faces Herase].
  rewrite Herase.
  destruct (eraseFirst_NoDup this (w_faces w l) faces (Hnodup l) Herase)
    as [Hnd [Hmem Hlen]].
  destruct faces as [| last [| second faces]].
  - exfalso. apply (Hsize l). rewrite Hlen. reflexivity.
  - assert (Hlast : w_bcastLink w last = Some l /\ last <> this).
    { destruct (proj1 (Hmem last) (or_introl eq_refl)) as [Hl Hneq].
      split; [exact (Hback l last Hl) | exact Hneq]. }
    destruct Hlast as [Hlast HlastNeq].
    assert (Honly : forall f, w_bcastLink w f = Some l -> f = this \/ f = last).
    { intros f Hf. destruct (N.eq_dec f this) as [-> | Hneq]; [left; reflexivity |].
      right. pose proof (proj1 (Hpoints f l Hf)) as Hfin.
      assert (Hf' : In f [last]) by (apply Hmem; split; assumption).
      destruct Hf' as [<- | []]. reflexivity. }
    assert (Hstill : setBcastLink last None (w_bcastLink w) this = Some l).
    { unfold setBcastLink.
      destruct (N.eqb_spec this last) as [Heq | _];
        [symmetry in Heq; contradiction | exact Hthis]. }
    rewrite Hstill.
    eexists. split; [reflexivity |].
    unfold linksWellFormed, setBcastLink, setFaces. simpl.
    split; [split; [| split; [| split]] | split].
    + intros f l' Hf.
      destruct (N.eqb_spec f this) as [-> | Hf1]; [discriminate Hf |].
      destruct (N.eqb_spec f last) as [-> | Hf2]; [discriminate Hf |].
      destruct (Hpoints f l' Hf) as [Hfin Hflt]. split; [| exact Hflt].
      destruct (N.eqb_spec l' l) as [-> | _]; [| exact Hfin].
      destruct (Honly f Hf); contradiction.
    + intros l' f Hfin.
      destruct (N.eqb_spec l' l) as [-> | Hl]; [contradiction |].
      pose proof (Hback l' f Hfin) as Hf.
      destruct (N.eqb_spec f this) as [-> | _];
        [rewrite Hthis in Hf; inversion Hf; subst; contradiction |].
      destruct (N.eqb_spec f last) as [-> | _];
        [rewrite Hlast in Hf; inversion Hf; subst; contradiction |].
      exact Hf.
    + intros l'. destruct (N.eqb_spec l' l) as [-> | _]; [constructor | apply Hnodup].
    + intros l'. destruct (N.eqb_spec l' l) as [-> | _]; [simpl; lia | apply Hsize].
    + rewrite N.eqb_refl. reflexivity.
    + intros f. destruct (N.eqb_spec f this); [left; reflexivity |].
      destruct (N.eqb_spec f last); [left; reflexivity | right; reflexivity].
  - eexists. split; [reflexivity |].
    unfold linksWellFormed, setBcastLink, setFaces. simpl.
    split; [split; [| split; [| split]] | split].
    + intros f l' Hf.
      destruct (N.eqb_spec f this) as [-> | Hf1]; [discriminate Hf |].
      destruct (Hpoints f l' Hf) as [Hfin Hflt]. split; [| exact Hflt].
      destruct (N.eqb_spec l' l) as [-> | _]; [| exact Hfin].
      apply Hmem. split; assumption.
    + intros l' f Hfin.
      destruct (N.eqb_spec l' l) as [-> | Hl].
      * apply Hmem in Hfin. destruct Hfin as [Hfin Hneq].
        destruct (N.eqb_spec f this); [contradiction | exact (Hback l f Hfin)].
      * pose proof (Hback l' f Hfin) as Hf.
        destruct (N.eqb_spec f this) as [-> | _]; [| exact Hf].
        rewrite Hthis in Hf. inversion Hf; subst. contradiction.
    + intros l'. destruct (N.eqb_spec l' l) as [-> | _]; [exact Hnd | apply Hnodup].
    + intros l'. destruct (N.eqb_spec l' l) as [-> | _]; [simpl; lia | apply Hsize].
    + rewrite N.eqb_refl. reflexivity.
    + intros f. destruct (N.eqb_spec f this); [left; reflexivity | right; reflexivity].
Qed.

(** X22: on well-formed links unlink always finds the face in the vector of
    its link (the assertion never fails), leaves the face on no link and the
    links well formed, and moves no face to another link: a face is afterwards
    on the link it was on or on none.  The face left alone on a link of two is
    taken off it as well, so it receives nothing further. *)
Theorem unlink_preserves_wellFormed :
  forall (this : FacePtr) (w : LinkWorld),
    linksWellFormed w ->
    exists w' : LinkWorld,
      unlink this w = LinkReturned w' /\
      linksWellFormed w' /\
      w_bcastLink w' this = None /\
      broadcastReceivers this w' = [] /\
      (forall f : FacePtr, w_bcastLink w' f = None \/ w_bcastLink w' f = w_bcastLink w f) /\
      (forall other : FacePtr,
         broadcastReceivers this w = [other] -> w_bcastLink w' other = None).
Proof.
  intros this w Hwf.
  destruct (unlink_wellFormed this w Hwf) as [w' [Hrun [Hwf' [Hnone Hkept]]]].
  exists w'. split; [exact Hrun |]. split; [exact Hwf' |]. split; [exact Hnone |].
  split; [unfold broadcastReceivers; rewrite Hnone; reflexivity |].
  split; [exact Hkept |].
  intros other Honly.
  destruct (w_bcastLink w' other) as [l' |] eqn:Hother; [exfalso | reflexivity].
  destruct Hwf' as [Hpoints' [Hback' [Hnodup' Hsize']]].
  destruct (Hpoints' other l' Hother) as [Hin' _].
  assert (Hl : w_bcastLink w other = Some l').
  { destruct (Hkept other) as [Hk | Hk]; rewrite Hother in Hk;
      [discriminate Hk | symmetry; exact Hk]. }
  assert (Hrecv : In other (broadcastReceivers this w)) by (rewrite Honly; left; reflexivity).
  apply (in_broadcastReceivers w this other Hwf) in Hrecv.
  destruct Hrecv as [Hneq [_ Hsame]].
  assert (Halone : forall f, In f (w_faces w' l') -> f = other).
  { intros f Hf. pose proof (Hback' l' f Hf) as Hf'.
    destruct (N.eq_dec f other) as [-> | Hfo]; [reflexivity | exfalso].
    assert (Hfw : w_bcastLink w f = Some l').
    { destruct (Hkept f) as [Hk | Hk]; rewrite Hf' in Hk;
        [discriminate Hk | symmetry; exact Hk]. }
    assert (Hfthis : f <> this) by (intros ->; rewrite Hnone in Hf'; discriminate Hf').
    assert (Hfrecv : In f (broadcastReceivers this w)).
    { apply (in_broadcastReceivers w this f Hwf).
      split; [exact Hfthis |]. rewrite <- Hsame, Hl.
      split; [discriminate | exact Hfw]. }
    rewrite Honly in Hfrecv. destruct Hfrecv as [Heq | []]. apply Hfo. symmetry. exact Heq. }
  pose proof (Hsize' l') as Hlen. pose proof (Hnodup' l') as Hnd.
  destruct (w_faces w' l') as [| a [| b rest]]; [contradiction | |].
  - apply Hlen. reflexivity.
  - pose proof (Halone a (or_introl eq_refl)) as Ha.
    pose proof (Halone b (or_intror (or_introl eq_refl))) as Hb.
    subst a b.
    inversion Hnd as [| ? ? Hnotin _]. apply Hnotin. left. reflexivity.
Qed.

Lemma unlink_pair :
  forall (leaving last : FacePtr) (l : LinkPtr) (w : LinkWorld),
    w_bcastLink w leaving = Some l ->
    eraseFirst leaving (w_faces w l) = Some [last] ->
    last <> leaving ->
    unlink leaving w
      = LinkReturned
          (mkLinkWorld (setBcastLink leaving None (setBcastLink last None (w_bcastLink w)))
             (setFaces l [] (setFaces l [last] (w_faces w))) (w_nextLink w)).
Proof.
  intros leaving last l w Hptr Herase Hneq. unfold unlink. rewrite Hptr, Herase.
  assert (Hstill : setBcastLink last None (w_bcastLink w) leaving = Some l).
  { unfold setBcastLink.
    destruct (N.eqb_spec leaving last) as [Heq | _];
      [symmetry in Heq; contradiction | exact Hptr]. }
  rewrite Hstill. reflexivity.
Qed.

(** A face linked to itself is twice in the vector of its link.  Its unlink
    erases one occurrence, resets the link pointer of the face left in the
    vector, which is the face itself, and then reads that pointer to clear
    the vector. *)
Lemma unlink_of_self_linked_face_dereferences_null :
  forall (this : FacePtr) (w : LinkWorld),
    w_bcastLink w this = None ->
    exists w1 : LinkWorld,
      linkTo this this w = LinkReturned w1 /\
      w_faces w1 (w_nextLink w) = [this; this] /\
      unlink this w1 = NullDereference.
Proof.
  intros this w Hthis.
  eexists. split; [unfold linkTo; rewrite Hthis; reflexivity |].
  unfold unlink, setBcastLink, setFaces. cbn [w_bcastLink w_faces].
  rewrite !N.eqb_refl. cbn [eraseFirst]. rewrite !N.eqb_refl.
  split; reflexivity.
Qed.

(** X23: linking two different faces that are on no link and then unlinking
    either of them (as the destructor does) undoes the link for both: every
    face has the link pointer it had before, the vector of the link that was
    made is empty, and the other vectors are untouched. *)
Theorem linkTo_then_unlink_restores_pointers :
  forall (this other : FacePtr) (w : LinkWorld),
    this <> other ->
    w_bcastLink w this = None ->
    w_bcastLink w other = None ->
    exists w1 : LinkWorld,
      linkTo this other w = LinkReturned w1 /\
      forall leaving : FacePtr,
        leaving = this \/ leaving = other ->
        exists w2 : LinkWorld,
          unlink leaving w1 = LinkReturned w2 /\
          (forall f : FacePtr, w_bcastLink w2 f = w_bcastLink w f) /\
          w_faces w2 (w_nextLink w) = [] /\
          (forall l : LinkPtr, l <> w_nextLink w -> w_faces w2 l = w_faces w l).
Proof.
  intros this other w Hdiff Hthis Hother.
  set (l := w_nextLink w).
  set (w1 := mkLinkWorld
               (setBcastLink this (Some l) (setBcastLink other (Some l) (w_bcastLink w)))
               (setFaces l [this; other] (w_faces w)) (l + 1)).
  exists w1. split; [unfold linkTo; rewrite Hthis, Hother; reflexivity |].
  assert (Hfaces : w_faces w1 l = [this; other])
    by (unfold w1, setFaces; simpl; rewrite N.eqb_refl; reflexivity).
  assert (Hrestored : forall (leaving last f : FacePtr),
             (leaving = this /\ last = other) \/ (leaving = other /\ last = this) ->
             setBcastLink leaving None (setBcastLink last None (w_bcastLink w1)) f
             = w_bcastLink w f).
  { intros leaving last f Hwho. unfold w1, setBcastLink. simpl.
    destruct Hwho as [[-> ->] | [-> ->]];
      repeat match goal with
        | |- context [N.eqb ?a ?b] => destruct (N.eqb_spec a b); subst; try contradiction
        end;
      congruence. }
  assert (Hneq : (this =? other) = false) by (apply N.eqb_neq; exact Hdiff).
  assert (Hneq' : (other =? this) = false) by (apply N.eqb_neq; auto).
  intros leaving Hleaving.
  assert (Hpair : exists last : FacePtr,
             w_bcastLink w1 leaving = Some l /\
             eraseFirst leaving (w_faces w1 l) = Some [last] /\
             last <> leaving /\
             ((leaving = this /\ last = other) \/ (leaving = other /\ last = this))).
  { rewrite Hfaces. destruct Hleaving as [-> | ->].
    - exists other. unfold w1, setBcastLink. simpl. rewrite !N.eqb_refl.
      repeat split; auto.
    - exists this. unfold w1, setBcastLink. simpl. rewrite !N.eqb_refl, Hneq, Hneq'.
      repeat split; auto. }
  destruct Hpair as [last [Hptr [Herase [Hlast Hwho]]]].
  eexists. split; [exact (unlink_pair leaving last l w1 Hptr Herase Hlast) |]. simpl.
  split; [intros f; apply Hrestored; exact Hwho |].
  unfold setFaces. fold l. rewrite N.eqb_refl. split; [reflexivity |].
  intros l' Hl'. apply N.eqb_neq in Hl'. rewrite !Hl'. reflexivity.
Qed.

(** ** Worked examples with the concrete codec *)

#[local] Existing Instance exampleCodec.
#[local] Existing Instance exampleTransport.

(** C1, as stated, fails for an oversized Data: it matches no pending entry and
    satisfyPendingInterests returns true, yet no frame reaches the transport. *)
Lemma oversized_unsolicited_data_is_not_sent :
  existsb (matchesEntry oversizedData) (rc_records (m_pendingInterestTable newImpl)) = false /\
  outcome (satisfyPendingInterests oversizedData) newImpl = Returned true /\
  outcome (putData oversizedData) newImpl
    = Thrown (OversizedPacketError "D" ["big"%string] 8806) /\
  sentFrames (newEvents (putData oversizedData) newImpl) = [].
Proof.
  vm_compute. repeat split.
Qed.

Lemma putData_sends_when_forwarder_or_unsolicited_and_fits_witness :
  sentFrames (newEvents (putData dataAB) loopbackPending) = [] /\
  sentFrames (newEvents (putData dataAB) newImpl) = [data_wireEncode dataAB].
Proof.
  split.
  - destruct (putData_sends_when_forwarder_or_unsolicited_and_fits dataAB loopbackPending)
      as [_ [_ [H _]]].
    apply H; reflexivity.
  - destruct (putData_sends_when_forwarder_or_unsolicited_and_fits dataAB newImpl)
      as [_ [_ [_ H]]].
    apply H; [reflexivity | vm_compute; discriminate].
Defined.

(** C4, as stated, fails: the forwarder's Interest /A is satisfied by the Data
    /A/B, which is sent; the table is then empty, and the next Data for the
    same Interest, /A/C, is sent as well. *)
Lemma second_put_is_sent_as_unsolicited :
  let s1 := after (putData dataAB) oneForwarderEntry in
  sentFrames (newEvents (putData dataAB) oneForwarderEntry) = [data_wireEncode dataAB] /\
  rc_records (m_pendingInterestTable s1) = [] /\
  sentFrames (newEvents (putData dataAC) s1) = [data_wireEncode dataAC] /\
  sentFrames (newEvents (putData dataAB) s1) = [data_wireEncode dataAB].
Proof.
  vm_compute. repeat split.
Qed.

Lemma putData_again_is_unsolicited_witness :
  let s1 := after (putData dataAB) oneForwarderEntry in
  existsb (matchesEntry dataAB) (rc_records (m_pendingInterestTable s1)) = false /\
  sentFrames (newEvents (putData dataAB) s1) = [data_wireEncode dataAB].
Proof.
  destruct (putData_again_is_unsolicited dataAB dataAB oneForwarderEntry) as [Hnone Hput].
  split; [exact Hnone |].
  destruct (Hput Hnone) as [_ [_ [Hsent _]]]. exact Hsent.
Defined.

(** C3, as stated, fails: in [twoForwarderEntries] a NoRoute Nack completes
    both FORWARDER entries, the first with the accumulated reason Congestion
    and the second with NoRoute; the one Nack sent carries NoRoute, which is
    not the least severe of the two. *)
Lemma putNack_sends_nack_of_last_entry_not_least_severe :
  let nack := makeNack (makeInterest ["A"%string] false 2) NO_ROUTE in
  let recs := rc_records (m_pendingInterestTable twoForwarderEntries) in
  map (fun r => pi_origin (snd r)) recs = [FORWARDER; FORWARDER] /\
  map getReason (forwarderNacks nack recs) = [CONGESTION; NO_ROUTE] /\
  isLessSevere CONGESTION NO_ROUTE = true /\
  outcome (nackPendingInterests nack) twoForwarderEntries = Returned (Some nack) /\
  sentFrames (newEvents (putNack nack) twoForwarderEntries) = [nackFrame nack].
Proof.
  vm_compute. repeat split.
Qed.

Lemma putNack_sends_nack_of_last_completed_forwarder_entry_witness :
  let nack := makeNack (makeInterest ["unsolicited"%string] false 18645250) NO_ROUTE in
  newEvents (putNack nack) oneForwarderEntry = [] /\
  m_pendingInterestTable (after (putNack nack) oneForwarderEntry)
    = m_pendingInterestTable oneForwarderEntry.
Proof.
  intros nack.
  destruct (putNack_sends_nack_of_last_completed_forwarder_entry nack oneForwarderEntry)
    as [_ [_ [_ [_ H]]]].
  destruct H as [_ [Hev Hpit]]; [reflexivity |].
  split; [exact Hev | exact Hpit].
Defined.

(** C7, as stated, fails for a registration without a failure callback: the
    command is started, and when it fails its failure handler throws
    bad_function_call and no onFailure call is made. *)
Lemma registerPrefix_failure_with_empty_onFailure :
  let call := registerPrefix ["A"%string] (Some 1) None 0 defaultOptions None None in
  let s1 := after call newImpl in
  let denied := mkControlResponse 403 "denied"%string None in
  outcome call newImpl = Returned 1 /\
  map cmd_onFailure (m_nfdController s1) = [RegisterFailed ["A"%string] None] /\
  outcome (runFailureHandler (RegisterFailed ["A"%string] None) denied) s1
    = Thrown BadFunctionCall /\
  newEvents (runFailureHandler (RegisterFailed ["A"%string] None) denied) s1 = [].
Proof.
  vm_compute. repeat split.
Qed.

(** C2, as stated, fails: expressInterest throws for an oversized Interest
    after it has put the entry into the pending-interest table. *)
Lemma oversized_expressInterest_leaves_entry_in_table :
  let call := expressInterest 1 oversizedInterest None None None in
  outcome call newImpl = Thrown (OversizedPacketError "I" ["big"%string] 8806) /\
  rc_records (m_pendingInterestTable newImpl) = [] /\
  map fst (rc_records (m_pendingInterestTable (after call newImpl))) = [1].
Proof.
  vm_compute. repeat split.
Qed.

Lemma oversized_packet_throws_after_pending_table_update_witness :
  let call := expressInterest 1 oversizedInterest None None None in
  outcome call newImpl
    = Thrown (OversizedPacketError "I" ["big"%string]
                (block_size (interestFrame oversizedInterest))) /\
  sentFrames (newEvents call newImpl) = [].
Proof.
  intros call.
  destruct (oversized_packet_throws_after_pending_table_update (codec := exampleCodec)
              (transport := exampleTransport)) as [H _].
  destruct (H 1 oversizedInterest None None None newImpl) as [Hout [Hsent _]].
  - vm_compute. reflexivity.
  - split; [exact Hout | exact Hsent].
Defined.

Lemma expressInterest_sends_before_loopback_witness :
  let events := newEvents (expressInterest 1 interestA None None None) twoFilters in
  In (TransportSend (interestFrame interestA)) (map fst (firstn 3 events)).
Proof.
  intros events.
  apply (expressInterest_sends_before_loopback 1 interestA None None None twoFilters
           (firstn 3 events) (skipn 4 events) (nth 3 events (TransportConnect, view newImpl))).
  - vm_compute. reflexivity.
  - vm_compute. reflexivity.
Defined.

(** C8, as stated, fails for an oversized Interest: the filter with id 1
    allows loopback and matches its name, and is not invoked. *)
Lemma oversized_interest_reaches_no_filter :
  let call := expressInterest 1 oversizedInterest None None None in
  records_get 1 (rc_records (m_interestFilterTable twoFilters))
    = Some (mkInterestFilterRecord rootFilter (Some 11)) /\
  f_allowLoopback rootFilter = true /\
  filter_doesMatch_name (f_prefix rootFilter) (f_regex rootFilter)
    (i_name oversizedInterest) = true /\
  filter (fun ev => isUserCallback (fst ev)) (newEvents call twoFilters) = [].
Proof.
  vm_compute. repeat split.
Qed.

Lemma expressInterest_loopback_when_encoding_fits_witness :
  let call := expressInterest 1 interestA None None None in
  map fst (filter (fun ev => isUserCallback (fst ev)) (newEvents call twoFilters))
    = [InvokeInterestCallback 1 (mkInterestFilterRecord rootFilter (Some 11)) interestA].
Proof.
  intros call.
  destruct (expressInterest_loopback_when_encoding_fits 1 interestA None None None
              twoFilters) as [_ H].
  destruct H as [Hcalls _]; [vm_compute; discriminate |].
  exact Hcalls.
Defined.

(** ** Worked examples for the further properties *)

Lemma data_for_forwarder_interest_is_sent_witness :
  let s1 := after (processIncomingInterest interestA) newImpl in
  sentFrames (newEvents (putData dataAB) s1)
    = (if (block_size (dataFrame dataAB) <=? MAX_NDN_PACKET_SIZE)%Z then [dataFrame dataAB]
       else []) /\
  rc_get 1 (m_pendingInterestTable (after (putData dataAB) s1)) = None.
Proof.
  apply (data_for_forwarder_interest_is_sent interestA dataAB newImpl). reflexivity.
Defined.

Lemma data_for_expressed_interest_stays_local_witness :
  let s1 := after (expressInterest 1 interestA (Some 21) None None) newImpl in
  sentFrames (newEvents (putData dataAB) s1) = [] /\
  (exists e : PendingInterest,
     In (InvokeDataCallback e dataAB) (map fst (newEvents (putData dataAB) s1)) /\
     pi_interest e = interestA /\ pi_origin e = APP /\ pi_dataCallback e = Some 21) /\
  rc_get 1 (m_pendingInterestTable (after (putData dataAB) s1)) = None.
Proof.
  apply (data_for_expressed_interest_stays_local 1 interestA (Some 21) None None dataAB
           newImpl); reflexivity.
Defined.

Lemma shutdown_pauses_on_next_poll_witness :
  let s1 := after shutdown oneForwarderEntry in
  newEvents shutdown oneForwarderEntry = [] /\
  map fst (newEvents poll s1) = [TransportPause] /\
  m_processEventsTimeoutEvent (after poll s1) = false.
Proof.
  destruct (shutdown_pauses_on_next_poll oneForwarderEntry)
    as [Hquiet [_ [_ [_ [Hpause [_ Hcancel]]]]]]; try reflexivity.
  split; [exact Hquiet |]. split; [rewrite Hpause; reflexivity | exact Hcancel].
Defined.

Lemma unregisterPrefix_starts_then_completes_witness :
  let call := unregisterPrefix 1 (Some 31) (Some 32) in
  outcome call oneRegisteredPrefix = Returned tt /\
  newEvents call oneRegisteredPrefix = [] /\
  rc_get 1 (m_registeredPrefixTable (after call oneRegisteredPrefix))
    = Some (mkRegisteredPrefix ["A"%string] defaultOptions 1) /\
  rc_records (m_interestFilterTable (after call oneRegisteredPrefix)) = [].
Proof.
  destruct (unregisterPrefix_starts_then_completes oneRegisteredPrefix 1 (Some 31) (Some 32)
              (mkRegisteredPrefix ["A"%string] defaultOptions 1))
    as [[Hout [Hev [_ [Hrpt [_ Hift]]]]] _]; [reflexivity |].
  split; [exact Hout |]. split; [exact Hev |].
  split; [rewrite Hrpt; reflexivity | rewrite Hift; reflexivity].
Defined.

Lemma register_then_unregister_restores_tables_witness :
  let s1 := after (runSuccessHandler
                     (AfterRegistered 1 ["A"%string] defaultOptions (Some rootFilter)
                        (Some 11) None) emptyControlParameters) newImpl in
  let s2 := after (unregisterPrefix 1 (Some 31) None) s1 in
  let s3 := after (runSuccessHandler (AfterUnregistered 1 (Some 31)) emptyControlParameters)
              s2 in
  rc_records (m_interestFilterTable s3) = [] /\
  rc_records (m_registeredPrefixTable s3) = [].
Proof.
  destruct (register_then_unregister_restores_tables newImpl 1 ["A"%string] defaultOptions
              (Some rootFilter) (Some 11) None (Some 31) None emptyControlParameters
              emptyControlParameters)
    as [_ [_ [Hift [Hrpt _]]]]; try reflexivity.
  split; [exact Hift | exact Hrpt].
Defined.

Lemma unregisterPrefix_twice_witness :
  let s1 := after (unregisterPrefix 1 (Some 31) None) oneRegisteredPrefix in
  let s2 := after (runSuccessHandler (AfterUnregistered 1 (Some 31)) emptyControlParameters)
              s1 in
  List.length (m_nfdController (after (unregisterPrefix 1 None (Some 32)) s1)) = 2%nat /\
  newEvents (unregisterPrefix 1 None (Some 32)) s2
    = [(CallUnregisterFailure 32 "Unrecognized RegisteredPrefixHandle"%string, view s2)].
Proof.
  destruct (unregisterPrefix_twice oneRegisteredPrefix 1 (Some 31) None None (Some 32)
              (mkRegisteredPrefix ["A"%string] defaultOptions 1))
    as [Hctl Hstale]; [reflexivity |].
  split; [rewrite Hctl; reflexivity |].
  destruct (Hstale emptyControlParameters) as [_ [Hev _]]. exact Hev.
Defined.

Lemma removed_pending_interest_gets_no_data_witness :
  let s1 := after (asyncRemovePendingInterest 1) loopbackPending in
  rc_records (m_pendingInterestTable (after poll s1)) = [] /\
  map fst (newEvents (putData dataAB) (after poll s1))
    = [TransportResume; TransportSend (dataFrame dataAB)].
Proof.
  destruct (removed_pending_interest_gets_no_data loopbackPending 1 dataAB)
    as [_ [_ [_ [_ [Hgone Hsent]]]]].
  - reflexivity.
  - intros r Hin _. vm_compute in Hin. destruct Hin as [<- | []]. reflexivity.
  - split; [rewrite Hgone; reflexivity | rewrite Hsent; reflexivity].
Defined.

Lemma nack_completes_after_every_destination_witness :
  let nack := makeNack interestA NO_ROUTE in
  let alone := after (expressInterest 1 interestA None (Some 22) None) newImpl in
  let looped := after (expressInterest 1 interestA None (Some 22) None) twoFilters in
  rc_get 1 (m_pendingInterestTable (after (putNack nack) alone)) = None /\
  option_map pi_nNacked (rc_get 1 (m_pendingInterestTable (after (putNack nack) looped)))
    = Some 1.
Proof.
  assert (Hmatch : matchesInterest (n_interest (makeNack interestA NO_ROUTE)) interestA
                   = true) by reflexivity.
  split.
  - destruct (nack_completes_after_every_destination 1 interestA None (Some 22) None
                (makeNack interestA NO_ROUTE) newImpl Hmatch) as [_ [_ Hdone]].
    destruct Hdone as [_ Hgone]. exact Hgone.
  - destruct (nack_completes_after_every_destination 1 interestA None (Some 22) None
                (makeNack interestA NO_ROUTE) twoFilters Hmatch) as [_ [_ Hkept]].
    cbv zeta in Hkept. rewrite Hkept. reflexivity.
Defined.

Lemma unrelated_entries_are_untouched_witness :
  rc_get 1 (m_pendingInterestTable (after (putData (makeData ["B"%string]))
                                      oneForwarderEntry))
    = Some (newForwarderPendingInterest interestA) /\
  rc_get 1 (m_pendingInterestTable
              (after (putNack (makeNack (makeInterest ["B"%string] true 1) NO_ROUTE))
                 oneForwarderEntry))
    = Some (newForwarderPendingInterest interestA).
Proof.
  assert (Hget : rc_get 1 (m_pendingInterestTable oneForwarderEntry)
                 = Some (newForwarderPendingInterest interestA)) by reflexivity.
  destruct (unrelated_entries_are_untouched oneForwarderEntry 1
              (newForwarderPendingInterest interestA) Hget) as [Hdata Hnack].
  split; [apply Hdata | apply Hnack]; reflexivity.
Defined.

Lemma command_reply_fills_missing_fields_witness :
  exists reply : ControlParameters,
    enableRegistrationReply 7 registerInterest
      = Reply (mkRegistrationReply (i_name registerInterest)
                 (mkControlResponse 200 EmptyString (Some reply))) /\
    cp_faceId reply = Some 7 /\
    cp_origin reply = Some ROUTE_ORIGIN_APP /\
    cp_cost reply = Some 0.
Proof.
  destruct (command_reply_fills_missing_fields exampleCodec 7 registerInterest
              (setName ["params"%string] emptyControlParameters))
    as [reply [Hreply [_ [_ [_ [Hface [Horigin [Hcost _]]]]]]]].
  - simpl. lia.
  - reflexivity.
  - intros Hverb. vm_compute in Hverb. discriminate Hverb.
  - reflexivity.
  - exists reply. split; [exact Hreply |].
    split; [exact Hface |]. split; [exact Horigin | exact Hcost].
Defined.

Lemma noLinks_wellFormed : linksWellFormed noLinks.
Proof.
  unfold linksWellFormed, noLinks. simpl.
  split; [intros f l Hf; discriminate Hf |].
  split; [intros l f [] |].
  split; [intros l; constructor | intros l; discriminate].
Qed.

Lemma linkedPair_wellFormed : linksWellFormed linkedPair.
Proof.
  apply (linkTo_wellFormed 1 2 noLinks linkedPair noLinks_wellFormed);
    [discriminate | reflexivity].
Qed.

Lemma linkTo_preserves_wellFormed_witness :
  linksWellFormed linkedPair /\
  In 2 (broadcastReceivers 1 linkedPair) /\
  In 1 (broadcastReceivers 2 linkedPair).
Proof.
  apply (linkTo_preserves_wellFormed 1 2 noLinks linkedPair noLinks_wellFormed);
    [discriminate | reflexivity].
Defined.

Lemma broadcast_reaches_the_other_faces_of_the_link_witness :
  NoDup (broadcastReceivers 1 linkedPair) /\
  (In 2 (broadcastReceivers 1 linkedPair) <-> In 1 (broadcastReceivers 2 linkedPair)).
Proof.
  destruct (broadcast_reaches_the_other_faces_of_the_link linkedPair 1 linkedPair_wellFormed)
    as [_ [Honce Hmutual]].
  split; [exact Honce | exact (Hmutual 2)].
Defined.

Lemma unlink_preserves_wellFormed_witness :
  exists w' : LinkWorld,
    unlink 1 linkedPair = LinkReturned w' /\
    linksWellFormed w' /\
    w_bcastLink w' 1 = None /\
    w_bcastLink w' 2 = None.
Proof.
  destruct (unlink_preserves_wellFormed 1 linkedPair linkedPair_wellFormed)
    as [w' [Hrun [Hwf [Hnone [_ [_ Hlast]]]]]].
  exists w'. split; [exact Hrun |]. split; [exact Hwf |]. split; [exact Hnone |].
  apply Hlast. reflexivity.
Defined.

Lemma linkTo_then_unlink_restores_pointers_witness :
  exists w1 w2 : LinkWorld,
    linkTo 1 2 noLinks = LinkReturned w1 /\
    unlink 2 w1 = LinkReturned w2 /\
    w_bcastLink w2 1 = None /\
    w_bcastLink w2 2 = None.
Proof.
  assert (Hdiff : (1 : FacePtr) <> 2) by discriminate.
  destruct (linkTo_then_unlink_restores_pointers 1 2 noLinks Hdiff eq_refl eq_refl)
    as [w1 [Hlink Hunlink]].
  destruct (Hunlink 2 (or_intror eq_refl)) as [w2 [Hrun [Hptr _]]].
  exists w1, w2. split; [exact Hlink |]. split; [exact Hrun |].
  split; [exact (Hptr 1) | exact (Hptr 2)].
Defined.
